(** * PolicyTLDR: the summarization pipeline of the extension

    A shallow embedding of the parts of the extension that decide what is
    sent to the provider, how its reply is read, and what is cached:

    - [src/ai.js]: [stripCodeFences], [tryParseJsonFromContent],
      [clampScore], [extractFromUnstructured] and the normalization at the
      end of [summarizePolicy];
    - the background script: [hashText], [extractBodyTextFromHTML],
      [normalizeWhitespace] and the [SUMMARIZE_POLICY] message handler;
    - [src/storage.js]: [saveSummary], [getSummary], [removeSummary].

    JavaScript strings are sequences of UTF-16 code units, numbers are the
    finite binary64 values (as exact rationals) with NaN and the two
    infinities, and regular expressions are run by a backtracking matcher
    that follows the priorities of the ECMAScript one. What the host
    supplies is either written out after its standard ([JSON.parse],
    [Number], [TextEncoder], SHA-256) or taken as a parameter
    ([Number.prototype.toString], the DOM parser, the network, the clock).

    The definitions come first, file by file; the properties follow:
    the score, the explanation, replies without a record, the stored
    summaries, white space, the cache and the fingerprint. *)

From Stdlib Require Import ZArith NArith QArith Qabs Qround List String Ascii Lia Bool.
From stdpp Require Import base gmap.

#[local] Set Warnings "-register-all".
Import ListNotations.

Local Open Scope Z_scope.
Local Open Scope list_scope.

(* ===================================================================== *)
(** ** Strings *)
(* ===================================================================== *)

(** A code unit; a JavaScript string is a list of them. *)
Abbreviation char := N.
Abbreviation jsstring := (list N).

(** An ASCII literal as a JavaScript string. *)
Definition lit (s : string) : jsstring :=
  List.map N_of_ascii (list_ascii_of_string s).

(** The same, with every apostrophe of the literal standing for a double
    quote: the way JSON text is written below. *)
Definition jsq (s : string) : jsstring :=
  List.map (fun c => if N.eqb c 39 then 34%N else c) (lit s).

Definition LF : N := 10%N.
Definition CR : N := 13%N.

Definition str_eqb (a b : jsstring) : bool := bool_decide (a = b).

(** [\s] of a regular expression, which is also what [trim] removes:
    WhiteSpace and LineTerminator of ECMAScript. *)
Definition is_space (c : N) : bool :=
  ((9 <=? c) && (c <=? 13) || (c =? 32) || (c =? 160) || (c =? 5760)
   || ((8192 <=? c) && (c <=? 8202)) || (c =? 8232) || (c =? 8233)
   || (c =? 8239) || (c =? 8287) || (c =? 12288) || (c =? 65279))%N.

Definition is_digit (c : N) : bool := ((48 <=? c) && (c <=? 57))%N.
Definition is_upper (c : N) : bool := ((65 <=? c) && (c <=? 90))%N.
Definition is_lower (c : N) : bool := ((97 <=? c) && (c <=? 122))%N.
Definition is_alpha (c : N) : bool := is_upper c || is_lower c.
(** [\w] *)
Definition is_word (c : N) : bool := is_alpha c || is_digit c || (c =? 95)%N.

Fixpoint drop_while (p : N -> bool) (s : jsstring) : jsstring :=
  match s with
  | c :: t => if p c then drop_while p t else s
  | [] => []
  end.

(** [String.prototype.trim] *)
Definition trimStart (s : jsstring) : jsstring := drop_while is_space s.
Definition trimEnd (s : jsstring) : jsstring := rev (drop_while is_space (rev s)).
Definition trim (s : jsstring) : jsstring := trimEnd (trimStart s).

Fixpoint prefix_b (p s : jsstring) : bool :=
  match p, s with
  | [], _ => true
  | a :: p', b :: s' => (a =? b)%N && prefix_b p' s'
  | _ :: _, [] => false
  end.

Definition startsWith (s p : jsstring) : bool := prefix_b p s.
Definition endsWith (s p : jsstring) : bool := prefix_b (rev p) (rev s).

(** [indexOf] and [lastIndexOf] of a single code unit; [None] is -1. *)
Fixpoint indexOf_from (c : N) (s : jsstring) (i : nat) : option nat :=
  match s with
  | [] => None
  | d :: t => if (c =? d)%N then Some i else indexOf_from c t (S i)
  end.
Definition indexOf (s : jsstring) (c : N) : option nat := indexOf_from c s 0.

Fixpoint lastIndexOf_from (c : N) (s : jsstring) (i : nat) (acc : option nat)
  : option nat :=
  match s with
  | [] => acc
  | d :: t => lastIndexOf_from c t (S i) (if (c =? d)%N then Some i else acc)
  end.
Definition lastIndexOf (s : jsstring) (c : N) : option nat :=
  lastIndexOf_from c s 0 None.

(** [s.slice(a, b)] for [0 <= a] and [0 <= b] *)
Definition slice (s : jsstring) (a b : nat) : jsstring :=
  firstn (b - a) (skipn a s).

(** [Array.prototype.join] on an array of strings *)
Fixpoint join (sep : jsstring) (l : list jsstring) : jsstring :=
  match l with
  | [] => []
  | [x] => x
  | x :: t => x ++ sep ++ join sep t
  end.

(* ===================================================================== *)
(** ** Regular expressions *)
(* ===================================================================== *)

(** The patterns of the source use classes, sequence, alternation, greedy
    repetition, capturing groups, [^], [$] (no [m] flag anywhere) and [\b]. *)
Inductive regex : Type :=
| REmpty
| RClass (p : N -> bool)
| RSeq (r1 r2 : regex)
| RAlt (r1 r2 : regex)
| RStar (r : regex)
| RGroup (n : nat) (r : regex)
| RBol
| REol
| RWordB.

(** A position of the matcher: the text before it (last unit first), the
    text after it, and the captures made so far (latest first). *)
Record mstate : Type := MState {
  m_pre : jsstring;
  m_rest : jsstring;
  m_caps : list (nat * jsstring)
}.

Definition word_before (st : mstate) : bool :=
  match m_pre st with c :: _ => is_word c | [] => false end.
Definition word_after (st : mstate) : bool :=
  match m_rest st with c :: _ => is_word c | [] => false end.

(** Greedy repetition: every way to iterate [step], longest first, an
    iteration that consumes nothing being rejected. *)
Fixpoint star_loop (step : mstate -> list mstate) (fuel : nat) (st : mstate)
  : list mstate :=
  match fuel with
  | O => [st]
  | S f =>
      flat_map
        (fun st' =>
           if (length (m_rest st') <? length (m_rest st))%nat
           then star_loop step f st' else [])
        (step st) ++ [st]
  end.

(** All the ways [r] matches at a position, in the order in which a
    backtracking matcher tries them: the head is the match it returns. *)
Fixpoint rmatch (r : regex) (st : mstate) : list mstate :=
  match r with
  | REmpty => [st]
  | RClass p =>
      match m_rest st with
      | c :: t => if p c then [MState (c :: m_pre st) t (m_caps st)] else []
      | [] => []
      end
  | RSeq a b => flat_map (rmatch b) (rmatch a st)
  | RAlt a b => rmatch a st ++ rmatch b st
  | RStar a => star_loop (rmatch a) (length (m_rest st)) st
  | RGroup n a =>
      List.map
        (fun st' =>
           MState (m_pre st') (m_rest st')
             ((n, firstn (length (m_rest st) - length (m_rest st')) (m_rest st))
                :: m_caps st'))
        (rmatch a st)
  | RBol => match m_pre st with [] => [st] | _ => [] end
  | REol => match m_rest st with [] => [st] | _ => [] end
  | RWordB => if xorb (word_before st) (word_after st) then [st] else []
  end.

(** A match: the text skipped before it, and the final position. *)
Record rmatch_result : Type := MatchResult {
  mr_skipped : jsstring;
  mr_end : mstate
}.

(** The leftmost match at or after a position. *)
Fixpoint search_from (r : regex) (pre rest skipped_rev : jsstring)
  : option rmatch_result :=
  match rmatch r (MState pre rest []) with
  | m :: _ => Some (MatchResult (rev skipped_rev) m)
  | [] =>
      match rest with
      | [] => None
      | c :: t => search_from r (c :: pre) t (c :: skipped_rev)
      end
  end.

(** [re.exec(s)] without the [g] flag *)
Definition exec (r : regex) (s : jsstring) : option rmatch_result :=
  search_from r [] s [].

(** [re.test(s)] *)
Definition test (r : regex) (s : jsstring) : bool :=
  match exec r s with Some _ => true | None => false end.

(** The text of capturing group [n] of a match ([m[n]]). *)
Fixpoint cap_lookup (n : nat) (l : list (nat * jsstring)) : option jsstring :=
  match l with
  | [] => None
  | (k, v) :: t => if Nat.eqb k n then Some v else cap_lookup n t
  end.
Definition group (n : nat) (m : rmatch_result) : option jsstring :=
  cap_lookup n (m_caps (mr_end m)).

(** [s.replace(re, rep)] without the [g] flag; no replacement string of the
    source holds a [$]. *)
Definition replace (r : regex) (rep s : jsstring) : jsstring :=
  match exec r s with
  | None => s
  | Some m => mr_skipped m ++ rep ++ m_rest (mr_end m)
  end.

(** [s.replace(re, rep)] with the [g] flag: after an empty match the
    search resumes one unit further. *)
Fixpoint replace_all_from (r : regex) (rep : jsstring) (fuel : nat)
    (pre rest : jsstring) : jsstring :=
  match fuel with
  | O => rest
  | S f =>
      match search_from r pre rest [] with
      | None => rest
      | Some m =>
          let e := mr_end m in
          mr_skipped m ++ rep ++
          (if (length (mr_skipped m) + length (m_rest e) =? length rest)%nat
           then match m_rest e with
                | [] => []
                | c :: t => c :: replace_all_from r rep f (c :: m_pre e) t
                end
           else replace_all_from r rep f (m_pre e) (m_rest e))
      end
  end.

Definition replace_all (r : regex) (rep s : jsstring) : jsstring :=
  replace_all_from r rep (S (length s)) [] s.

(** [s.split(re)] (no limit, no capturing group in the separators of the
    source): [cur_rev] is the piece being built since the last separator;
    a separator is looked for at each position in turn, and a match that
    ends where the piece started is skipped. *)
Fixpoint split_from (r : regex) (fuel : nat) (pre rest cur_rev : jsstring)
    (at_piece_start : bool) : list jsstring :=
  match fuel with
  | O => [rev cur_rev ++ rest]
  | S f =>
      match rest with
      | [] => [rev cur_rev]
      | c :: t =>
          match rmatch r (MState pre rest []) with
          | m :: _ =>
              if (length (m_rest m) =? length rest)%nat && at_piece_start
              then split_from r f (c :: pre) t (c :: cur_rev) false
              else if (length (m_rest m) =? length rest)%nat
              then rev cur_rev :: split_from r f pre rest [] true
              else rev cur_rev :: split_from r f (m_pre m) (m_rest m) [] true
          | [] => split_from r f (c :: pre) t (c :: cur_rev) false
          end
      end
  end.

Definition split (r : regex) (s : jsstring) : list jsstring :=
  match s with
  | [] => match rmatch r (MState [] [] []) with _ :: _ => [] | [] => [[]] end
  | _ => split_from r (2 * length s + 1) [] s [] true
  end.

(* ===================================================================== *)
(** ** Numbers *)
(* ===================================================================== *)

(** A JavaScript number: NaN, an infinity, or a finite binary64 value kept
    as the rational it denotes (the two zeros are not told apart: nothing
    in the source distinguishes them). *)
Inductive number : Type :=
| NaN
| PInf
| NInf
| Fin (q : Q).

Definition pow2 (e : Z) : Q :=
  if 0 <=? e then inject_Z (2 ^ e) else (1 # Z.to_pos (2 ^ (- e)))%Q.

Definition pow10 (e : Z) : Q :=
  if 0 <=? e then inject_Z (10 ^ e) else (1 # Z.to_pos (10 ^ (- e)))%Q.

Definition round_half_even (q : Q) : Z :=
  let f := Qfloor q in
  match Qcompare (q - inject_Z f)%Q (1 # 2)%Q with
  | Lt => f
  | Gt => f + 1
  | Eq => if Z.even f then f else f + 1
  end.

(** For [q > 0], the [e] with [2^e <= q < 2^(e+1)]. *)
Definition ilog2 (q : Q) : Z :=
  let e := Z.log2 (Qnum q) - Z.log2 (Zpos (Qden q)) in
  if Qle_bool (pow2 e) q then e else e - 1.

(** The binary64 value nearest to a rational (ties to even), which is what
    reading a decimal literal gives. *)
Definition to_binary64 (q : Q) : number :=
  match Qcompare q 0%Q with
  | Eq => Fin 0%Q
  | c =>
      let a := Qabs q in
      let e := Z.max (ilog2 a) (-1022) in
      let ulp := pow2 (e - 52) in
      let v := (inject_Z (round_half_even (a / ulp)) * ulp)%Q in
      if Qle_bool (pow2 1024) v
      then match c with Lt => NInf | _ => PInf end
      else Fin (Qred (match c with Lt => (- v)%Q | _ => v end))
  end.

Fixpoint digits_value (base : Z) (acc : Z) (ds : list Z) : Z :=
  match ds with
  | [] => acc
  | d :: t => digits_value base (base * acc + d) t
  end.

Definition digit_val (c : N) : Z := Z.of_N c - 48.

Definition hex_val (c : N) : option Z :=
  if is_digit c then Some (Z.of_N c - 48)
  else if ((97 <=? c) && (c <=? 102))%N then Some (Z.of_N c - 87)
  else if ((65 <=? c) && (c <=? 70))%N then Some (Z.of_N c - 55)
  else None.

(** The longest prefix made of units satisfying [p], and what follows. *)
Fixpoint span (p : N -> bool) (s : jsstring) : jsstring * jsstring :=
  match s with
  | c :: t =>
      if p c then let '(a, b) := span p t in (c :: a, b) else ([], s)
  | [] => ([], [])
  end.

(** An exponent part [[eE][+-]?[0-9]+] at the head of [s], if any: its
    value and the rest. *)
Definition read_exponent (s : jsstring) : option (Z * jsstring) :=
  match s with
  | c :: t =>
      if ((c =? 101) || (c =? 69))%N then
        let '(neg, t') :=
          match t with
          | d :: u => if (d =? 45)%N then (true, u)
                      else if (d =? 43)%N then (false, u) else (false, t)
          | [] => (false, t)
          end in
        match span is_digit t' with
        | ([], _) => None
        | (ds, r) =>
            let v := digits_value 10 0 (List.map digit_val ds) in
            Some (if neg then - v else v, r)
        end
      else None
  | [] => None
  end.

(** The value of the decimal literal with integer digits [ip], fraction
    digits [fp] and exponent [ex]. *)
Definition decimal_value (ip fp : jsstring) (ex : Z) : Q :=
  (inject_Z (digits_value 10 0 (List.map digit_val (ip ++ fp)))
   * pow10 (ex - Z.of_nat (length fp)))%Q.

(** An unsigned StrDecimalLiteral other than [Infinity] that spans all of
    [s]: digits with an optional fraction and exponent, or a fraction
    alone. *)
Definition read_unsigned_decimal (s : jsstring) : option Q :=
  let '(ip, r) := span is_digit s in
  let '(fp, r', has_dot) :=
    match r with
    | c :: t => if (c =? 46)%N then let '(f, u) := span is_digit t in (f, u, true)
                else ([], r, false)
    | [] => ([], r, false)
    end in
  match ip, fp with
  | [], [] => None
  | _, _ =>
      match r' with
      | [] => Some (decimal_value ip fp 0)
      | _ => match read_exponent r' with
             | Some (ex, []) => Some (decimal_value ip fp ex)
             | _ => None
             end
      end
  end.

Definition read_radix (base : Z) (s : jsstring) : number :=
  match s with
  | [] => NaN
  | _ =>
      match fold_right
              (fun c acc =>
                 match hex_val c, acc with
                 | Some d, Some l => if d <? base then Some (d :: l) else None
                 | _, _ => None
                 end) (Some []) s with
      | Some ds => to_binary64 (inject_Z (digits_value base 0 ds))
      | None => NaN
      end
  end.

Definition negate (n : number) : number :=
  match n with
  | NaN => NaN
  | PInf => NInf
  | NInf => PInf
  | Fin q => Fin (Qred (- q)%Q)
  end.

Definition read_signless (s : jsstring) : number :=
  if str_eqb s (lit "Infinity") then PInf
  else match read_unsigned_decimal s with
       | Some q => to_binary64 q
       | None => NaN
       end.

(** [Number(s)] for a string (StringToNumber). *)
Definition StringToNumber (s : jsstring) : number :=
  match trim s with
  | [] => Fin 0%Q
  | (c :: t) as u =>
      if (c =? 45)%N then negate (read_signless t)
      else if (c =? 43)%N then read_signless t
      else match u with
           | 48%N :: x :: t' =>
               if ((x =? 120) || (x =? 88))%N then read_radix 16 t'
               else if ((x =? 111) || (x =? 79))%N then read_radix 8 t'
               else if ((x =? 98) || (x =? 66))%N then read_radix 2 t'
               else read_signless u
           | _ => read_signless u
           end
  end.

(** [Math.round]: the nearest integer, a tie going up. *)
Definition Math_round (n : number) : number :=
  match n with
  | Fin q => Fin (inject_Z (Qfloor (q + (1 # 2))%Q))
  | _ => n
  end.

(** [Math.min] and [Math.max] of two numbers. *)
Definition Math_min (a b : number) : number :=
  match a, b with
  | NaN, _ | _, NaN => NaN
  | NInf, _ | _, NInf => NInf
  | PInf, x | x, PInf => x
  | Fin p, Fin q => if Qle_bool p q then a else b
  end.

Definition Math_max (a b : number) : number :=
  match a, b with
  | NaN, _ | _, NaN => NaN
  | PInf, _ | _, PInf => PInf
  | NInf, x | x, NInf => x
  | Fin p, Fin q => if Qle_bool p q then b else a
  end.

(** [a < b] on numbers: false as soon as one side is NaN. *)
Definition num_lt (a b : number) : bool :=
  match a, b with
  | NaN, _ | _, NaN => false
  | PInf, _ => false
  | _, NInf => false
  | NInf, _ => true
  | _, PInf => true
  | Fin p, Fin q => negb (Qle_bool q p)
  end.

Definition num_of_Z (z : Z) : number := Fin (inject_Z z).

(* ===================================================================== *)
(** ** Values *)
(* ===================================================================== *)

(** The values a parsed JSON reply is made of, with [undefined]. An object
    keeps its own properties in creation order. *)
Inductive value : Type :=
| VUndefined
| VNull
| VBool (b : bool)
| VNum (n : number)
| VStr (s : jsstring)
| VArr (l : list value)
| VObj (l : list (jsstring * value)).

(** [typeof] *)
Inductive jstype : Type :=
| TUndefined | TObject | TBoolean | TNumber | TString.

Definition typeof (v : value) : jstype :=
  match v with
  | VUndefined => TUndefined
  | VNull | VArr _ | VObj _ => TObject
  | VBool _ => TBoolean
  | VNum _ => TNumber
  | VStr _ => TString
  end.

Definition is_string (v : value) : bool :=
  match v with VStr _ => true | _ => false end.
Definition is_number (v : value) : bool :=
  match v with VNum _ => true | _ => false end.
Definition isArray (v : value) : bool :=
  match v with VArr _ => true | _ => false end.
Definition is_object (v : value) : bool :=
  match typeof v with TObject => true | _ => false end.

(** ToBoolean: what [!v], [v && _], [v || _] and [if (v)] look at. *)
Definition truthy (v : value) : bool :=
  match v with
  | VUndefined | VNull => false
  | VBool b => b
  | VNum NaN => false
  | VNum (Fin q) => negb (Qeq_bool q 0)
  | VNum _ => true
  | VStr [] => false
  | VStr _ => true
  | VArr _ | VObj _ => true
  end.

Definition or_else (a b : value) : value := if truthy a then a else b.

(** [a ?? b] *)
Definition nullish (a b : value) : value :=
  match a with VUndefined | VNull => b | _ => a end.

Fixpoint assoc (k : jsstring) (l : list (jsstring * value)) : option value :=
  match l with
  | [] => None
  | (k', v) :: t => if str_eqb k k' then Some v else assoc k t
  end.

(** Defining property [k] of an object: an existing one keeps its place. *)
Fixpoint obj_set (k : jsstring) (v : value) (l : list (jsstring * value))
  : list (jsstring * value) :=
  match l with
  | [] => [(k, v)]
  | (k', v') :: t =>
      if str_eqb k k' then (k, v) :: t else (k', v') :: obj_set k v t
  end.

(** The array index a property key denotes, if it is the canonical decimal
    form of one. *)
Definition array_index (k : jsstring) : option nat :=
  match k with
  | [] => None
  | [48%N] => Some O
  | 48%N :: _ => None
  | _ => if forallb is_digit k
         then Some (Z.to_nat (digits_value 10 0 (List.map digit_val k)))
         else None
  end.

(** [v[k]] for a [v] that is neither [null] nor [undefined]. The keys the
    source reads ([choices], [0], [message], [content], [text], ...) are
    not properties of any built-in prototype, so a key that is not an own
    property reads as [undefined]. *)
Definition get (v : value) (k : jsstring) : value :=
  match v with
  | VObj l => match assoc k l with Some x => x | None => VUndefined end
  | VArr l =>
      match array_index k with
      | Some i => nth i l VUndefined
      | None => VUndefined
      end
  | VStr s =>
      match array_index k with
      | Some i => match nth_error s i with
                  | Some c => VStr [c]
                  | None => VUndefined
                  end
      | None => VUndefined
      end
  | _ => VUndefined
  end.

(** [v?.k] *)
Definition get_opt (v : value) (k : jsstring) : value :=
  match v with
  | VUndefined | VNull => VUndefined
  | _ => get v k
  end.

(* ===================================================================== *)
(** ** JSON.parse *)
(* ===================================================================== *)

Definition json_ws (c : N) : bool :=
  ((c =? 32) || (c =? 9) || (c =? 10) || (c =? 13))%N.

Definition skip_ws (s : jsstring) : jsstring := drop_while json_ws s.

(** Four hexadecimal digits at the head of [s]. *)
Definition read_hex4 (s : jsstring) : option (N * jsstring) :=
  match s with
  | a :: b :: c :: d :: t =>
      match hex_val a, hex_val b, hex_val c, hex_val d with
      | Some x, Some y, Some z, Some w =>
          Some (Z.to_N (digits_value 16 0 [x; y; z; w]), t)
      | _, _, _, _ => None
      end
  | _ => None
  end.

(** The rest of a string literal after its opening quote. *)
Fixpoint parse_string_body (fuel : nat) (s acc_rev : jsstring)
  : option (jsstring * jsstring) :=
  match fuel with
  | O => None
  | S f =>
      match s with
      | [] => None
      | 34%N :: t => Some (rev acc_rev, t)
      | 92%N :: e :: t =>
          if (e =? 117)%N then
            match read_hex4 t with
            | Some (c, t') => parse_string_body f t' (c :: acc_rev)
            | None => None
            end
          else
            match
              (if (e =? 34)%N then Some 34 else if (e =? 92)%N then Some 92
               else if (e =? 47)%N then Some 47 else if (e =? 98)%N then Some 8
               else if (e =? 102)%N then Some 12 else if (e =? 110)%N then Some 10
               else if (e =? 114)%N then Some 13 else if (e =? 116)%N then Some 9
               else None)%N
            with
            | Some c => parse_string_body f t (c :: acc_rev)
            | None => None
            end
      | 92%N :: [] => None
      | c :: t =>
          if (c <? 32)%N then None else parse_string_body f t (c :: acc_rev)
      end
  end.

(** A JSON number at the head of [s]: an optional minus, then a zero or
    digits not starting with a zero, then an optional fraction (a dot and
    at least one digit) and an optional exponent. *)
Definition parse_number (s : jsstring) : option (number * jsstring) :=
  let '(neg, s1) :=
    match s with
    | 45%N :: t => (true, t)
    | _ => (false, s)
    end in
  let '(ip, s2) :=
    match s1 with
    | 48%N :: t => ([48%N], t)
    | _ => span is_digit s1
    end in
  match ip with
  | [] => None
  | _ =>
      let frac :=
        match s2 with
        | 46%N :: t =>
            match span is_digit t with
            | ([], _) => None
            | (fp, s3) => Some (fp, s3)
            end
        | _ => Some ([], s2)
        end in
      match frac with
      | None => None
      | Some (fp, s3) =>
          let '(ex, s4) :=
            match read_exponent s3 with
            | Some (e, r) => (e, r)
            | None => (0, s3)
            end in
          let n := to_binary64 (decimal_value ip fp ex) in
          Some (if neg then negate n else n, s4)
      end
  end.

Definition expect (w : jsstring) (v : value) (s : jsstring)
  : option (value * jsstring) :=
  if prefix_b w s then Some (v, skipn (length w) s) else None.

(** A JSON value at the head of [s] (after white space), and the rest.
    [parse_elements] reads the elements of an array after its bracket or a
    comma, [parse_members] the members of an object. *)
Fixpoint parse_value (fuel : nat) (s : jsstring) : option (value * jsstring) :=
  match fuel with
  | O => None
  | S f =>
      match skip_ws s with
      | [] => None
      | 123%N :: t =>
          match skip_ws t with
          | 125%N :: t' => Some (VObj [], t')
          | _ => parse_members f t []
          end
      | 91%N :: t =>
          match skip_ws t with
          | 93%N :: t' => Some (VArr [], t')
          | _ => parse_elements f t []
          end
      | 34%N :: t =>
          match parse_string_body (S (length t)) t [] with
          | Some (str, t') => Some (VStr str, t')
          | None => None
          end
      | (116%N :: _) as u => expect (lit "true") (VBool true) u
      | (102%N :: _) as u => expect (lit "false") (VBool false) u
      | (110%N :: _) as u => expect (lit "null") VNull u
      | u =>
          match parse_number u with
          | Some (n, t) => Some (VNum n, t)
          | None => None
          end
      end
  end
with parse_elements (fuel : nat) (s : jsstring) (acc_rev : list value)
  : option (value * jsstring) :=
  match fuel with
  | O => None
  | S f =>
      match parse_value f s with
      | Some (v, t) =>
          match skip_ws t with
          | 44%N :: t' => parse_elements f t' (v :: acc_rev)
          | 93%N :: t' => Some (VArr (rev (v :: acc_rev)), t')
          | _ => None
          end
      | None => None
      end
  end
with parse_members (fuel : nat) (s : jsstring) (acc : list (jsstring * value))
  : option (value * jsstring) :=
  match fuel with
  | O => None
  | S f =>
      match skip_ws s with
      | 34%N :: t =>
          match parse_string_body (S (length t)) t [] with
          | Some (k, t1) =>
              match skip_ws t1 with
              | 58%N :: t2 =>
                  match parse_value f t2 with
                  | Some (v, t3) =>
                      match skip_ws t3 with
                      | 44%N :: t4 => parse_members f t4 (obj_set k v acc)
                      | 125%N :: t4 => Some (VObj (obj_set k v acc), t4)
                      | _ => None
                      end
                  | None => None
                  end
              | _ => None
              end
          | None => None
          end
      | _ => None
      end
  end.

(** [JSON.parse(s)]: [None] is the SyntaxError it throws. *)
Definition JSON_parse (s : jsstring) : option value :=
  match parse_value (2 * length s + 2) s with
  | Some (v, t) => match skip_ws t with [] => Some v | _ => None end
  | None => None
  end.

(* ===================================================================== *)
(** ** Patterns of the source *)
(* ===================================================================== *)

Fixpoint rseq (l : list regex) : regex :=
  match l with
  | [] => REmpty
  | [r] => r
  | r :: t => RSeq r (rseq t)
  end.

Fixpoint ralt (l : list regex) : regex :=
  match l with
  | [] => RClass (fun _ => false)
  | [r] => r
  | r :: t => RAlt r (ralt t)
  end.

(** [r?], [r+] and [r{1,n}], all greedy. *)
Definition ropt (r : regex) : regex := RAlt r REmpty.
Definition rplus (r : regex) : regex := RSeq r (RStar r).
Fixpoint rupto (n : nat) (r : regex) : regex :=
  match n with
  | O => REmpty
  | S k => ropt (RSeq r (rupto k r))
  end.
Definition rrep1 (n : nat) (r : regex) : regex := RSeq r (rupto (pred n) r).

Definition chr (c : N) : regex := RClass (N.eqb c).
Definition one_of (s : string) : regex :=
  RClass (fun c => existsb (N.eqb c) (lit s)).
Definition none_of (s : string) : regex :=
  RClass (fun c => negb (existsb (N.eqb c) (lit s))).

(** The canonical form that the [i] flag compares: exact for the letters
    the patterns of the source are written with (the ASCII ones and
    U+00F3), which is all it is used for. *)
Definition fold_case (c : N) : N :=
  if is_lower c then (c - 32)%N else if (c =? 243)%N then 211%N else c.
Definition chr_i (c : N) : regex :=
  RClass (fun x => (fold_case x =? fold_case c)%N).

(** A literal word, and the same under the [i] flag. *)
Definition word (s : string) : regex := rseq (List.map chr (lit s)).
Definition word_i (s : string) : regex := rseq (List.map chr_i (lit s)).

Definition ws_star : regex := RStar (RClass is_space).
Definition ws_plus : regex := rplus (RClass is_space).
Definition digit : regex := RClass is_digit.

(** [(?:\s*\/\s*10)?] *)
Definition out_of_ten_opt : regex :=
  ropt (rseq [ws_star; chr 47; ws_star; word "10"]).

(** [\s*[:\-]?\s*(\d{1,2})(?:\s*\/\s*10)?], the tail the first four score
    patterns share. *)
Definition score_tail : regex :=
  rseq [ws_star; ropt (one_of ":-"); ws_star;
        RGroup 1 (rrep1 2 digit); out_of_ten_opt].

(** [o] or U+00F3, under the [i] flag. *)
Definition o_acute : regex := RAlt (chr_i 111) (chr_i 243).

(** [(?:de\s*privacidad)?] under the [i] flag *)
Definition de_privacidad_opt : regex :=
  ropt (rseq [word_i "de"; ws_star; word_i "privacidad"]).

Definition scorePatterns : list regex :=
  [ rseq [RWordB; word_i "privacy"; ws_star;
          ropt (rseq [word_i "abuse"; ws_star]);
          word_i "score"; RWordB; score_tail];
    rseq [RWordB; word_i "score"; RWordB; score_tail];
    rseq [RWordB; word_i "puntuaci"; o_acute; word_i "n"; ws_star;
          de_privacidad_opt; RWordB; score_tail];
    rseq [RWordB; word_i "puntaje"; ws_star;
          de_privacidad_opt; RWordB; score_tail];
    rseq [RWordB; RGroup 1 (rrep1 2 digit); ws_star; chr 47; ws_star;
          word "10"; RWordB] ].

(** [/^```[a-zA-Z]*\n?/] and [/```$/] *)
Definition re_fence_open : regex :=
  rseq [RBol; word "```"; RStar (RClass is_alpha); ropt (chr LF)].
Definition re_fence_close : regex := rseq [word "```"; REol].

(** [/\r?\n/] *)
Definition re_newline : regex := rseq [ropt (chr CR); chr LF].

(** [/^[^:\-]+[:\-]?\s*/] *)
Definition re_label : regex :=
  rseq [RBol; rplus (none_of ":-"); ropt (one_of ":-"); ws_star].

(** [/^(\d{1,2})(?:\s*\/\s*10)?\s*/] *)
Definition re_leading_score : regex :=
  rseq [RBol; RGroup 1 (rrep1 2 digit); out_of_ten_opt; ws_star].

(** [/[a-zA-Z\u00C0-\u017F]/] *)
Definition re_letter : regex :=
  RClass (fun c => is_alpha c || ((192 <=? c) && (c <=? 383))%N).

(** [/(explana|explica|porque|motivo|reason|because|justif)/i] *)
Definition re_explains : regex :=
  RGroup 1 (ralt (List.map word_i
    ["explana"; "explica"; "porque"; "motivo"; "reason"; "because";
     "justif"]%string)).

(** [/^(summary|resumen)\b[:\-]?/i] *)
Definition re_summary_heading : regex :=
  rseq [RBol; RGroup 1 (RAlt (word_i "summary") (word_i "resumen"));
        RWordB; ropt (one_of ":-")].

(** [/^#{1,6}\s+/] *)
Definition re_md_heading : regex := rseq [RBol; rrep1 6 (chr 35); ws_plus].

(** [/^(score|puntuaci[o\u00F3]n|puntaje)\b/i] *)
Definition re_score_line : regex :=
  rseq [RBol;
        RGroup 1 (ralt [word_i "score";
                        rseq [word_i "puntuaci"; o_acute; word_i "n"];
                        word_i "puntaje"]);
        RWordB].

(** [/^(rights|derechos)\b/i] *)
Definition re_rights_line : regex :=
  rseq [RBol; RGroup 1 (RAlt (word_i "rights") (word_i "derechos")); RWordB].

(** [/[\.\s]+$/], [/\s+/] and [/\.$/] *)
Definition dot_or_space (c : N) : bool := (c =? 46)%N || is_space c.
Definition re_trailing_dots : regex := RSeq (rplus (RClass dot_or_space)) REol.
Definition re_spaces : regex := ws_plus.
Definition re_final_dot : regex := RSeq (chr 46) REol.

(** [/[\t\f\r ]+/] and [/\s*\n\s*/] *)
Definition is_blank (c : N) : bool :=
  ((c =? 9) || (c =? 12) || (c =? 13) || (c =? 32))%N.
Definition re_blanks : regex := rplus (RClass is_blank).
Definition re_line_break : regex := rseq [ws_star; chr LF; ws_star].

(* ===================================================================== *)
(** ** ai.js: reading the provider's reply *)
(* ===================================================================== *)

Definition isNaN (n : number) : bool :=
  match n with NaN => true | _ => false end.

(** [clampScore] *)
Definition clampScore (score : number) : number :=
  if isNaN score then num_of_Z 5
  else Math_max (num_of_Z 0) (Math_min (num_of_Z 10) (Math_round score)).

(** [parseInt(s, 10)] *)
Definition parseInt10 (s : jsstring) : number :=
  let t := trimStart s in
  let '(neg, u) :=
    match t with
    | 45%N :: r => (true, r)
    | 43%N :: r => (false, r)
    | _ => (false, t)
    end in
  match span is_digit u with
  | ([], _) => NaN
  | (ds, _) =>
      let n := to_binary64 (inject_Z (digits_value 10 0 (List.map digit_val ds))) in
      if neg then negate n else n
  end.

(** [stripCodeFences], on a string *)
Definition stripCodeFences (text : jsstring) : jsstring :=
  let t := trim text in
  if startsWith t (lit "```") && endsWith t (lit "```")
  then trim (replace re_fence_close [] (replace re_fence_open [] t))
  else t.

(** The string branch of [tryParseJsonFromContent]: strict parsing, then
    the text from the first [{] to the last [}]. [VNull] is its [null]. *)
Definition tryParseJsonString (content : jsstring) : value :=
  let text := stripCodeFences content in
  match JSON_parse text with
  | Some v => v
  | None =>
      match indexOf text 123, lastIndexOf text 125 with
      | Some firstBrace, Some lastBrace =>
          if (firstBrace <? lastBrace)%nat then
            match JSON_parse (slice text firstBrace (lastBrace + 1)) with
            | Some v => v
            | None => VNull
            end
          else VNull
      | _, _ => VNull
      end
  end.

(** The text a segment of an array reply contributes. *)
Definition segment_text (seg : value) : jsstring :=
  match seg with
  | VStr s => s
  | VObj _ | VArr _ =>
      match get seg (lit "text") with
      | VStr s => s
      | _ => match get seg (lit "content") with
             | VStr s => s
             | _ => []
             end
      end
  | _ => []
  end.

(** [tryParseJsonFromContent] *)
Definition tryParseJsonFromContent (content : value) : value :=
  match content with
  | VArr segs => tryParseJsonString (concat (List.map segment_text segs))
  | VObj _ =>
      let inner :=
        match get content (lit "content") with
        | VStr s => VStr s
        | _ => match get content (lit "text") with
               | VStr s => VStr s
               | _ => VNull
               end
        end in
      match inner with
      | VStr ((_ :: _) as s) => tryParseJsonString s
      | _ => content
      end
  | VStr s => tryParseJsonString s
  | _ => VNull
  end.

(** The lines of a text: split at line breaks, trimmed, the empty ones
    dropped. *)
Definition lines_of (text : jsstring) : list jsstring :=
  List.filter (fun l => negb (str_eqb l []))
    (List.map trim (split re_newline text)).

(** [m[1]] as the string [parseInt] is given. *)
Definition group1 (m : rmatch_result) : jsstring :=
  match group 1 m with Some s => s | None => lit "undefined" end.

(** The inner loop of the score detection: the first pattern that
    matches the line with a number in its group. *)
Fixpoint score_of_line (ps : list regex) (line : jsstring) : option number :=
  match ps with
  | [] => None
  | re :: t =>
      match exec re line with
      | Some m =>
          let n := parseInt10 (group1 m) in
          if isNaN n then score_of_line t line else Some (clampScore n)
      | None => score_of_line t line
      end
  end.

(** The outer loop: the first line with a score, and its index. *)
Fixpoint detect_score (lines : list jsstring) (i : nat) : option (number * nat) :=
  match lines with
  | [] => None
  | line :: t =>
      match score_of_line scorePatterns line with
      | Some n => Some (n, i)
      | None => detect_score t (S i)
      end
  end.

(** [lines.findIndex(l => re.test(l))] *)
Fixpoint findIndex (re : regex) (lines : list jsstring) (i : nat) : option nat :=
  match lines with
  | [] => None
  | l :: t => if test re l then Some i else findIndex re t (S i)
  end.

(** The lines under the heading, up to the first one that opens another
    section. *)
Fixpoint summary_section (lines : list jsstring) : list jsstring :=
  match lines with
  | [] => []
  | l :: t =>
      if test re_md_heading l || test re_score_line l || test re_rights_line l
      then []
      else l :: summary_section t
  end.

(** [lines.filter((_, idx) => idx !== k)] *)
Fixpoint remove_index (lines : list jsstring) (k : option nat) (i : nat)
  : list jsstring :=
  match lines with
  | [] => []
  | l :: t =>
      if match k with Some j => Nat.eqb i j | None => false end
      then remove_index t k (S i)
      else l :: remove_index t k (S i)
  end.

Definition mk_record (score : number) (explanation summary : jsstring) : value :=
  VObj [(lit "privacy_score", VNum score);
        (lit "score_explanation", VStr explanation);
        (lit "summary", VStr summary)].

(** [typeof content === "string" ? content : ""] *)
Definition text_of (content : value) : jsstring :=
  match content with VStr s => s | _ => [] end.

(** [extractFromUnstructured] *)
Definition extractFromUnstructured (content : value) : value :=
  let text := stripCodeFences (text_of content) in
  let lines := lines_of text in
  let detected := detect_score lines 0 in
  let scoreLineIndex := option_map snd detected in
  let explanation :=
    match scoreLineIndex with
    | Some idx =>
        let after := replace re_label [] (nth idx lines []) in
        let afterNumber := trim (replace re_leading_score [] after) in
        if negb (str_eqb afterNumber []) && test re_letter afterNumber
        then afterNumber
        else match nth_error lines (idx + 1) with
             | Some next => if test re_explains next then next else []
             | None => []
             end
    | None => []
    end in
  let summaryText :=
    match findIndex re_summary_heading lines 0 with
    | Some headingIdx =>
        trim (join [LF] (summary_section (skipn (headingIdx + 1) lines)))
    | None => []
    end in
  let summaryText :=
    match summaryText with
    | [] =>
        match trim (join [LF] (remove_index lines scoreLineIndex 0)) with
        | [] => text
        | body => body
        end
    | _ => summaryText
    end in
  let finalScore :=
    match detected with Some (n, _) => n | None => num_of_Z 5 end in
  let finalExplanation :=
    match explanation with
    | [] => match detected with
            | Some _ => lit "Detected score from response."
            | None => lit "No explicit score provided; using neutral score."
            end
    | _ => explanation
    end in
  mk_record finalScore finalExplanation summaryText.

(** The explanation made title-like: trimmed, trailing periods removed,
    capped at eight words. *)
Definition normalizeExplanation (explanation : jsstring) : jsstring :=
  let explanation := replace_all re_trailing_dots [] (trim explanation) in
  let words :=
    List.filter (fun w => negb (str_eqb w [])) (split re_spaces explanation) in
  let explanation :=
    if (8 <? length words)%nat then join (lit " ") (firstn 8 words)
    else explanation in
  replace re_final_dot [] explanation.

(** The errors [summarizePolicy] throws while reading a reply. *)
Inductive error : Type :=
| TypeError
| MissingRequiredFields
| ScoreOutOfRange.

(** The record [summarizePolicy] returns. *)
Record SummaryRecord : Type := mkSummary {
  privacy_score : number;
  score_explanation : jsstring;
  summary : jsstring
}.

Section Reply.

(** [Number.prototype.toString], which [String(v)] uses for a number:
    the host's, not used by any reply with string fields. *)
Variable NumberToString : number -> jsstring.

(** [String(v)]; [None] is the TypeError thrown for an object whose own
    [toString] property hides the inherited method (a parsed value is
    never callable, and the inherited [valueOf] gives the object back). *)
Fixpoint ToString (v : value) : option jsstring :=
  match v with
  | VUndefined => Some (lit "undefined")
  | VNull => Some (lit "null")
  | VBool true => Some (lit "true")
  | VBool false => Some (lit "false")
  | VNum n => Some (NumberToString n)
  | VStr s => Some s
  | VArr l =>
      option_map (join (lit ","))
        (fold_right
           (fun x acc =>
              match match x with
                    | VUndefined | VNull => Some []
                    | _ => ToString x
                    end, acc with
              | Some s, Some r => Some (s :: r)
              | _, _ => None
              end) (Some []) l)
  | VObj l =>
      match assoc (lit "toString") l with
      | Some _ => None
      | None => Some (lit "[object Object]")
      end
  end.

(** [Number(v)] *)
Definition ToNumber (v : value) : option number :=
  match v with
  | VUndefined => Some NaN
  | VNull => Some (num_of_Z 0)
  | VBool true => Some (num_of_Z 1)
  | VBool false => Some (num_of_Z 0)
  | VNum n => Some n
  | VStr s => Some (StringToNumber s)
  | VArr _ | VObj _ => option_map StringToNumber (ToString v)
  end.

Definition throwing {A : Type} (o : option A) (k : A -> error + SummaryRecord)
  : error + SummaryRecord :=
  match o with
  | Some a => k a
  | None => inl TypeError
  end.

(** [data.choices?.[0]?.message], for a [data] that is neither [null] nor
    [undefined], and the fields of it the reply is looked for in. *)
Definition messageOf (data : value) : value :=
  get_opt (get_opt (get data (lit "choices")) (lit "0")) (lit "message").
Definition rawContentOf (data : value) : value :=
  get_opt (messageOf data) (lit "content").
Definition altContentOf (data : value) : value :=
  or_else (get_opt (messageOf data) (lit "reasoning_content"))
    (or_else (get_opt (messageOf data) (lit "tool_content"))
       (or_else (get_opt (messageOf data) (lit "content_text")) VNull)).

(** The record found in the reply, before it is normalized: the first
    half of what [summarizePolicy] does with the parsed body [data] of a
    successful response. *)
Definition findRecord (data : value) : option value :=
  match data with
  | VUndefined | VNull => None
  | _ =>
      let rawContent := rawContentOf data in
      let parsed := tryParseJsonFromContent rawContent in
      let parsed :=
        if negb (truthy parsed) then
          let altContent := altContentOf data in
          if truthy altContent then tryParseJsonFromContent altContent
          else parsed
        else parsed in
      let parsed :=
        if negb (truthy parsed) then extractFromUnstructured rawContent
        else parsed in
      (* still wrapped *)
      let parsed :=
        if truthy parsed && is_object parsed
           && truthy (get parsed (lit "content"))
           && is_string (get parsed (lit "content"))
        then
          let inner := tryParseJsonFromContent (get parsed (lit "content")) in
          if truthy inner then inner else parsed
        else parsed in
      (* an array of segments *)
      if isArray parsed then
        let again := tryParseJsonFromContent parsed in
        if truthy again then Some again
        else option_map (fun s => extractFromUnstructured (VStr s))
               (ToString parsed)
      else Some parsed
  end.

(** The score of the record, before it is clamped. *)
Definition rawScore (parsed : value) : value :=
  let score := get_opt parsed (lit "privacy_score") in
  let score :=
    match score with
    | VStr s =>
        let n := StringToNumber s in
        if negb (isNaN n) then VNum n else score
    | _ => score
    end in
  if negb (is_number score) then
    let maybe :=
      tryParseJsonFromContent
        (or_else (get_opt parsed (lit "summary"))
           (or_else (get_opt parsed (lit "text")) (VStr []))) in
    if truthy maybe && is_number (get maybe (lit "privacy_score"))
    then get maybe (lit "privacy_score")
    else score
  else score.

(** The second half: normalize the fields of the record and validate
    them. *)
Definition normalizeRecord (parsed : value) : error + SummaryRecord :=
  throwing (ToNumber (rawScore parsed)) (fun n =>
  let score := clampScore n in
  throwing (ToString (nullish (get_opt parsed (lit "score_explanation"))
                        (VStr []))) (fun e =>
  let explanation := normalizeExplanation e in
  throwing (ToString (nullish (get_opt parsed (lit "summary")) (VStr [])))
    (fun text =>
  let norm := mkSummary score explanation text in
  if negb (is_string (VStr (score_explanation norm)))
     || negb (is_string (VStr (summary norm)))
  then inl MissingRequiredFields
  else if num_lt (privacy_score norm) (num_of_Z 0)
          || num_lt (num_of_Z 10) (privacy_score norm)
  then inl ScoreOutOfRange
  else inr norm))).

Definition normalizeReply (data : value) : error + SummaryRecord :=
  throwing (findRecord data) normalizeRecord.

End Reply.

(* ===================================================================== *)
(** ** The host's TextEncoder and SHA-256 *)
(* ===================================================================== *)

(** [new TextEncoder().encode(text)]: the UTF-8 bytes of a string, a
    surrogate without its pair becoming U+FFFD. *)
Definition utf8_of_code_point (c : N) : list N :=
  (if c <? 128 then [c]
   else if c <? 2048 then [192 + c / 64; 128 + c mod 64]
   else if c <? 65536 then [224 + c / 4096; 128 + (c / 64) mod 64; 128 + c mod 64]
   else [240 + (c / 262144) mod 8; 128 + (c / 4096) mod 64;
         128 + (c / 64) mod 64; 128 + c mod 64])%N.

Definition is_high_surrogate (c : N) : bool := ((55296 <=? c) && (c <=? 56319))%N.
Definition is_low_surrogate (c : N) : bool := ((56320 <=? c) && (c <=? 57343))%N.

Fixpoint utf8_encode (s : jsstring) : list N :=
  match s with
  | [] => []
  | c :: t =>
      if is_high_surrogate c then
        match t with
        | d :: u =>
            if is_low_surrogate d
            then utf8_of_code_point (65536 + (c - 55296) * 1024 + (d - 56320))%N
                   ++ utf8_encode u
            else utf8_of_code_point 65533 ++ utf8_encode t
        | [] => utf8_of_code_point 65533
        end
      else if is_low_surrogate c then utf8_of_code_point 65533 ++ utf8_encode t
      else utf8_of_code_point c ++ utf8_encode t
  end.

Module Sha256.

Definition w32 (x : Z) : Z := x mod 2 ^ 32.
Definition add32 (x y : Z) : Z := w32 (x + y).
Definition rotr (n x : Z) : Z :=
  Z.lor (Z.shiftr x n) (w32 (Z.shiftl x (32 - n))).
Definition not32 (x : Z) : Z := 2 ^ 32 - 1 - x.

Definition Ch (x y z : Z) : Z := Z.lxor (Z.land x y) (Z.land (not32 x) z).
Definition Maj (x y z : Z) : Z :=
  Z.lxor (Z.lxor (Z.land x y) (Z.land x z)) (Z.land y z).
Definition Sigma0 (x : Z) : Z :=
  Z.lxor (Z.lxor (rotr 2 x) (rotr 13 x)) (rotr 22 x).
Definition Sigma1 (x : Z) : Z :=
  Z.lxor (Z.lxor (rotr 6 x) (rotr 11 x)) (rotr 25 x).
Definition sigma0 (x : Z) : Z :=
  Z.lxor (Z.lxor (rotr 7 x) (rotr 18 x)) (Z.shiftr x 3).
Definition sigma1 (x : Z) : Z :=
  Z.lxor (Z.lxor (rotr 17 x) (rotr 19 x)) (Z.shiftr x 10).

(** The primes below [n] from 2 on, by trial division. *)
Definition is_prime (p : Z) : bool :=
  forallb (fun d => negb (p mod d =? 0)) (List.map Z.of_nat (seq 2 (Z.to_nat p - 2))).
Definition primes_below (n : nat) : list Z :=
  List.filter is_prime (List.map Z.of_nat (seq 2 (n - 2))).

(** The integer cube root of a number below [2^108], bit by bit. *)
Definition icbrt (n : Z) : Z :=
  fold_left (fun r b => if (r + 2 ^ b) ^ 3 <=? n then r + 2 ^ b else r)
    (List.map Z.of_nat (rev (seq 0 36))) 0.

(** The round constants: the first 32 bits of the fractional parts of the
    cube roots of the first 64 primes. *)
Definition K : list Z :=
  Eval vm_compute in
    List.map (fun p => w32 (icbrt (p * 2 ^ 96))) (primes_below 312).

(** The eight working words. *)
Record hstate : Type := HState {
  ha : Z; hb : Z; hc : Z; hd : Z; he : Z; hf : Z; hg : Z; hh : Z
}.

(** The initial hash value: the first 32 bits of the fractional parts of
    the square roots of the first 8 primes. *)
Definition H0 : hstate :=
  Eval vm_compute in
    let r := fun p => w32 (Z.sqrt (p * 2 ^ 64)) in
    HState (r 2) (r 3) (r 5) (r 7) (r 11) (r 13) (r 17) (r 19).

(** The padded message: a [0x80] byte, zeros up to 56 modulo 64, and the
    length in bits on eight bytes. *)
Definition pad (msg : list Z) : list Z :=
  let len := Z.of_nat (length msg) in
  let zeros := Z.to_nat ((55 - len) mod 64) in
  msg ++ [128] ++ repeat 0 zeros
      ++ List.map (fun i => (8 * len / 2 ^ (8 * i)) mod 256) [7; 6; 5; 4; 3; 2; 1; 0].

(** Big-endian words of a byte string whose length is a multiple of 4. *)
Fixpoint words_of (bytes : list Z) : list Z :=
  match bytes with
  | a :: b :: c :: d :: t =>
      (a * 2 ^ 24 + b * 2 ^ 16 + c * 2 ^ 8 + d) :: words_of t
  | _ => []
  end.

(** The message schedule, last word first: [n] more words after [w]. *)
Fixpoint schedule (n : nat) (w : list Z) : list Z :=
  match n with
  | O => w
  | S k =>
      let x :=
        add32 (add32 (sigma1 (nth 1 w 0)) (nth 6 w 0))
              (add32 (sigma0 (nth 14 w 0)) (nth 15 w 0)) in
      schedule k (x :: w)
  end.

Definition round (s : hstate) (kw : Z * Z) : hstate :=
  let t1 := add32 (add32 (add32 (hh s) (Sigma1 (he s)))
                         (add32 (Ch (he s) (hf s) (hg s)) (fst kw)))
                  (snd kw) in
  let t2 := add32 (Sigma0 (ha s)) (Maj (ha s) (hb s) (hc s)) in
  HState (add32 t1 t2) (ha s) (hb s) (hc s) (add32 (hd s) t1)
         (he s) (hf s) (hg s).

Definition compress (s : hstate) (block : list Z) : hstate :=
  let w := rev (schedule 48 (rev block)) in
  let r := fold_left round (combine K w) s in
  HState (add32 (ha s) (ha r)) (add32 (hb s) (hb r)) (add32 (hc s) (hc r))
         (add32 (hd s) (hd r)) (add32 (he s) (he r)) (add32 (hf s) (hf r))
         (add32 (hg s) (hg r)) (add32 (hh s) (hh r)).

(** The blocks of sixteen words. *)
Fixpoint blocks (fuel : nat) (w : list Z) : list (list Z) :=
  match fuel with
  | O => []
  | S f =>
      match w with
      | [] => []
      | _ => firstn 16 w :: blocks f (skipn 16 w)
      end
  end.

Definition word_bytes (x : Z) : list N :=
  List.map (fun i => Z.to_N ((x / 2 ^ (8 * i)) mod 256)) [3; 2; 1; 0].

Definition digest_bytes (s : hstate) : list N :=
  word_bytes (ha s) ++ word_bytes (hb s) ++ word_bytes (hc s)
  ++ word_bytes (hd s) ++ word_bytes (he s) ++ word_bytes (hf s)
  ++ word_bytes (hg s) ++ word_bytes (hh s).

(** [crypto.subtle.digest("SHA-256", bytes)] *)
Definition digest (bytes : list N) : list N :=
  let w := words_of (pad (List.map Z.of_N bytes)) in
  digest_bytes (fold_left compress (blocks (length w) w) H0).

End Sha256.

(* ===================================================================== *)
(** ** The background script *)
(* ===================================================================== *)

Definition hex_char (d : N) : N := (if d <? 10 then 48 + d else 87 + d)%N.

(** [n.toString(16)] for an integer [n >= 0] *)
Fixpoint toString16_aux (fuel : nat) (n : N) (acc : jsstring) : jsstring :=
  match fuel with
  | O => acc
  | S f =>
      if (n <? 16)%N then hex_char n :: acc
      else toString16_aux f (n / 16)%N (hex_char (n mod 16)%N :: acc)
  end.
Definition toString16 (n : N) : jsstring := toString16_aux (S (N.to_nat (N.log2 n))) n [].

(** [s.padStart(n, "0")] *)
Definition padStart0 (n : nat) (s : jsstring) : jsstring :=
  repeat 48%N (n - length s) ++ s.

(** [hashText] *)
Definition hashText (text : jsstring) : jsstring :=
  let enc := utf8_encode text in
  let buffer := Sha256.digest enc in
  join [] (List.map (fun b => padStart0 2 (toString16 b)) buffer).

(** [normalizeWhitespace] *)
Definition normalizeWhitespace (text : jsstring) : jsstring :=
  trim (replace_all re_line_break [LF] (replace_all re_blanks (lit " ") text)).

(** [extractBodyTextFromHTML]; [DOMParser] is the host's parser when there
    is one, as the function from a document to the text content of its
    body (the empty string when it has none). *)
Definition extractBodyTextFromHTML (DOMParser : option (jsstring -> jsstring))
    (html : jsstring) : jsstring :=
  match html with
  | [] => []
  | _ =>
      match DOMParser with
      | None => html
      | Some bodyTextContent => normalizeWhitespace (bodyTextContent html)
      end
  end.

(* ===================================================================== *)
(** ** storage.js: the stored summaries *)
(* ===================================================================== *)

(** What [saveSummary] stores under a URL. *)
Record entry : Type := Entry {
  e_summary : SummaryRecord;
  e_hash : jsstring;
  e_date : Z
}.

(** The names every object inherits from [Object.prototype]. *)
Definition Object_prototype_names : list jsstring :=
  [lit "constructor"; lit "__defineGetter__"; lit "__defineSetter__";
   lit "hasOwnProperty"; lit "__lookupGetter__"; lit "__lookupSetter__";
   lit "isPrototypeOf"; lit "propertyIsEnumerable"; lit "toString";
   lit "valueOf"; lit "__proto__"; lit "toLocaleString"].

Definition inherited (key : jsstring) : bool :=
  existsb (str_eqb key) Object_prototype_names.

(** The [summaries] item of [chrome.storage.local], if it is set: a plain
    object used as a map from URL to entry, modelled by the map of its own
    properties. This is what [summaries[url]] reads and writes for every
    key that is not [inherited]: for such a key a property that was not
    stored reads as [undefined], an assignment defines an own property
    and [delete] removes it. An address with a scheme is never one of
    those names; the statements about these functions take
    [inherited url = false] as a hypothesis. *)
Abbreviation summaries_map := (gmap (list N) entry).
Abbreviation storage := (option (gmap (list N) entry)).

(** [const { summaries = {} } = await chrome.storage.local.get("summaries")] *)
Definition read_summaries (st : storage) : summaries_map :=
  match st with
  | Some m => m
  | None => ∅
  end.

(** [saveSummary], at time [now] *)
Definition saveSummary (url : jsstring) (s : SummaryRecord) (hash : jsstring)
    (now : Z) (st : storage) : storage :=
  let summaries := read_summaries st in
  Some (<[url := Entry s hash now]> summaries).

(** [getSummary] *)
Definition getSummary (url : jsstring) (st : storage) : option entry :=
  let summaries := read_summaries st in
  summaries !! url.

(** [removeSummary]: the storage after it, and what it returns *)
Definition removeSummary (url : jsstring) (st : storage) : storage * bool :=
  let summaries := read_summaries st in
  match summaries !! url with
  | Some _ => (Some (delete url summaries), true)
  | None => (st, false)
  end.


(* ===================================================================== *)
(** ** The SUMMARIZE_POLICY message handler *)
(* ===================================================================== *)

(** What the handler does that can be seen from outside it: a
    SUMMARY_PROGRESS message, a write of the summaries to the storage, and
    the request [summarizePolicy] sends to the provider (its [fetch]). *)
Inductive event : Type :=
| Progress (step : jsstring)
| StorageSet (m : gmap (list N) entry)
| ProviderCall (text lang : jsstring).

(** What it answers with [sendResponse]. *)
Inductive response : Type :=
| RespSummary (s : SummaryRecord)
| RespNoApiKey
| RespFailed.

(** Why [summarizePolicy] failed before it had a reply to read: no API
    key is stored (nothing is sent then), the request was rejected, the
    status was not ok (the message of the error holds the status and the
    text of the body), the body was not JSON (the message is the one of
    the host's parser, which may quote the body), or the timeout fired.
    The request itself is always built: the handler gives the host name of
    the address, or [undefined], as the source domain. *)
Inductive transport_error : Type :=
| ApiKeyNotSet
| NetworkFailure
| HttpFailure (status_and_body : jsstring)
| InvalidBody (message : jsstring)
| TimedOut.

(** The world around the handler. *)
Record host : Type := Host {
  (** [fetch(url)] followed by [res.text()]; [None] when it rejects or the
      status is not ok *)
  fetch_policy : jsstring -> option jsstring;
  (** [(await getLanguage()) || pageLangs.get(tabId) || "en"] *)
  language : jsstring;
  (** the host's [DOMParser], if it has one *)
  dom_parser : option (jsstring -> jsstring);
  (** the text of the page rendered in a background tab; [None] when
      anything there throws *)
  rendered_text : jsstring -> option jsstring;
  (** what [summarizePolicy] gets for a text and a language: the parsed
      body of the provider's response, or why there is none *)
  provider : jsstring -> jsstring -> transport_error + value;
  (** [Date.now()] *)
  now : Z;
  number_to_string : number -> jsstring
}.

(** The state the handler works on: the storage and what it has done,
    latest event first. *)
Record world : Type := World {
  w_storage : storage;
  w_trace : list event
}.

(** Computations that may throw. *)
Inductive failure : Type :=
| FetchFailed
| Transport (e : transport_error)
| Thrown (e : error).

Definition M (A : Type) : Type := world -> (failure + A) * world.

Definition ret {A : Type} (a : A) : M A := fun w => (inr a, w).
Definition throw {A : Type} (e : failure) : M A := fun w => (inl e, w).
Definition bind {A B : Type} (m : M A) (k : A -> M B) : M B :=
  fun w =>
    match m w with
    | (inr a, w') => k a w'
    | (inl e, w') => (inl e, w')
    end.
Definition emit (e : event) : M unit :=
  fun w => (inr tt, World (w_storage w) (e :: w_trace w)).

Notation "x <- m ;; k" := (bind m (fun x => k))
  (at level 100, m at next level, right associativity).
Notation "m ;;; k" := (bind m (fun _ => k))
  (at level 100, right associativity).

(** The storage functions as the handler awaits them: each
    [chrome.storage.local.set] is recorded. *)
Definition getSummaryM (url : jsstring) : M (option entry) :=
  fun w => (inr (getSummary url (w_storage w)), w).

Definition set_summaries (st : storage) : M unit :=
  fun w =>
    match st with
    | Some m => (inr tt, World st (StorageSet m :: w_trace w))
    | None => (inr tt, w)
    end.

Definition removeSummaryM (url : jsstring) : M bool :=
  fun w =>
    let '(st, removed) := removeSummary url (w_storage w) in
    if removed then (set_summaries st ;;; ret true) w else (inr false, w).

Definition saveSummaryM (url : jsstring) (s : SummaryRecord) (hash : jsstring)
    (t : Z) : M unit :=
  fun w => set_summaries (saveSummary url s hash t (w_storage w)) w.

(** [extractBodyTextByLoadingPage] *)
Definition extractBodyTextByLoadingPage (h : host) (url : jsstring) : jsstring :=
  match rendered_text h url with
  | Some text => normalizeWhitespace text
  | None => []
  end.

(** [summarizePolicy(text, lang, ...)]: without a key it throws before
    anything is sent; otherwise the request, then the reading of the
    reply. *)
Definition summarizePolicy (h : host) (text lang : jsstring) : M SummaryRecord :=
  match provider h text lang with
  | inl ApiKeyNotSet => throw (Transport ApiKeyNotSet)
  | inl e => emit (ProviderCall text lang) ;;; throw (Transport e)
  | inr data =>
      emit (ProviderCall text lang) ;;;
      match normalizeReply (number_to_string h) data with
      | inl e => throw (Thrown e)
      | inr s => ret s
      end
  end.

(** The text the handler hashes and summarizes. *)
Definition policy_text (h : host) (url html : jsstring) : jsstring :=
  let bodyText := extractBodyTextFromHTML (dom_parser h) html in
  if str_eqb bodyText [] || (length bodyText <? 200)%nat
  then extractBodyTextByLoadingPage h url
  else bodyText.

(** The body of the handler's [try]. *)
Definition summarize_try (h : host) (url : jsstring) : M SummaryRecord :=
  emit (Progress (lit "fetching_policy")) ;;;
  match fetch_policy h url with
  | None => throw FetchFailed
  | Some html =>
      emit (Progress (lit "policy_fetched")) ;;;
      let lang := language h in
      let bodyText := policy_text h url html in
      let hash := hashText bodyText in
      existing <- getSummaryM url ;;
      match existing with
      | Some e =>
          if negb (str_eqb (e_hash e) hash) then
            removeSummaryM url ;;;
            emit (Progress (lit "sending_request")) ;;;
            s <- summarizePolicy h bodyText lang ;;
            saveSummaryM url s hash (now h) ;;;
            ret s
          else ret (e_summary e)
      | None =>
          emit (Progress (lit "sending_request")) ;;;
          s <- summarizePolicy h bodyText lang ;;
          saveSummaryM url s hash (now h) ;;;
          ret s
      end
  end.

(** [s.includes(p)] *)
Fixpoint includes (s p : jsstring) : bool :=
  prefix_b p s || match s with [] => false | _ :: t => includes t p end.

(** The message of what was thrown, as far as the [catch] looks at it:
    whether it mentions the missing key. The messages that depend on what
    the provider sent are those of a status that is not ok and of a body
    that is not JSON; the others are fixed texts of the code or of the
    host, none of which holds those words. *)
Definition mentions_api_key (e : failure) : bool :=
  match e with
  | Transport ApiKeyNotSet => true
  | Transport (HttpFailure body) => includes body (lit "API key not set")
  | Transport (InvalidBody message) => includes message (lit "API key not set")
  | _ => false
  end.

(** The handler: the [try] and its [catch]. *)
Definition handle_summarize (h : host) (url : jsstring) (w : world)
  : response * world :=
  match summarize_try h url w with
  | (inr s, w') => (RespSummary s, w')
  | (inl e, w') => (if mentions_api_key e then RespNoApiKey else RespFailed, w')
  end.

(* ===================================================================== *)
(** ** storage.js: the ignored domains *)
(* ===================================================================== *)

(** The [ignoredDomains] item of [chrome.storage.local], if it is set: an
    array of host names. *)
Abbreviation ignored_item := (option (list (list N))).

(** [const { ignoredDomains = [] } = await chrome.storage.local.get("ignoredDomains")] *)
Definition read_ignored (item : ignored_item) : list jsstring :=
  match item with
  | Some l => l
  | None => []
  end.

(** [arr.includes(x)] on an array of strings *)
Definition array_includes (arr : list jsstring) (x : jsstring) : bool :=
  existsb (str_eqb x) arr.

(** [addIgnoredDomain]: the item after it; nothing is written when the
    domain is there already *)
Definition addIgnoredDomain (domain : jsstring) (item : ignored_item)
  : ignored_item :=
  let ignoredDomains := read_ignored item in
  if negb (array_includes ignoredDomains domain)
  then Some (ignoredDomains ++ [domain])
  else item.

(** [isDomainIgnored] *)
Definition isDomainIgnored (domain : jsstring) (item : ignored_item) : bool :=
  let ignoredDomains := read_ignored item in
  array_includes ignoredDomains domain.

(* ===================================================================== *)
(** ** popup.js: the colour of a score *)
(* ===================================================================== *)

(** [a <= b] on numbers: false as soon as one side is NaN. *)
Definition num_le (a b : number) : bool :=
  match a, b with
  | NaN, _ | _, NaN => false
  | NInf, _ => true
  | _, PInf => true
  | PInf, _ => false
  | _, NInf => false
  | Fin p, Fin q => Qle_bool p q
  end.

(** [getScoreColor], inside [displaySummary] *)
Definition getScoreColor (score : number) : jsstring :=
  if num_le score (num_of_Z 2) then lit "text-green-600 bg-green-100"
  else if num_le score (num_of_Z 4) then lit "text-blue-600 bg-blue-100"
  else if num_le score (num_of_Z 6) then lit "text-yellow-600 bg-yellow-100"
  else if num_le score (num_of_Z 8) then lit "text-orange-600 bg-orange-100"
  else lit "text-red-600 bg-red-100".

(* ===================================================================== *)
(** ** The ToS;DR lookup *)
(* ===================================================================== *)

(** [encodeURIComponent]: the unreserved units stay, the others give the
    bytes of their UTF-8 form as [%XX]; [None] is the URIError a surrogate
    without its pair raises. *)
Definition uri_unreserved (c : N) : bool :=
  is_alpha c || is_digit c || existsb (N.eqb c) (lit "-_.!~*'()").

Definition hex_upper (d : N) : N := (if d <? 10 then 48 + d else 55 + d)%N.

Definition percent (b : N) : jsstring :=
  [37%N; hex_upper (b / 16)%N; hex_upper (b mod 16)%N].

Fixpoint encodeURIComponent (s : jsstring) : option jsstring :=
  match s with
  | [] => Some []
  | c :: t =>
      if is_high_surrogate c then
        match t with
        | d :: u =>
            if is_low_surrogate d
            then option_map
                   (app (flat_map percent
                           (utf8_of_code_point
                              (65536 + (c - 55296) * 1024 + (d - 56320))%N)))
                   (encodeURIComponent u)
            else None
        | [] => None
        end
      else if is_low_surrogate c then None
      else option_map
             (app (if uri_unreserved c then [c]
                   else flat_map percent (utf8_of_code_point c)))
             (encodeURIComponent t)
  end.

(** [/^www\./] *)
Definition re_www : regex := rseq [RBol; word "www."].

(** What [fetch] and then [res.json()] come to: the request fails, the
    status is not a success, or it is one, with the body as JSON if it
    parses. *)
Inductive fetch_result : Type :=
| FetchRejected
| FetchNotOk
| FetchOk (body : option value).

(** [v !== s], for a string literal [s], negated *)
Definition is_str (v : value) (s : jsstring) : bool :=
  match v with VStr x => str_eqb x s | _ => false end.

(** The callback of [find]: [s.rating && s.rating !== "N/A" &&
    s.rating !== ""]; [None] is the TypeError of reading a property of
    [null]. *)
Definition has_rating (s : value) : option bool :=
  match s with
  | VUndefined | VNull => None
  | _ =>
      let rating := get s (lit "rating") in
      Some (truthy rating && negb (is_str rating (lit "N/A"))
            && negb (is_str rating []))
  end.

(** [arr.find(has_rating)]: [undefined] when no element passes *)
Fixpoint find_service (l : list value) : option value :=
  match l with
  | [] => Some VUndefined
  | s :: t =>
      match has_rating s with
      | None => None
      | Some true => Some s
      | Some false => find_service t
      end
  end.

(** [data?.services?.find(...)]; [None] is a TypeError: [services] is
    there and has no [find], or the callback raised. *)
Definition rated_service (data : value) : option value :=
  match data with
  | VUndefined | VNull => Some VUndefined
  | _ =>
      match get data (lit "services") with
      | VUndefined | VNull => Some VUndefined
      | VArr l => find_service l
      | _ => None
      end
  end.

Definition CACHE_TTL_MS : Z := 24 * 60 * 60 * 1000.

(** The module's [cache]: clean domain to time stamp and result. *)
Abbreviation tosdr_cache := (gmap (list N) (Z * value)).

Section Tosdr.

Variable fetch : jsstring -> fetch_result.
Variable NumberToString : number -> jsstring.

(** The [try] block of [lookupTosdr]: the result it stores and returns;
    [None] stands for an exception, which the [catch] turns into [null]. *)
Definition tosdr_attempt (cleanDomain : jsstring) : option value :=
  match encodeURIComponent cleanDomain with
  | None => None
  | Some query =>
      let url := lit "https://api.tosdr.org/search/v5/?query=" ++ query in
      match fetch url with
      | FetchRejected => None
      | FetchNotOk => Some VNull
      | FetchOk None => None
      | FetchOk (Some data) =>
          match rated_service data with
          | None => None
          | Some service =>
              if truthy service then
                match ToString NumberToString (get service (lit "name")),
                      ToString NumberToString (get service (lit "rating")) with
                | Some name, Some rating =>
                    Some (VObj
                      [(lit "summary",
                        VStr (lit "ToS;DR rating for " ++ name ++ lit ": "
                              ++ rating));
                       (lit "source", VStr (lit "tosdr"));
                       (lit "serviceId", get service (lit "id"));
                       (lit "rating", get service (lit "rating"));
                       (lit "name", get service (lit "name"))])
                | _, _ => None
                end
              else Some VNull
          end
      end
  end.

(** [lookupTosdr] at time [now] ([Date.now()]): the value returned and the
    cache afterwards. *)
Definition lookupTosdr (now : Z) (domain : jsstring) (cache : tosdr_cache)
  : value * tosdr_cache :=
  match domain with
  | [] => (VNull, cache)
  | _ =>
      let cleanDomain := replace re_www [] domain in
      let fresh :=
        match cache !! cleanDomain with
        | Some (ts, result) =>
            if (now - ts <? CACHE_TTL_MS)%Z then Some result else None
        | None => None
        end in
      match fresh with
      | Some result => (result, cache)
      | None =>
          let result :=
            match tosdr_attempt cleanDomain with
            | Some r => r
            | None => VNull
            end in
          (result, <[cleanDomain := (now, result)]> cache)
      end
  end.

End Tosdr.

(* ===================================================================== *)
(** ** ai.js: the request *)
(* ===================================================================== *)

(** The content of the system message, line by line. *)
Definition system_prompt (lang : jsstring) : jsstring :=
  join [LF]
    [
lit "You are a privacy and data protection expert. Analyze the following privacy policy and provide:";
     [];
     lit "1. A privacy abuse score from 0 to 10 where:";
     lit "   - 0-2: Excellent privacy practices, minimal data collection, strong user rights";
     lit "   - 3-4: Good privacy practices with some concerns";
     lit "   - 5-6: Moderate privacy concerns, some problematic practices";
     lit "   - 7-8: Significant privacy issues, excessive data collection";
     lit "   - 9-10: Highly abusive practices, extensive data collection, weak user rights";
     [];
     lit "2. A clear and concise summary in " ++ lang ++ lit " highlighting:";
     lit "   - What personal data is collected and how";
     lit "   - How that data is used";
     lit "   - If it is shared with third parties and with whom";
     lit "   - Any relevant risks or warnings for the user";
     lit "   - What rights the user has over their data and how to exercise them";
     lit "   - Any other important or unusual aspects";
     [];
     lit "IMPORTANT: Respond ONLY with a valid JSON object in this exact format:";
     lit "{";
     jsq "  'privacy_score': <number from 0 to 10>,";
     jsq "  'score_explanation': '<brief explanation of the score>',";
     jsq "  'summary': '<markdown formatted summary>'";
     lit "}";
     [];
     lit "The privacy_score must be a number between 0 and 10. The score_explanation must be an extremely brief, title-style phrase in " ++ lang ++ lit " (max 8 words, no trailing period). The summary should use Markdown formatting with headings, lists, and bold text to emphasize the most relevant information."].

(** The two messages of the request; [None] is the TypeError of a source
    domain that cannot be turned into a string. *)
Definition messages (NumberToString : number -> jsstring)
    (lang text : jsstring) (sourceDomain : value) : option value :=
  option_map
    (fun domain =>
       VArr
         [VObj [(lit "role", VStr (lit "system"));
                (lit "content", VStr (system_prompt lang))];
          VObj [(lit "role", VStr (lit "user"));
                (lit "content",
                 VStr (lit "Source domain: " ++ domain ++ [LF; LF]
                       ++ lit "Policy text:" ++ [LF; LF] ++ text))]])
    (ToString NumberToString (or_else sourceDomain (VStr (lit "unknown")))).

(** The own properties of [src], in order, defined on the object
    [target]: what [...src] does inside an object literal. *)
Definition spread (target src : list (jsstring * value))
  : list (jsstring * value) :=
  fold_left (fun o kv => obj_set (fst kv) (snd kv) o) src target.

(** A request: the address, the headers, and the object whose JSON text is
    the body. *)
Record request : Type := Request {
  req_url : jsstring;
  req_headers : list (jsstring * jsstring);
  req_body : value
}.

(** [buildProviderRequest] *)
Definition buildProviderRequest (NumberToString : number -> jsstring)
    (provider : value) (apiKey : jsstring) (model temperature maxTokens : value)
    (rest : list (jsstring * value)) (lang text : jsstring)
    (sourceDomain : value) : option request :=
  match messages NumberToString lang text sourceDomain with
  | None => None
  | Some msgs =>
      if is_str provider (lit "openai") then
        Some (Request (lit "https://api.openai.com/v1/chat/completions")
                [(lit "Content-Type", lit "application/json");
                 (lit "Accept", lit "application/json");
                 (lit "Authorization", lit "Bearer " ++ apiKey)]
                (VObj (obj_set (lit "messages") msgs
                         (spread
                            [(lit "model", model);
                             (lit "temperature", temperature);
                             (lit "max_tokens", maxTokens);
                             (lit "response_format",
                              VObj [(lit "type", VStr (lit "json_object"))])]
                            rest))))
      else
        Some (Request (lit "https://api.x.ai/v1/chat/completions")
                [(lit "Content-Type", lit "application/json");
                 (lit "Accept", lit "application/json");
                 (lit "Authorization", lit "Bearer " ++ apiKey)]
                (VObj (obj_set (lit "messages") msgs
                         (spread
                            [(lit "model", model);
                             (lit "temperature", temperature);
                             (lit "max_tokens", maxTokens);
                             (lit "response_format",
                              VObj [(lit "type", VStr (lit "json_object"))])]
                            rest))))
  end.

(** A destructured property with a default: the default stands for a
    missing property and for [undefined]. *)
Definition with_default (o : list (jsstring * value)) (k : jsstring)
    (d : value) : value :=
  match assoc k o with
  | Some VUndefined | None => d
  | Some v => v
  end.

(** The options [summarizePolicy] takes out by name; [rest] is the others. *)
Definition named_options : list jsstring :=
  [lit "provider"; lit "model"; lit "temperature"; lit "maxTokens";
   lit "timeout"].

Definition rest_of (o : list (jsstring * value)) : list (jsstring * value) :=
  List.filter (fun kv => negb (array_includes named_options (fst kv))) o.

(** What the first part of [summarizePolicy] comes to: no key and nothing
    sent, an exception while the request is built, or a request sent with
    a timeout. *)
Inductive request_outcome : Type :=
| NoApiKey
| BuildFailed
| Sends (timeout : value) (r : request).

(** [summarizePolicy], up to the [fetch]: [apiKey] is what [getApiKey]
    gave, [stored] the properties of what [getAIOptions] gave, [options]
    those of the third argument. *)
Definition provider_request (NumberToString : number -> jsstring)
    (apiKey : jsstring) (stored options : list (jsstring * value))
    (text lang : jsstring) : request_outcome :=
  if str_eqb apiKey [] then NoApiKey
  else
    let merged := spread (spread [] stored) options in
    let provider := with_default merged (lit "provider") (VStr (lit "xai")) in
    let model := with_default merged (lit "model") (VStr (lit "grok-3-mini")) in
    let temperature :=
      with_default merged (lit "temperature") (VNum (to_binary64 (2 # 10))) in
    let maxTokens :=
      with_default merged (lit "maxTokens") (VNum (num_of_Z 1024)) in
    let timeout :=
      with_default merged (lit "timeout") (VNum (num_of_Z 30000)) in
    let rest := rest_of merged in
    match buildProviderRequest NumberToString provider apiKey model
            temperature maxTokens rest lang text
            (get (VObj options) (lit "sourceDomain")) with
    | None => BuildFailed
    | Some r => Sends timeout r
    end.

(* ===================================================================== *)
(** ** options.js: saving the settings *)
(* ===================================================================== *)

(** [parseFloat(s)]: the longest decimal literal after the leading white
    space and sign. *)
Definition parseFloat (s : jsstring) : number :=
  let t := trimStart s in
  let '(neg, u) :=
    match t with
    | 45%N :: r => (true, r)
    | 43%N :: r => (false, r)
    | _ => (false, t)
    end in
  let n :=
    if startsWith u (lit "Infinity") then PInf
    else
      let '(ip, r) := span is_digit u in
      let '(fp, r') :=
        match r with
        | c :: t' => if (c =? 46)%N then span is_digit t' else ([], r)
        | [] => ([], r)
        end in
      match ip, fp with
      | [], [] => NaN
      | _, _ =>
          let ex :=
            match read_exponent r' with
            | Some (e, _) => e
            | None => 0
            end in
          to_binary64 (decimal_value ip fp ex)
      end in
  if neg then negate n else n.

(** The values of the fields of the options form. *)
Record form : Type := Form {
  f_apiKey : jsstring;
  f_language : jsstring;
  f_provider : jsstring;
  f_model : jsstring;
  f_temperature : jsstring;
  f_maxTokens : jsstring
}.

(** [showNotification(t(key), kind, formEl)] *)
Inductive notice : Type := Notice (key kind : jsstring).

(** What a click on the save button stores: the key ([saveApiKey]), the
    language ([saveLanguage]) and the properties of the model options
    ([saveAIOptions]). *)
Record saved : Type := Saved {
  saved_key : jsstring;
  saved_language : jsstring;
  saved_options : list (jsstring * value)
}.

(** [a || b] on strings and on numbers *)
Definition str_or (a b : jsstring) : jsstring :=
  if truthy (VStr a) then a else b.
Definition num_or (a b : number) : number :=
  if truthy (VNum a) then a else b.

(** The listener of the save button: the notifications shown, in order,
    and what is stored, if anything; the three writes are taken to
    succeed. *)
Definition save_click (f : form) : list notice * option saved :=
  let key := trim (f_apiKey f) in
  let language := f_language f in
  let provider := str_or (f_provider f) (lit "xai") in
  let model :=
    str_or (f_model f)
      (if str_eqb provider (lit "xai") then lit "grok-3-mini"
       else lit "gpt-4o-mini") in
  let temperature :=
    num_or (parseFloat (f_temperature f)) (to_binary64 (7 # 10)) in
  let maxTokens := num_or (parseInt10 (f_maxTokens f)) (num_of_Z 1024) in
  let warned :=
    if negb (truthy (VStr key))
    then [Notice (lit "alerts.apiKeyRequired") (lit "warning")]
    else [] in
  if num_lt temperature (num_of_Z 0) || num_lt (num_of_Z 2) temperature then
    (warned ++ [Notice (lit "alerts.temperatureRange") (lit "error")], None)
  else if num_lt maxTokens (num_of_Z 100) || num_lt (num_of_Z 4000) maxTokens
  then
    (warned ++ [Notice (lit "alerts.maxTokensRange") (lit "error")], None)
  else
    (warned ++ [Notice (lit "alerts.settingsSaved") (lit "success")],
     Some (Saved key language
             [(lit "provider", VStr provider);
              (lit "model", VStr model);
              (lit "temperature", VNum temperature);
              (lit "maxTokens", VNum maxTokens)])).

(* ===================================================================== *)
(** ** The background script: what it remembers about the tabs *)
(* ===================================================================== *)

(** A call of [chrome.action]. *)
Inductive action_call : Type :=
| SetIcon (state : jsstring) (tabId : Z)
| SetBadgeText (tabId : Z) (text : jsstring)
| SetBadgeBackgroundColor (tabId : Z) (color : jsstring).

(** [setIconState]: the icon of the state, from image data or, failing
    that, from its path; then the badge. *)
Definition setIconState (state : jsstring) (tabId : Z) : list action_call :=
  let text := if str_eqb state (lit "alert") then lit "!" else [] in
  [SetIcon state tabId; SetBadgeText tabId text]
  ++ (if str_eqb state (lit "alert")
      then [SetBadgeBackgroundColor tabId (lit "#4688F1")]
      else []).

Definition KEYWORDS : list jsstring :=
  [lit "privacy"; lit "terms"; lit "legal"].

(** The two maps of the module, keyed by tab. *)
Record tabs : Type := Tabs {
  policyLinks : gmap Z jsstring;
  pageLangs : gmap Z jsstring
}.

(** What the listeners of the module are called with. A tab of the sender
    is [None] when [sender.tab] or its [id] is missing. *)
Inductive tab_event : Type :=
| TabUpdated (tabId : Z) (status : option jsstring) (url : option jsstring)
| TabRemoved (tabId : Z)
| TabReplaced (addedTabId removedTabId : Z)
| PageLanguage (sender : option Z) (lang : jsstring)
| PrivacyLinksFound (sender : option Z) (links : list jsstring)
| GetPolicyLink (tabId : Z).

(** [sender.tab?.id] as a condition *)
Definition sender_tab (sender : option Z) : option Z :=
  match sender with
  | Some id => if (id =? 0)%Z then None else Some id
  | None => None
  end.

Section Background.

(** [new URL(url).hostname]; [None] when the constructor throws. *)
Variable hostname : jsstring -> option jsstring.
(** [String.prototype.toLowerCase] *)
Variable toLowerCase : jsstring -> jsstring.

(** A policy found for a tab: unless its domain is ignored, the link is
    kept and the icon alerts. *)
Definition note_policy (ignored : ignored_item) (tabId : option Z)
    (url : jsstring) (st : tabs) : tabs * list action_call :=
  match hostname url with
  | None => (st, [])
  | Some domain =>
      if isDomainIgnored domain ignored then (st, [])
      else
        match tabId with
        | Some id =>
            (Tabs (<[id := url]> (policyLinks st)) (pageLangs st),
             setIconState (lit "alert") id)
        | None => (st, [])
        end
  end.

(** One call of a listener: the maps afterwards, the calls of
    [chrome.action], and the [url] of the response, if one is sent. *)
Definition tab_step (ignored : ignored_item) (e : tab_event) (st : tabs)
  : tabs * list action_call * option jsstring :=
  match e with
  | TabUpdated tabId status url =>
      match status, url with
      | Some s, Some ((_ :: _) as u) =>
          if str_eqb s (lit "complete") then
            let lower := toLowerCase u in
            if existsb (fun k => includes lower k) KEYWORDS
            then (note_policy ignored (Some tabId) u st, None)
            else (st, [], None)
          else (st, [], None)
      | _, _ => (st, [], None)
      end
  | TabRemoved tabId =>
      (Tabs (delete tabId (policyLinks st)) (delete tabId (pageLangs st)),
       [], None)
  | TabReplaced addedTabId removedTabId =>
      (Tabs (delete addedTabId (delete removedTabId (policyLinks st)))
            (delete addedTabId (delete removedTabId (pageLangs st))),
       [], None)
  | PageLanguage sender lang =>
      match sender_tab sender with
      | Some id => (Tabs (policyLinks st) (<[id := lang]> (pageLangs st)), [], None)
      | None => (st, [], None)
      end
  | PrivacyLinksFound sender links =>
      match links with
      | url :: _ => (note_policy ignored (sender_tab sender) url st, None)
      | [] => (st, [], None)
      end
  | GetPolicyLink tabId =>
      (st, [],
       Some (match policyLinks st !! tabId with
             | Some url => str_or url []
             | None => []
             end))
  end.

(** The listeners called one after the other, each with the ignored
    domains of its time: the maps at the end. *)
Definition tab_run (es : list (ignored_item * tab_event)) (st : tabs) : tabs :=
  fold_left (fun s e => fst (fst (tab_step (fst e) (snd e) s))) es st.

End Background.

(* ===================================================================== *)
(** ** detector.js and the content script *)
(* ===================================================================== *)

(** An [a] element with an [href] attribute: the attribute as written,
    the text content, and the [href] property (the address resolved). *)
Record anchor : Type := Anchor {
  href_attr : jsstring;
  textContent : jsstring;
  href : jsstring
}.

(** What the detector reads of a document: those elements, in document
    order, and [doc.body?.textContent]. *)
Record document : Type := Document {
  anchors : list anchor;
  body_text : option jsstring
}.

(** The words of the selectors [a[href*="..."]], in order. *)
Definition link_selectors : list jsstring :=
  [lit "privacy"; lit "policy"; lit "legal"; lit "terms";
   lit "confidentialite"; lit "vie-privee"; lit "politique";
   lit "datenschutz"].

(** The pattern the text of an anchor is tested with (no flag); the
    accented letters are U+00ED and U+00E9. *)
Definition re_link_text : regex :=
  ralt [word "privacy";
        rseq [word "pol"; chr 237; word "tica"];
        word "legal";
        word "terms";
        rseq [word "t"; chr 233; word "rminos"];
        rseq [word "confidentialit"; chr 233];
        word "confidentialite";
        rseq [word "vie priv"; chr 233; word "e"];
        word "vie privee";
        word "politique";
        word "datenschutz"].

(** [/(https?:\/\/[^\s]+)/g] *)
Definition re_url : regex :=
  RGroup 1
    (rseq [word "http"; ropt (chr 115); word "://";
           rplus (RClass (fun c => negb (is_space c)))]).

(** [/privacy|terms|legal|confidentialite|politique|datenschutz/i] *)
Definition re_url_keyword : regex :=
  ralt [word_i "privacy"; word_i "terms"; word_i "legal";
        word_i "confidentialite"; word_i "politique"; word_i "datenschutz"].

(** [results.add(x)] on a [Set] of strings, kept in insertion order *)
Definition set_add (results : list jsstring) (x : jsstring) : list jsstring :=
  if array_includes results x then results else results ++ [x].

(** The matches a loop of [re.exec(s)] goes through with the [g] flag:
    each search starts where the match before it ended. *)
Fixpoint exec_all (r : regex) (fuel : nat) (pre rest : jsstring)
  : list rmatch_result :=
  match fuel with
  | O => []
  | S f =>
      match search_from r pre rest [] with
      | None => []
      | Some m =>
          m :: exec_all r f (m_pre (mr_end m)) (m_rest (mr_end m))
      end
  end.

Section Detector.

Variable toLowerCase : jsstring -> jsstring.

(** The anchors a selector gives whose text passes the test. *)
Definition scan_anchors (results : list jsstring) (sel : jsstring)
    (doc : document) : list jsstring :=
  fold_left
    (fun results a =>
       let text := toLowerCase (textContent a) in
       if test re_link_text text then set_add results (href a) else results)
    (List.filter (fun a => includes (href_attr a) sel) (anchors doc))
    results.

(** The addresses in the text of the page that hold a keyword. *)
Definition scan_text (doc : document) : list jsstring :=
  let bodyText :=
    match body_text doc with
    | Some t => t
    | None => []
    end in
  fold_left
    (fun results m =>
       let url := group1 m in
       if test re_url_keyword url then set_add results url else results)
    (exec_all re_url (S (length bodyText)) [] bodyText)
    [].

(** [findPrivacyLinks] *)
Definition findPrivacyLinks (doc : document) : list jsstring :=
  let results :=
    fold_left (fun results sel => scan_anchors results sel doc)
      link_selectors [] in
  match results with
  | [] => scan_text doc
  | _ => results
  end.

(** [checkLinks] of the content script, in the tab [sender] and with the
    detector loaded: the message it sends to the background script, if
    any. *)
Definition checkLinks (sender : option Z) (doc : document) : option tab_event :=
  match findPrivacyLinks doc with
  | [] => None
  | links => Some (PrivacyLinksFound sender links)
  end.

End Detector.

(* ===================================================================== *)
(** ** Notions the statements are written with *)
(* ===================================================================== *)

(** None of what follows is code of the extension: these are the replies
    the properties are checked on, what is observed of a run of the
    handler, and the plain descriptions of texts (words, lines, runs of
    white space) that the results of the pattern-based code are compared
    with. *)

(** A reply in the shape of a chat completion: [content] as the content
    of the message of the first choice. *)
Definition chat_reply (content : value) : value :=
  VObj [(lit "choices",
         VArr [VObj [(lit "message", VObj [(lit "content", content)])]])].

(** The fenced reply of the specification. *)
Definition fenced_reply : jsstring :=
  lit "```json" ++ [LF]
  ++ jsq "{'privacy_score':3,'score_explanation':'Minimal tracking','summary':'# OK'}"
  ++ [LF] ++ lit "```".

(** The free-text reply of the specification. *)
Definition unstructured_reply : jsstring :=
  lit "Privacy score: 9/10" ++ [LF]
  ++ lit "Excessive tracking because of broad third-party sharing." ++ [LF; LF]
  ++ lit "Summary:" ++ [LF]
  ++ lit "They collect everything.".

Definition is_provider_call (ev : event) : bool :=
  match ev with ProviderCall _ _ => true | _ => false end.

(** How many times the provider was called in a trace. *)
Definition provider_calls (tr : list event) : nat :=
  length (List.filter is_provider_call tr).

(** A host without a DOM parser, whose provider answers with the fenced
    reply, and a storage with one entry. *)
Definition demo_host : host :=
  Host (fun _ => Some (lit "<html><body>Privacy policy</body></html>"))
       (lit "en") None
       (fun _ => Some (lit " We  collect nothing. "))
       (fun _ _ => inr (chat_reply (VStr fenced_reply)))
       1700000000000
       (fun _ => []).

Definition demo_url : jsstring := lit "https://a.example/privacy".

Definition demo_entry : entry :=
  Entry (mkSummary (num_of_Z 7) (lit "Broad sharing") (lit "# Old")) (lit "00") 1.

Definition demo_storage : storage := Some (<[demo_url := demo_entry]> ∅).

(** A byte in two lowercase hexadecimal digits, and the digits a
    fingerprint is made of. *)
Definition hex_byte (b : N) : jsstring := [hex_char (b / 16); hex_char (b mod 16)]%N.
Definition is_hex_lower (c : N) : bool := is_digit c || ((97 <=? c) && (c <=? 102))%N.

(** The longest prefix of units satisfying [p]. *)
Fixpoint take_while (p : N -> bool) (s : jsstring) : jsstring :=
  match s with
  | c :: t => if p c then c :: take_while p t else []
  | [] => []
  end.

(** The positions at which a greedy repetition of a class can stop,
    longest run first. *)
Fixpoint run_states (p : N -> bool) (pre rest : jsstring)
    (caps : list (nat * jsstring)) : list mstate :=
  match rest with
  | c :: t =>
      if p c then run_states p (c :: pre) t caps ++ [MState pre rest caps]
      else [MState pre rest caps]
  | [] => [MState pre rest caps]
  end.

(** A text without the longest suffix made of units satisfying [p]. *)
Fixpoint strip_end (p : N -> bool) (s : jsstring) : jsstring :=
  match s with
  | [] => []
  | c :: t => if forallb p s then [] else c :: strip_end p t
  end.

(** The words of a text: its maximal runs of units that are not white
    space. [cur_rev] is the word being read, last unit first. *)
Fixpoint words_from (cur_rev s : jsstring) : list jsstring :=
  match s with
  | [] => match cur_rev with [] => [] | _ => [rev cur_rev] end
  | c :: t =>
      if is_space c
      then match cur_rev with
           | [] => words_from [] t
           | _ => rev cur_rev :: words_from [] t
           end
      else words_from (c :: cur_rev) t
  end.
Definition words (s : jsstring) : list jsstring := words_from [] s.

(** A text without its last unit when that is a period. *)
Fixpoint drop_final_dot (s : jsstring) : jsstring :=
  match s with
  | [] => []
  | [c] => if (c =? 46)%N then [] else [c]
  | c :: t => c :: drop_final_dot t
  end.

(** The explanation as the specification words it: trimmed, trailing
    periods and white space stripped, cut to its first eight words. *)
Definition spec_explanation (s : jsstring) : jsstring :=
  let t := strip_end dot_or_space (trim s) in
  if (8 <? length (words t))%nat then join (lit " ") (firstn 8 (words t)) else t.

(** Every run of units satisfying [p] replaced by [rep]; [in_run] tells
    that the unit before was in such a run. *)
Fixpoint collapse_from (p : N -> bool) (rep : jsstring) (in_run : bool)
    (s : jsstring) : jsstring :=
  match s with
  | [] => []
  | c :: t =>
      if p c
      then if in_run then collapse_from p rep true t
           else rep ++ collapse_from p rep true t
      else c :: collapse_from p rep false t
  end.

(** The invariant of a distilled text, read from left to right with the
    unit before: no tab, form feed or carriage return; no two spaces in a
    row; no white space on either side of a line feed. *)
Definition unit_ok (c : N) : bool := negb (is_blank c) || (c =? 32)%N.
Definition pair_ok (prev : option N) (c : N) : bool :=
  match prev with
  | None => true
  | Some x =>
      negb ((x =? 32)%N && (c =? 32)%N)
      && negb (is_space x && (c =? LF)%N)
      && negb ((x =? LF)%N && is_space c)
  end.
Fixpoint distilled_from (prev : option N) (s : jsstring) : bool :=
  match s with
  | [] => true
  | c :: t => pair_ok prev c && unit_ok c && distilled_from (Some c) t
  end.

(** No white space at either end. *)
Definition no_outer_space (s : jsstring) : bool :=
  match s with c :: _ => negb (is_space c) | [] => true end
  && match rev s with c :: _ => negb (is_space c) | [] => true end.

(** The invariant of DistilledText. *)
Definition distilled (s : jsstring) : bool :=
  no_outer_space s && distilled_from None s.

(** The lines of a text that hold a word, each as the list of its words.
    [line_rev] holds the words of the line being read, last first, and
    [cur_rev] the word being read. *)
Definition push_word (cur_rev : jsstring) (line_rev : list jsstring)
  : list jsstring :=
  match cur_rev with [] => line_rev | _ => rev cur_rev :: line_rev end.
Definition emit_line (line_rev : list jsstring) (k : list (list jsstring))
  : list (list jsstring) :=
  match line_rev with [] => k | _ => rev line_rev :: k end.
Fixpoint line_words_from (line_rev : list jsstring) (cur_rev s : jsstring)
  : list (list jsstring) :=
  match s with
  | [] => emit_line (push_word cur_rev line_rev) []
  | c :: t =>
      if (c =? LF)%N
      then emit_line (push_word cur_rev line_rev) (line_words_from [] [] t)
      else if is_space c
      then line_words_from (push_word cur_rev line_rev) [] t
      else line_words_from line_rev (c :: cur_rev) t
  end.
Definition line_words (s : jsstring) : list (list jsstring) :=
  line_words_from [] [] s.

(** What the first replacement of [normalizeWhitespace] leaves: no tab,
    form feed or carriage return, and no two spaces in a row;
    [prev_space] tells that the unit before was a space. *)
Fixpoint collapsed_from (prev_space : bool) (s : jsstring) : bool :=
  match s with
  | [] => true
  | c :: t =>
      unit_ok c && negb (prev_space && (c =? 32)%N)
      && collapsed_from (c =? 32)%N t
  end.

(** Whether a text holds a line feed. *)
Definition has_lf (s : jsstring) : bool := existsb (N.eqb LF) s.

(** The last unit of a text, if any, is not white space. *)
Definition ends_clean (a : jsstring) : Prop :=
  match rev a with x :: _ => is_space x = false | [] => True end.

(** The last unit of [a], or [prev] when [a] is empty. *)
Fixpoint last_or (prev : option N) (a : jsstring) : option N :=
  match a with
  | [] => prev
  | c :: t => last_or (Some c) t
  end.

(** A word: not empty, and without white space. *)
Definition is_word_text (w : jsstring) : Prop :=
  w <> [] /\ forallb (fun c => negb (is_space c)) w = true.

(** A host like [demo_host] whose provider never answers in time, and the
    world [demo_host] leaves after a first request for [demo_url]. *)
Definition failing_host : host :=
  Host (fetch_policy demo_host) (language demo_host) (dom_parser demo_host)
       (rendered_text demo_host) (fun _ _ => inl TimedOut) (now demo_host)
       (number_to_string demo_host).

Definition demo_world_after : world :=
  snd (handle_summarize demo_host demo_url (World demo_storage [])).

(** A host like [demo_host] with no API key stored. *)
Definition keyless_host : host :=
  Host (fetch_policy demo_host) (language demo_host) (dom_parser demo_host)
       (rendered_text demo_host) (fun _ _ => inl ApiKeyNotSet) (now demo_host)
       (number_to_string demo_host).

(** Whether what [summarizePolicy] got is the missing key. *)
Definition no_key (r : transport_error + value) : bool :=
  match r with
  | inl ApiKeyNotSet => true
  | _ => false
  end.

(** What the handler comes to once it asks for a new summary of [text],
    the summaries being [m] and the events so far [base]: the answer and
    the world. Without a key nothing is sent. *)
Definition summarize_fresh (h : host) (url text : jsstring) (m : storage)
    (base : list event) : response * world :=
  let asked := Progress (lit "sending_request") :: base in
  let sent := ProviderCall text (language h) :: asked in
  match provider h text (language h) with
  | inl ApiKeyNotSet => (RespNoApiKey, World m asked)
  | inl err =>
      (if mentions_api_key (Transport err) then RespNoApiKey else RespFailed,
       World m sent)
  | inr data =>
      match normalizeReply (number_to_string h) data with
      | inl err => (RespFailed, World m sent)
      | inr s =>
          let m' := <[url := Entry s (hashText text) (now h)]> (read_summaries m) in
          (RespSummary s, World (Some m') (StorageSet m' :: sent))
      end
  end.


(** A text without the line feed it starts with, if it starts with one. *)
Definition drop_newline (s : jsstring) : jsstring :=
  match s with
  | c :: t => if (LF =? c)%N then t else s
  | [] => []
  end.


(** A result of the lookup as the callers expect it: nothing, or a record
    of source [tosdr] with a rating that says something. *)
Definition tosdr_result_ok (r : value) : bool :=
  match r with
  | VNull => true
  | _ =>
      is_str (get r (lit "source")) (lit "tosdr")
      && is_string (get r (lit "summary"))
      && truthy (get r (lit "rating"))
      && negb (is_str (get r (lit "rating")) (lit "N/A"))
  end.

(** The events that can change what is kept for tab [t]. *)
Definition concerns (t : Z) (e : tab_event) : bool :=
  match e with
  | TabUpdated id _ _ => (id =? t)%Z
  | TabRemoved id => (id =? t)%Z
  | TabReplaced added removed => (added =? t)%Z || (removed =? t)%Z
  | PageLanguage sender _ | PrivacyLinksFound sender _ =>
      match sender_tab sender with
      | Some id => (id =? t)%Z
      | None => false
      end
  | GetPolicyLink _ => false
  end.

(** The ignored list after the domains [more] have been added in turn. *)
Definition ignore_all (more : list jsstring) (item : ignored_item)
  : ignored_item :=
  fold_left (fun it x => addIgnoredDomain x it) more item.

(** The texts made of pieces that satisfy [P]. *)
Inductive star (P : jsstring -> Prop) : jsstring -> Prop :=
| star_nil : star P []
| star_app (u v : jsstring) : P u -> star P v -> star P (u ++ v).

(** The texts a pattern can match, the conditions on what is around them
    left aside. *)
Fixpoint den (r : regex) (w : jsstring) : Prop :=
  match r with
  | REmpty | RBol | REol | RWordB => w = []
  | RClass p => exists c, w = [c] /\ p c = true
  | RSeq a b => exists u v, w = u ++ v /\ den a u /\ den b v
  | RAlt a b => den a w \/ den b w
  | RStar a => star (den a) w
  | RGroup _ a => den a w
  end.

(** An anchor the detector keeps for the selector [sel]. *)
Definition qualifies (toLowerCase : jsstring -> jsstring) (sel : jsstring)
    (a : anchor) : bool :=
  includes (href_attr a) sel && test re_link_text (toLowerCase (textContent a)).

(** The units [encodeURIComponent] writes: the unreserved ones and the
    percent sign. *)
Definition uri_safe (c : N) : bool := uri_unreserved c || (c =? 37)%N.

(** What [summarizePolicy] makes of the value [parsed] it has found in the
    content or in an alternative field of a reply of content [rawContent]:
    the free-text reading when there is none, one more unwrapping, and
    the case of an array. *)
Definition settle (NumberToString : number -> jsstring)
    (parsed rawContent : value) : option value :=
  let parsed :=
    if negb (truthy parsed) then extractFromUnstructured rawContent
    else parsed in
  let parsed :=
    if truthy parsed && is_object parsed
       && truthy (get parsed (lit "content"))
       && is_string (get parsed (lit "content"))
    then
      let inner := tryParseJsonFromContent (get parsed (lit "content")) in
      if truthy inner then inner else parsed
    else parsed in
  if isArray parsed then
    let again := tryParseJsonFromContent parsed in
    if truthy again then Some again
    else option_map (fun s => extractFromUnstructured (VStr s))
           (ToString NumberToString parsed)
  else Some parsed.

(* ===================================================================== *)
(** ** The standards the fingerprint is compared with *)
(* ===================================================================== *)

(** UTF-8, as the Unicode Standard defines it, and the scalar values of a
    string of 16-bit code units. *)
Module Utf8.

(** The scalar values of a string: a high surrogate followed by a low one
    stands for one value above U+FFFF, any other surrogate is replaced by
    U+FFFD, and every other unit stands for itself. *)
Fixpoint scalar_values (s : jsstring) : list N :=
  match s with
  | [] => []
  | c :: t =>
      if is_high_surrogate c then
        match t with
        | d :: u =>
            if is_low_surrogate d
            then (65536 + (c - 55296) * 1024 + (d - 56320))%N :: scalar_values u
            else 65533%N :: scalar_values t
        | [] => [65533%N]
        end
      else if is_low_surrogate c then 65533%N :: scalar_values t
      else c :: scalar_values t
  end.

Definition between (lo hi b : N) : bool := ((lo <=? b) && (b <=? hi))%N.

(** A continuation byte. *)
Definition continuation (b : N) : bool := between 128 191 b.

(** The second byte allowed after the first byte of a sequence of three
    and of a sequence of four: no overlong form, no surrogate, nothing
    above U+10FFFF. *)
Definition second_of_three (b1 b2 : N) : bool :=
  if (b1 =? 224)%N then between 160 191 b2
  else if (b1 =? 237)%N then between 128 159 b2
  else continuation b2.

Definition second_of_four (b1 b2 : N) : bool :=
  if (b1 =? 240)%N then between 144 191 b2
  else if (b1 =? 244)%N then between 128 143 b2
  else continuation b2.

(** The scalar values a byte string stands for, if it is well formed
    (table 3-7 of the standard): one byte below 80, two bytes from C2 to
    DF, three from E0 to EF, four from F0 to F4. *)
Fixpoint decode (bytes : list N) : option (list N) :=
  match bytes with
  | [] => Some []
  | b1 :: t1 =>
      if (b1 <? 128)%N then option_map (cons b1) (decode t1)
      else if between 194 223 b1 then
        match t1 with
        | b2 :: t2 =>
            if continuation b2
            then option_map (cons ((b1 - 192) * 64 + (b2 - 128))%N) (decode t2)
            else None
        | _ => None
        end
      else if between 224 239 b1 then
        match t1 with
        | b2 :: b3 :: t3 =>
            if second_of_three b1 b2 && continuation b3
            then option_map
                   (cons ((b1 - 224) * 4096 + (b2 - 128) * 64 + (b3 - 128))%N)
                   (decode t3)
            else None
        | _ => None
        end
      else if between 240 244 b1 then
        match t1 with
        | b2 :: b3 :: b4 :: t4 =>
            if second_of_four b1 b2 && continuation b3 && continuation b4
            then option_map
                   (cons ((b1 - 240) * 262144 + (b2 - 128) * 4096
                          + (b3 - 128) * 64 + (b4 - 128))%N)
                   (decode t4)
            else None
        | _ => None
        end
      else None
  end.

End Utf8.

(** SHA-256, as FIPS 180-4 defines it: on strings of bits, the leftmost
    bit of a word being its most significant one. *)
Module Fips.

(** The integer a string of bits stands for, and the string of the [n]
    low bits of an integer. *)
Fixpoint val (w : list bool) : Z :=
  match w with
  | [] => 0
  | b :: t => Z.b2z b * 2 ^ Z.of_nat (length t) + val t
  end.

Fixpoint bits (n : nat) (z : Z) : list bool :=
  match n with
  | O => []
  | S k => Z.testbit z (Z.of_nat k) :: bits k z
  end.

(** Section 3.2: the bitwise operations, addition modulo [2^32], the
    right shift and the rotation to the right (circular right shift). *)
Fixpoint zip (f : bool -> bool -> bool) (x y : list bool) : list bool :=
  match x, y with
  | a :: x', b :: y' => f a b :: zip f x' y'
  | _, _ => []
  end.

Definition band (x y : list bool) : list bool := zip andb x y.
Definition bxor (x y : list bool) : list bool := zip xorb x y.
Definition bnot (x : list bool) : list bool := List.map negb x.

Definition plus (x y : list bool) : list bool :=
  bits 32 ((val x + val y) mod 2 ^ 32).

Definition SHR (n : nat) (x : list bool) : list bool :=
  repeat false n ++ firstn (length x - n) x.

Definition ROTR (n : nat) (x : list bool) : list bool :=
  skipn (length x - n) x ++ firstn (length x - n) x.

(** Section 4.1.2: the six functions. *)
Definition Ch (x y z : list bool) : list bool :=
  bxor (band x y) (band (bnot x) z).
Definition Maj (x y z : list bool) : list bool :=
  bxor (bxor (band x y) (band x z)) (band y z).
Definition Sigma0 (x : list bool) : list bool :=
  bxor (bxor (ROTR 2 x) (ROTR 13 x)) (ROTR 22 x).
Definition Sigma1 (x : list bool) : list bool :=
  bxor (bxor (ROTR 6 x) (ROTR 11 x)) (ROTR 25 x).
Definition sigma0 (x : list bool) : list bool :=
  bxor (bxor (ROTR 7 x) (ROTR 18 x)) (SHR 3 x).
Definition sigma1 (x : list bool) : list bool :=
  bxor (bxor (ROTR 17 x) (ROTR 19 x)) (SHR 10 x).

(** Sections 4.2.2 and 5.3.3: the constants and the initial hash value,
    the first thirty-two bits of the fractional parts of the cube roots of
    the first sixty-four primes and of the square roots of the first
    eight, as they were derived above. *)
Definition zero : list bool := repeat false 32.

Definition K : list (list bool) := List.map (bits 32) Sha256.K.

Record registers : Type := Registers {
  ra : list bool; rb : list bool; rc : list bool; rd : list bool;
  re : list bool; rf : list bool; rg : list bool; rh : list bool
}.

Definition H0 : registers :=
  Registers (bits 32 (Sha256.ha Sha256.H0)) (bits 32 (Sha256.hb Sha256.H0))
            (bits 32 (Sha256.hc Sha256.H0)) (bits 32 (Sha256.hd Sha256.H0))
            (bits 32 (Sha256.he Sha256.H0)) (bits 32 (Sha256.hf Sha256.H0))
            (bits 32 (Sha256.hg Sha256.H0)) (bits 32 (Sha256.hh Sha256.H0)).

(** Section 5.1.1: the message of [l] bits is followed by the bit 1, by
    [k] zero bits, where [k] is the smallest solution of
    [l + 1 + k = 448] modulo 512, and by [l] on 64 bits. *)
Definition zero_bits (l : nat) : nat :=
  match List.find (fun k => ((l + 1 + k) mod 512 =? 448)%nat) (seq 0 512) with
  | Some k => k
  | None => O
  end.

Definition pad (M : list bool) : list bool :=
  M ++ [true] ++ repeat false (zero_bits (length M))
    ++ bits 64 (Z.of_nat (length M)).

(** Section 5.2.1: a block of 512 bits is sixteen words of 32 bits. *)
Definition sub (start len : nat) (l : list bool) : list bool :=
  firstn len (skipn start l).

Definition words (block : list bool) : list (list bool) :=
  List.map (fun t => sub (32 * t) 32 block) (seq 0 16).

(** Section 6.2.2, step 1: the message schedule; [W] holds the words
    from the first to the one before word [t]. *)
Fixpoint schedule (n : nat) (W : list (list bool)) : list (list bool) :=
  match n with
  | O => W
  | S k =>
      let t := length W in
      schedule k
        (W ++ [plus (plus (plus (sigma1 (nth (t - 2) W zero))
                                (nth (t - 7) W zero))
                          (sigma0 (nth (t - 15) W zero)))
                    (nth (t - 16) W zero)])
  end.

(** Step 3: one round. *)
Definition step (W : list (list bool)) (r : registers) (t : nat) : registers :=
  let T1 :=
    plus (plus (plus (plus (rh r) (Sigma1 (re r))) (Ch (re r) (rf r) (rg r)))
               (nth t K zero))
         (nth t W zero) in
  let T2 := plus (Sigma0 (ra r)) (Maj (ra r) (rb r) (rc r)) in
  Registers (plus T1 T2) (ra r) (rb r) (rc r) (plus (rd r) T1)
            (re r) (rf r) (rg r).

(** Steps 1 to 4 for one block. *)
Definition hash_block (H : registers) (block : list bool) : registers :=
  let W := schedule 48 (words block) in
  let r := fold_left (step W) (seq 0 64) H in
  Registers (plus (ra r) (ra H)) (plus (rb r) (rb H)) (plus (rc r) (rc H))
            (plus (rd r) (rd H)) (plus (re r) (re H)) (plus (rf r) (rf H))
            (plus (rg r) (rg H)) (plus (rh r) (rh H)).

Fixpoint hash_blocks (fuel : nat) (H : registers) (M : list bool) : registers :=
  match fuel with
  | O => H
  | S k =>
      match M with
      | [] => H
      | _ => hash_blocks k (hash_block H (firstn 512 M)) (skipn 512 M)
      end
  end.

(** The message digest of a message of bits. *)
Definition hash (M : list bool) : list bool :=
  let P := pad M in
  let H := hash_blocks (length P) H0 P in
  ra H ++ rb H ++ rc H ++ rd H ++ re H ++ rf H ++ rg H ++ rh H.

(** Bytes as strings of eight bits, and back. *)
Definition bits_of_bytes (bytes : list N) : list bool :=
  concat (List.map (fun b => bits 8 (Z.of_N b)) bytes).

Fixpoint bytes_of_bits (l : list bool) : list N :=
  match l with
  | b7 :: b6 :: b5 :: b4 :: b3 :: b2 :: b1 :: b0 :: t =>
      Z.to_N (val [b7; b6; b5; b4; b3; b2; b1; b0]) :: bytes_of_bits t
  | _ => []
  end.

Definition sha256 (bytes : list N) : list N :=
  bytes_of_bits (hash (bits_of_bytes bytes)).

End Fips.

(** The integers that are words of thirty-two bits and bytes, the state
    whose eight words are, and the registers of a state as bit strings. *)
Definition word32 (x : Z) : Prop := 0 <= x < 2 ^ 32.

Definition octet (b : Z) : Prop := 0 <= b < 256.

Definition word32_state (s : Sha256.hstate) : Prop :=
  word32 (Sha256.ha s) /\ word32 (Sha256.hb s) /\ word32 (Sha256.hc s)
  /\ word32 (Sha256.hd s) /\ word32 (Sha256.he s) /\ word32 (Sha256.hf s)
  /\ word32 (Sha256.hg s) /\ word32 (Sha256.hh s).

Definition registers_of (s : Sha256.hstate) : Fips.registers :=
  Fips.Registers
    (Fips.bits 32 (Sha256.ha s)) (Fips.bits 32 (Sha256.hb s))
    (Fips.bits 32 (Sha256.hc s)) (Fips.bits 32 (Sha256.hd s))
    (Fips.bits 32 (Sha256.he s)) (Fips.bits 32 (Sha256.hf s))
    (Fips.bits 32 (Sha256.hg s)) (Fips.bits 32 (Sha256.hh s)).

(** Goals on quotients and remainders, and on sums modulo [2^32]. *)
Ltac div_lia := zify; Z.to_euclidean_division_equations; lia.

Ltac add32_lia :=
  unfold Sha256.add32, Sha256.w32; change (2 ^ 32) with 4294967296;
  zify; Z.to_euclidean_division_equations; lia.

(* ===================================================================== *)
(** * Properties *)
(* ===================================================================== *)

(** ** The matcher on the simple patterns *)

Lemma str_eqb_eq (a b : jsstring) : str_eqb a b = true <-> a = b.
Proof. unfold str_eqb. apply bool_decide_eq_true. Qed.

Lemma str_eqb_neq (a b : jsstring) : str_eqb a b = false <-> a <> b.
Proof. unfold str_eqb. apply bool_decide_eq_false. Qed.

Lemma forallb_rev_true (p : N -> bool) (s : jsstring) :
  forallb p s = true -> forallb p (rev s) = true.
Proof.
  rewrite !forallb_forall. intros H x Hx. apply H. now apply in_rev.
Qed.

Lemma flat_map_single {A B : Type} (f : A -> list B) (a : A) :
  flat_map f [a] = f a.
Proof. cbn. apply app_nil_r. Qed.

(** A greedy repetition of a class stops at the positions of
    [run_states]. *)
Lemma star_loop_class (p : N -> bool) (fuel : nat) (pre rest : jsstring)
    (caps : list (nat * jsstring)) :
  (length rest <= fuel)%nat ->
  star_loop (rmatch (RClass p)) fuel (MState pre rest caps)
  = run_states p pre rest caps.
Proof.
  revert pre rest. induction fuel as [ | f IH]; intros pre rest Hlen.
  - destruct rest; [reflexivity | cbn in Hlen; lia].
  - destruct rest as [ | c t]; [reflexivity | ].
    cbn [star_loop rmatch m_rest m_pre m_caps run_states].
    destruct (p c); [ | reflexivity].
    rewrite flat_map_single. cbn [m_rest length].
    rewrite (proj2 (Nat.ltb_lt _ _)) by lia.
    rewrite IH by (cbn in Hlen; lia). reflexivity.
Qed.

Lemma rmatch_star_class (p : N -> bool) (pre rest : jsstring)
    (caps : list (nat * jsstring)) :
  rmatch (RStar (RClass p)) (MState pre rest caps) = run_states p pre rest caps.
Proof. cbn [rmatch m_rest]. now apply star_loop_class. Qed.

Lemma rmatch_plus_class (p : N -> bool) (pre rest : jsstring)
    (caps : list (nat * jsstring)) :
  rmatch (rplus (RClass p)) (MState pre rest caps)
  = match rest with
    | c :: t => if p c then run_states p (c :: pre) t caps else []
    | [] => []
    end.
Proof.
  unfold rplus.
  change (rmatch (RSeq (RClass p) (RStar (RClass p))) (MState pre rest caps))
    with (flat_map (rmatch (RStar (RClass p)))
            (rmatch (RClass p) (MState pre rest caps))).
  cbn [rmatch m_rest m_pre m_caps].
  destruct rest as [ | c t]; [reflexivity | ].
  destruct (p c); [ | reflexivity].
  rewrite flat_map_single. apply rmatch_star_class.
Qed.

(** The longest run comes first. *)
Lemma run_states_head (p : N -> bool) (pre rest : jsstring)
    (caps : list (nat * jsstring)) :
  exists tl,
    run_states p pre rest caps
    = MState (rev (take_while p rest) ++ pre) (drop_while p rest) caps :: tl.
Proof.
  revert pre. induction rest as [ | c t IH]; intros pre.
  - now exists [].
  - cbn [run_states take_while drop_while]. destruct (p c).
    + destruct (IH (c :: pre)) as [tl ->].
      exists (tl ++ [MState pre (c :: t) caps]).
      cbn [rev]. now rewrite <- app_assoc.
    + now exists [].
Qed.

(** Of those positions, only the end of the text satisfies [$]. *)
Lemma run_states_eol (p : N -> bool) (pre rest : jsstring)
    (caps : list (nat * jsstring)) :
  flat_map (rmatch REol) (run_states p pre rest caps)
  = if forallb p rest then [MState (rev rest ++ pre) [] caps] else [].
Proof.
  revert pre. induction rest as [ | c t IH]; intros pre; [reflexivity | ].
  cbn [run_states forallb]. destruct (p c); [ | reflexivity].
  rewrite flat_map_app, IH. cbn [flat_map rmatch m_rest andb app].
  rewrite app_nil_r. cbn [rev]. now rewrite <- app_assoc.
Qed.

(** ** The score *)

Lemma Qle_bool_inject_Z (a b : Z) :
  Qle_bool (inject_Z a) (inject_Z b) = (a <=? b).
Proof. unfold Qle_bool, inject_Z; simpl. now rewrite !Z.mul_1_r. Qed.

(** What [clampScore] computes on a finite number. *)
Lemma clampScore_finite (q : Q) :
  clampScore (Fin q) = num_of_Z (Z.max 0 (Z.min 10 (Qfloor (q + (1 # 2))))).
Proof.
  unfold clampScore, num_of_Z. cbn [isNaN Math_round Math_min].
  rewrite Qle_bool_inject_Z.
  destruct (Z.leb_spec 10 (Qfloor (q + (1 # 2)))) as [H | H];
    cbn [Math_max]; rewrite Qle_bool_inject_Z.
  - rewrite Z.min_l, Z.max_r by lia. reflexivity.
  - rewrite Z.min_r by lia.
    destruct (Z.leb_spec 0 (Qfloor (q + (1 # 2)))) as [H' | H'].
    + rewrite Z.max_r by lia. reflexivity.
    + rewrite Z.max_l by lia. reflexivity.
Qed.

(** [clampScore] always gives an integer from 0 to 10. *)
Lemma clampScore_range (n : number) :
  exists z, 0 <= z <= 10 /\ clampScore n = num_of_Z z.
Proof.
  destruct n as [ | | | q].
  - exists 5. split; [lia | reflexivity].
  - exists 10. split; [lia | reflexivity].
  - exists 0. split; [lia | reflexivity].
  - exists (Z.max 0 (Z.min 10 (Qfloor (q + (1 # 2))))).
    split; [lia | apply clampScore_finite].
Qed.

Lemma num_lt_range (z : Z) :
  0 <= z <= 10 ->
  num_lt (num_of_Z z) (num_of_Z 0) || num_lt (num_of_Z 10) (num_of_Z z) = false.
Proof.
  intros H. unfold num_lt, num_of_Z.
  rewrite !Qle_bool_inject_Z.
  destruct (Z.leb_spec 0 z), (Z.leb_spec z 10); simpl; try reflexivity; lia.
Qed.

(** The record [normalizeRecord] returns, when it returns one. *)
Lemma normalizeRecord_inr nts (parsed : value) (r : SummaryRecord) :
  normalizeRecord nts parsed = inr r ->
  exists n e text,
    ToNumber nts (rawScore parsed) = Some n
    /\ ToString nts (nullish (get_opt parsed (lit "score_explanation")) (VStr []))
       = Some e
    /\ ToString nts (nullish (get_opt parsed (lit "summary")) (VStr []))
       = Some text
    /\ r = mkSummary (clampScore n) (normalizeExplanation e) text.
Proof.
  unfold normalizeRecord, throwing.
  destruct (ToNumber nts (rawScore parsed)) as [n | ]; [ | discriminate].
  destruct (ToString nts (nullish (get_opt parsed (lit "score_explanation")) _))
    as [e | ]; [ | discriminate].
  destruct (ToString nts (nullish (get_opt parsed (lit "summary")) _))
    as [text | ]; [ | discriminate].
  cbn [privacy_score score_explanation summary is_string negb orb].
  destruct (clampScore_range n) as (z & Hz & Hc).
  rewrite Hc, (num_lt_range z Hz).
  intros [= <-]. exists n, e, text. rewrite Hc. auto.
Qed.

(** The only error [normalizeRecord] returns is the TypeError of a
    conversion. *)
Lemma normalizeRecord_inl nts (parsed : value) (err : error) :
  normalizeRecord nts parsed = inl err -> err = TypeError.
Proof.
  unfold normalizeRecord, throwing.
  destruct (ToNumber nts (rawScore parsed)) as [n | ]; [ | now intros [= <-]].
  destruct (ToString nts (nullish (get_opt parsed (lit "score_explanation")) _))
    as [e | ]; [ | now intros [= <-]].
  destruct (ToString nts (nullish (get_opt parsed (lit "summary")) _))
    as [text | ]; [ | now intros [= <-]].
  cbn [privacy_score score_explanation summary is_string negb orb].
  destruct (clampScore_range n) as (z & Hz & Hc).
  rewrite Hc, (num_lt_range z Hz). discriminate.
Qed.

Lemma normalizeReply_inr nts (data : value) (r : SummaryRecord) :
  normalizeReply nts data = inr r ->
  exists parsed, findRecord nts data = Some parsed
                 /\ normalizeRecord nts parsed = inr r.
Proof.
  unfold normalizeReply, throwing.
  destruct (findRecord nts data) as [parsed | ]; [ | discriminate].
  intros H. now exists parsed.
Qed.

Lemma normalizeReply_inl nts (data : value) (err : error) :
  normalizeReply nts data = inl err -> err = TypeError.
Proof.
  unfold normalizeReply, throwing.
  destruct (findRecord nts data) as [parsed | ]; [ | now intros [= <-]].
  apply normalizeRecord_inl.
Qed.

(** C3: whatever the reply, the privacy_score of the record returned is an
    integer from 0 to 10; it is the raw score rounded (a tie going up)
    and clamped, so that -3 gives 0, 14 gives 10 and 7.6 gives 8, as
    numbers and as the scores of JSON replies. *)
Theorem score_clamping :
  (forall nts data r,
      normalizeReply nts data = inr r ->
      exists z, 0 <= z <= 10 /\ privacy_score r = num_of_Z z)
  /\ (forall nts parsed r,
         normalizeRecord nts parsed = inr r ->
         exists n, ToNumber nts (rawScore parsed) = Some n
                   /\ privacy_score r = clampScore n)
  /\ (forall q,
         clampScore (Fin q)
         = num_of_Z (Z.max 0 (Z.min 10 (Qfloor (q + (1 # 2))))))
  /\ clampScore (num_of_Z (-3)) = num_of_Z 0
  /\ clampScore (num_of_Z 14) = num_of_Z 10
  /\ clampScore (StringToNumber (lit "7.6")) = num_of_Z 8
  /\ (forall nts,
         normalizeReply nts (chat_reply (VStr (jsq
           "{'privacy_score':-3,'score_explanation':'Low','summary':'# A'}")))
         = inr (mkSummary (num_of_Z 0) (lit "Low") (lit "# A"))
         /\ normalizeReply nts (chat_reply (VStr (jsq
              "{'privacy_score':14,'score_explanation':'High','summary':'# B'}")))
            = inr (mkSummary (num_of_Z 10) (lit "High") (lit "# B"))
         /\ normalizeReply nts (chat_reply (VStr (jsq
              "{'privacy_score':7.6,'score_explanation':'Mid','summary':'# C'}")))
            = inr (mkSummary (num_of_Z 8) (lit "Mid") (lit "# C"))).
Proof.
  split; [ | split; [ | split; [ | repeat split; vm_compute; reflexivity]]].
  - intros nts data r H.
    apply normalizeReply_inr in H as (parsed & _ & H).
    apply normalizeRecord_inr in H as (n & e & text & _ & _ & _ & ->).
    apply clampScore_range.
  - intros nts parsed r H.
    apply normalizeRecord_inr in H as (n & e & text & Hn & _ & _ & ->).
    now exists n.
  - apply clampScore_finite.
Qed.

Lemma score_clamping_witness :
  exists z, 0 <= z <= 10
    /\ privacy_score
         (mkSummary (num_of_Z 10) (lit "Too much") (lit "x")) = num_of_Z z.
Proof.
  apply (proj1 score_clamping (fun _ => [])
           (chat_reply (VStr (jsq
              "{'privacy_score':14,'score_explanation':'Too much.','summary':'x'}")))).
  vm_compute. reflexivity.
Defined.

(** C9: [clampScore] gives an integer from 0 to 10 for every number (5
    for NaN), and no reply makes [summarizePolicy] throw its
    out-of-range error. *)
Theorem range_check_unreachable :
  (forall n, exists z, 0 <= z <= 10 /\ clampScore n = num_of_Z z)
  /\ clampScore NaN = num_of_Z 5
  /\ (forall nts data, normalizeReply nts data <> inl ScoreOutOfRange).
Proof.
  repeat split.
  - apply clampScore_range.
  - intros nts data H. apply normalizeReply_inl in H. discriminate.
Qed.

(** ** Replies read as a whole *)

(** C5: for the reply that is a Markdown fence around the JSON object, the
    fence is stripped, the object is parsed, and the record returned is
    exactly score 3, explanation "Minimal tracking", summary "# OK". *)
Theorem fenced_json_round_trip (nts : number -> jsstring) :
  stripCodeFences fenced_reply
  = jsq "{'privacy_score':3,'score_explanation':'Minimal tracking','summary':'# OK'}"
  /\ tryParseJsonFromContent (VStr fenced_reply)
     = mk_record (num_of_Z 3) (lit "Minimal tracking") (lit "# OK")
  /\ normalizeReply nts (chat_reply (VStr fenced_reply))
     = inr (mkSummary (num_of_Z 3) (lit "Minimal tracking") (lit "# OK")).
Proof. repeat split; vm_compute; reflexivity. Qed.

(** C6: for the free-text reply, no JSON is found, the score read is 9,
    the explanation is the line after the score (it holds "because of
    broad third-party sharing") and the summary is the line under the
    Summary heading. *)
Theorem unstructured_fallback (nts : number -> jsstring) :
  tryParseJsonFromContent (VStr unstructured_reply) = VNull
  /\ exists r,
       normalizeReply nts (chat_reply (VStr unstructured_reply)) = inr r
       /\ privacy_score r = num_of_Z 9
       /\ score_explanation r
          = lit "Excessive tracking because of broad third-party sharing"
       /\ includes (score_explanation r)
            (lit "because of broad third-party sharing") = true
       /\ summary r = lit "They collect everything.".
Proof.
  split; [vm_compute; reflexivity | ].
  eexists. split; [vm_compute; reflexivity | ].
  repeat split; vm_compute; reflexivity.
Qed.

(** ** The explanation *)

Lemma strip_end_nil_iff (p : N -> bool) (s : jsstring) :
  strip_end p s = [] <-> forallb p s = true.
Proof.
  destruct s as [ | c t]; [now split | ].
  cbn [strip_end]. destruct (forallb p (c :: t)); now split.
Qed.

(** [strip_end] removes a suffix of units satisfying [p], and what is
    left does not end with one. *)
Lemma strip_end_spec (p : N -> bool) (s : jsstring) :
  exists suffix,
    s = strip_end p s ++ suffix /\ forallb p suffix = true
    /\ match rev (strip_end p s) with c :: _ => p c = false | [] => True end.
Proof.
  induction s as [ | c t (suffix & Hs & Hp & Hl)].
  - exists []. now repeat split.
  - cbn [strip_end]. destruct (forallb p (c :: t)) eqn:Hall.
    + exists (c :: t). now repeat split.
    + exists suffix. split; [cbn; now rewrite <- Hs | ]. split; [exact Hp | ].
      cbn [rev]. destruct (rev (strip_end p t)) as [ | d u] eqn:Hr.
      * cbn. apply (f_equal (@rev N)) in Hr. rewrite rev_involutive in Hr.
        cbn in Hr. apply strip_end_nil_iff in Hr.
        cbn [forallb] in Hall. rewrite Hr, andb_true_r in Hall. exact Hall.
      * exact Hl.
Qed.

Lemma strip_end_same_length (p : N -> bool) (s : jsstring) :
  (length (strip_end p s) <? length s)%nat = false -> strip_end p s = s.
Proof.
  intros H. apply Nat.ltb_ge in H.
  destruct (strip_end_spec p s) as (suffix & Hs & _ & _).
  apply (f_equal (@length N)) in Hs as Hlen. rewrite length_app in Hlen.
  destruct suffix; [now rewrite app_nil_r in Hs | cbn in Hlen; lia].
Qed.

Lemma rmatch_class_plus_eol (p : N -> bool) (pre rest : jsstring)
    (caps : list (nat * jsstring)) :
  rmatch (RSeq (rplus (RClass p)) REol) (MState pre rest caps)
  = match rest with
    | _ :: _ => if forallb p rest then [MState (rev rest ++ pre) [] caps] else []
    | [] => []
    end.
Proof.
  change (rmatch (RSeq (rplus (RClass p)) REol) (MState pre rest caps))
    with (flat_map (rmatch REol) (rmatch (rplus (RClass p)) (MState pre rest caps))).
  rewrite rmatch_plus_class. destruct rest as [ | c t]; [reflexivity | ].
  cbn [forallb]. destruct (p c); [ | reflexivity].
  rewrite run_states_eol. cbn [andb rev]. now rewrite <- app_assoc.
Qed.

Lemma search_trailing (p : N -> bool) (pre rest acc : jsstring) :
  search_from (RSeq (rplus (RClass p)) REol) pre rest acc
  = if (length (strip_end p rest) <? length rest)%nat
    then Some (MatchResult (rev acc ++ strip_end p rest)
                 (MState (rev rest ++ pre) [] []))
    else None.
Proof.
  revert pre acc. induction rest as [ | c t IH]; intros pre acc; [reflexivity | ].
  cbn [search_from]. rewrite rmatch_class_plus_eol.
  cbn [strip_end]. destruct (forallb p (c :: t)).
  - cbn [length]. now rewrite app_nil_r.
  - rewrite IH. cbn [length rev].
    change (S (length (strip_end p t)) <? S (length t))%nat
      with (length (strip_end p t) <? length t)%nat.
    destruct (length (strip_end p t) <? length t)%nat; [ | reflexivity].
    now rewrite <- !app_assoc.
Qed.

(** At the end of the text a pattern that needs a unit finds nothing. *)
Lemma replace_all_from_end (r : regex) (rep : jsstring) (fuel : nat)
    (pre : jsstring) :
  rmatch r (MState pre [] []) = [] ->
  replace_all_from r rep fuel pre [] = [].
Proof.
  intros H. destruct fuel; [reflexivity | ].
  cbn [replace_all_from search_from]. now rewrite H.
Qed.

(** [.replace(/[\.\s]+$/g, "")] removes the longest suffix of periods and
    white space. *)
Lemma replace_all_trailing (p : N -> bool) (s : jsstring) :
  replace_all (RSeq (rplus (RClass p)) REol) [] s = strip_end p s.
Proof.
  unfold replace_all. cbn [replace_all_from]. rewrite search_trailing.
  destruct (length (strip_end p s) <? length s)%nat eqn:Hlt.
  - cbn [mr_skipped mr_end m_rest m_pre app rev length].
    apply Nat.ltb_lt in Hlt.
    rewrite Nat.add_0_r, (proj2 (Nat.eqb_neq _ _)) by lia.
    rewrite replace_all_from_end by apply rmatch_class_plus_eol.
    now rewrite app_nil_r.
  - symmetry. now apply strip_end_same_length.
Qed.

Lemma words_from_drop_spaces (t : jsstring) :
  words_from [] (drop_while is_space t) = words_from [] t.
Proof.
  induction t as [ | c t IH]; [reflexivity | ].
  cbn [drop_while words_from]. destruct (is_space c) eqn:Hc; [exact IH | ].
  cbn [words_from]. now rewrite Hc.
Qed.

Lemma drop_while_length (p : N -> bool) (s : jsstring) :
  (length (drop_while p s) <= length s)%nat.
Proof.
  induction s as [ | c t IH]; [reflexivity | ].
  cbn [drop_while]. destruct (p c); cbn [length]; lia.
Qed.

Lemma filter_nonempty_cons (cur_rev : jsstring) (l : list jsstring) :
  List.filter (fun w => negb (str_eqb w [])) (rev cur_rev :: l)
  = match cur_rev with
    | [] => List.filter (fun w => negb (str_eqb w [])) l
    | _ => rev cur_rev :: List.filter (fun w => negb (str_eqb w [])) l
    end.
Proof.
  cbn [List.filter]. destruct cur_rev as [ | c u]; [reflexivity | ].
  assert (H : str_eqb (rev (c :: u)) [] = false).
  { apply str_eqb_neq. cbn [rev]. intros E. now destruct (rev u). }
  now rewrite H.
Qed.

(** The pieces between runs of white space, the empty ones left out, are
    the words. *)
Lemma split_spaces_from (fuel : nat) (pre rest cur_rev : jsstring) (b : bool) :
  (length rest < fuel)%nat ->
  List.filter (fun w => negb (str_eqb w []))
    (split_from re_spaces fuel pre rest cur_rev b)
  = words_from cur_rev rest.
Proof.
  revert pre rest cur_rev b.
  induction fuel as [ | f IH]; intros pre rest cur_rev b Hlen; [lia | ].
  destruct rest as [ | c t].
  - cbn [split_from words_from].
    rewrite filter_nonempty_cons. now destruct cur_rev.
  - cbn [split_from words_from]. unfold re_spaces, ws_plus.
    rewrite rmatch_plus_class. cbn [length] in Hlen.
    destruct (is_space c).
    + destruct (run_states_head is_space (c :: pre) t []) as [tl ->].
      cbn [m_rest m_pre length].
      pose proof (drop_while_length is_space t) as Hd.
      rewrite (proj2 (Nat.eqb_neq _ _)) by lia. cbn [andb].
      rewrite filter_nonempty_cons.
      fold re_spaces. unfold re_spaces, ws_plus.
      rewrite (IH _ (drop_while is_space t) [] true) by lia.
      rewrite words_from_drop_spaces. reflexivity.
    + fold ws_plus. fold re_spaces. apply IH. lia.
Qed.

Lemma split_spaces (s : jsstring) :
  List.filter (fun w => negb (str_eqb w [])) (split re_spaces s) = words s.
Proof.
  destruct s as [ | c t]; [reflexivity | ].
  unfold split, words. apply split_spaces_from. cbn [length]. lia.
Qed.

Lemma rmatch_final_dot (pre rest : jsstring) (caps : list (nat * jsstring)) :
  rmatch re_final_dot (MState pre rest caps)
  = match rest with
    | [c] => if (c =? 46)%N then [MState (c :: pre) [] caps] else []
    | _ => []
    end.
Proof.
  unfold re_final_dot, chr. cbn [rmatch m_rest m_pre m_caps].
  destruct rest as [ | c t]; [reflexivity | ].
  rewrite (N.eqb_sym 46 c). destruct (c =? 46)%N; [ | now destruct t].
  rewrite flat_map_single. cbn [rmatch m_rest]. now destruct t.
Qed.

Lemma search_final_dot (pre rest acc : jsstring) :
  search_from re_final_dot pre rest acc
  = if (length (drop_final_dot rest) <? length rest)%nat
    then Some (MatchResult (rev acc ++ drop_final_dot rest)
                 (MState (rev rest ++ pre) [] []))
    else None.
Proof.
  revert pre acc. induction rest as [ | c t IH]; intros pre acc; [reflexivity | ].
  cbn [search_from]. rewrite rmatch_final_dot.
  destruct t as [ | d u].
  - cbn [drop_final_dot]. destruct (c =? 46)%N.
    + cbn. now rewrite app_nil_r.
    + reflexivity.
  - rewrite IH.
    change (drop_final_dot (c :: d :: u)) with (c :: drop_final_dot (d :: u)).
    cbn [length rev].
    change (S (length (drop_final_dot (d :: u))) <? S (S (length u)))%nat
      with (length (drop_final_dot (d :: u)) <? S (length u))%nat.
    cbn [length].
    destruct (length (drop_final_dot (d :: u)) <? S (length u))%nat;
      [ | reflexivity].
    cbn [rev]. now rewrite <- !app_assoc.
Qed.

Lemma drop_final_dot_length (s : jsstring) :
  (length (drop_final_dot s) <= length s)%nat
  /\ ((length (drop_final_dot s) <? length s)%nat = false -> drop_final_dot s = s).
Proof.
  induction s as [ | c [ | d u] [IH1 IH2]].
  - now split.
  - cbn. destruct (c =? 46)%N; cbn; split; (lia || discriminate || reflexivity).
  - change (drop_final_dot (c :: d :: u)) with (c :: drop_final_dot (d :: u)).
    cbn [length] in *. split; [lia | ].
    intros H. f_equal. apply IH2. exact H.
Qed.

(** [.replace(/\.$/, "")] removes a final period. *)
Lemma replace_final_dot (s : jsstring) :
  replace re_final_dot [] s = drop_final_dot s.
Proof.
  unfold replace, exec. rewrite search_final_dot.
  destruct (length (drop_final_dot s) <? length s)%nat eqn:Hlt.
  - cbn. now rewrite app_nil_r.
  - symmetry. now apply drop_final_dot_length.
Qed.

(** What is left by [strip_end] has no final period to remove. *)
Lemma drop_final_dot_stripped (s : jsstring) :
  drop_final_dot (strip_end dot_or_space s) = strip_end dot_or_space s.
Proof.
  induction s as [ | c t IH]; [reflexivity | ].
  cbn [strip_end]. destruct (forallb dot_or_space (c :: t)) eqn:Hall;
    [reflexivity | ].
  destruct (strip_end dot_or_space t) as [ | d u] eqn:Hs.
  - apply strip_end_nil_iff in Hs. cbn [forallb] in Hall.
    rewrite Hs, andb_true_r in Hall. unfold dot_or_space in Hall.
    apply orb_false_iff in Hall as [Hc _]. cbn [drop_final_dot]. now rewrite Hc.
  - change (drop_final_dot (c :: d :: u)) with (c :: drop_final_dot (d :: u)).
    now rewrite IH.
Qed.

(** The explanation after normalization, in terms of the text alone. *)
Lemma normalizeExplanation_eq (s : jsstring) :
  let t := strip_end dot_or_space (trim s) in
  normalizeExplanation s
  = if (8 <? length (words t))%nat
    then drop_final_dot (join (lit " ") (firstn 8 (words t)))
    else t.
Proof.
  intros t. unfold normalizeExplanation, re_trailing_dots.
  rewrite replace_all_trailing. fold t.
  rewrite split_spaces, replace_final_dot.
  destruct (8 <? length (words t))%nat; [reflexivity | ].
  apply drop_final_dot_stripped.
Qed.

(** *** At most eight words *)

Lemma words_from_wf (s cur : jsstring) :
  forallb (fun c => negb (is_space c)) cur = true ->
  Forall is_word_text (words_from cur s).
Proof.
  revert cur. induction s as [ | c t IH]; intros cur Hcur.
  - cbn [words_from]. destruct cur as [ | x u]; constructor; [ | constructor].
    split; [cbn [rev]; now destruct (rev u) | ].
    now apply forallb_rev_true.
  - cbn [words_from]. destruct (is_space c) eqn:Hc.
    + destruct cur as [ | x u]; [now apply IH | ].
      constructor; [ | now apply IH].
      split; [cbn [rev]; now destruct (rev u) | ].
      now apply forallb_rev_true.
    + apply IH. cbn [forallb]. now rewrite Hc.
Qed.

Lemma words_from_app_word (w r cur : jsstring) :
  forallb (fun c => negb (is_space c)) w = true ->
  words_from cur (w ++ r) = words_from (rev w ++ cur) r.
Proof.
  revert cur. induction w as [ | c t IH]; intros cur H; [reflexivity | ].
  cbn [forallb] in H. apply andb_true_iff in H as [Hc Ht].
  apply negb_true_iff in Hc. cbn [app words_from rev]. rewrite Hc.
  rewrite IH by exact Ht. now rewrite <- app_assoc.
Qed.

(** Words joined by single spaces are read back as they were. *)
Lemma words_join (l : list jsstring) :
  Forall is_word_text l -> words (join (lit " ") l) = l.
Proof.
  unfold words. induction 1 as [ | x l [Hne Hx] Hl IH]; [reflexivity | ].
  destruct l as [ | y t].
  - cbn [join].
    replace (words_from [] x) with (words_from [] (x ++ []))
      by now rewrite app_nil_r.
    rewrite words_from_app_word by exact Hx.
    rewrite app_nil_r. cbn [words_from].
    destruct (rev x) eqn:Hr; [ | now rewrite <- Hr, rev_involutive].
    apply (f_equal (@rev N)) in Hr. rewrite rev_involutive in Hr. contradiction.
  - change (join (lit " ") (x :: y :: t))
      with (x ++ 32%N :: join (lit " ") (y :: t)).
    rewrite words_from_app_word by exact Hx. rewrite app_nil_r.
    cbn [words_from]. change (is_space 32) with true. cbv iota.
    destruct (rev x) eqn:Hr.
    + apply (f_equal (@rev N)) in Hr. rewrite rev_involutive in Hr. contradiction.
    + rewrite <- Hr, rev_involutive, IH. reflexivity.
Qed.

(** Removing a final period does not add a word. *)
Lemma words_from_drop_final_dot (s cur : jsstring) :
  (length (words_from cur (drop_final_dot s)) <= length (words_from cur s))%nat.
Proof.
  revert cur. induction s as [ | c [ | d u] IH]; intros cur; [reflexivity | | ].
  - cbn [drop_final_dot]. destruct (N.eqb_spec c 46) as [-> | ]; [ | reflexivity].
    cbn [words_from]. change (is_space 46) with false. cbv iota.
    cbn [words_from]. destruct cur; cbn; lia.
  - change (drop_final_dot (c :: d :: u)) with (c :: drop_final_dot (d :: u)).
    cbn [words_from]. destruct (is_space c).
    + destruct cur; [apply IH | ]. cbn [length]. apply le_n_S, IH.
    + apply IH.
Qed.

(** The normalized explanation has at most eight words. *)
Lemma normalizeExplanation_words (s : jsstring) :
  (length (words (normalizeExplanation s)) <= 8)%nat.
Proof.
  rewrite normalizeExplanation_eq.
  destruct (8 <? length (words (strip_end dot_or_space (trim s))))%nat eqn:Hlt.
  - unfold words at 1.
    etransitivity; [apply words_from_drop_final_dot | ].
    fold (words (join (lit " ")
                   (firstn 8 (words (strip_end dot_or_space (trim s)))))).
    rewrite words_join.
    + rewrite length_firstn. lia.
    + apply List.Forall_forall. intros w Hw.
      assert (Hall : Forall is_word_text
                       (words (strip_end dot_or_space (trim s))))
        by now apply words_from_wf.
      rewrite List.Forall_forall in Hall. apply Hall.
      revert Hw. generalize 8%nat. generalize (words (strip_end dot_or_space (trim s))).
      intros l n. revert l. induction n as [ | n IHn]; intros [ | a l] Hw;
        cbn [firstn] in Hw; try contradiction.
      destruct Hw as [<- | Hw]; [now left | right; now apply IHn].
  - apply Nat.ltb_ge in Hlt. exact Hlt.
Qed.

(** C4 (amended): the normalized explanation is the input trimmed, with
    trailing periods and white space stripped; when that has more than
    eight white-space-delimited words it is replaced by its first eight
    words joined by single spaces, from which one final period is removed;
    the stripping removes a suffix of periods and white space and leaves no
    period or white space at the end; the result has at most eight words.
    The explanation of the specification gives "Excessive data sharing
    with many third party advertising". *)
Theorem explanation_truncation :
  (forall s,
      let t := strip_end dot_or_space (trim s) in
      normalizeExplanation s
      = if (8 <? length (words t))%nat
        then drop_final_dot (join (lit " ") (firstn 8 (words t)))
        else t)
  /\ (forall s,
         exists suffix,
           s = strip_end dot_or_space s ++ suffix
           /\ forallb dot_or_space suffix = true
           /\ match rev (strip_end dot_or_space s) with
              | c :: _ => dot_or_space c = false
              | [] => True
              end)
  /\ (forall s, (length (words (normalizeExplanation s)) <= 8)%nat)
  /\ normalizeExplanation
       (lit "Excessive data sharing with many third party advertising partners.")
     = lit "Excessive data sharing with many third party advertising".
Proof.
  split; [exact normalizeExplanation_eq | ].
  split; [exact (strip_end_spec dot_or_space) | ].
  split; [exact normalizeExplanation_words | ].
  vm_compute. reflexivity.
Qed.

(** C4 as stated fails: with an eighth word that ends in two periods, the
    result is neither the first eight words nor free of a final period. *)
Lemma explanation_truncation_counterexample :
  ~ (forall s, normalizeExplanation s = spec_explanation s).
Proof.
  intros H. specialize (H (lit "a b c d e f g h.. i")).
  vm_compute in H. discriminate H.
Qed.

(** ** Replies without a record *)

Lemma get_record_content (n : number) (e t : jsstring) :
  get (mk_record n e t) (lit "content") = VUndefined.
Proof. vm_compute. reflexivity. Qed.

Lemma get_record_score (n : number) (e t : jsstring) :
  get (mk_record n e t) (lit "privacy_score") = VNum n.
Proof. vm_compute. reflexivity. Qed.

Lemma get_record_explanation (n : number) (e t : jsstring) :
  get (mk_record n e t) (lit "score_explanation") = VStr e.
Proof. vm_compute. reflexivity. Qed.

Lemma get_record_summary (n : number) (e t : jsstring) :
  get (mk_record n e t) (lit "summary") = VStr t.
Proof. vm_compute. reflexivity. Qed.

Lemma get_opt_record (n : number) (e t k : jsstring) :
  get_opt (mk_record n e t) k = get (mk_record n e t) k.
Proof. reflexivity. Qed.

Lemma rawScore_mk_record (n : number) (e t : jsstring) :
  rawScore (mk_record n e t) = VNum n.
Proof.
  unfold rawScore. rewrite !get_opt_record, get_record_score. reflexivity.
Qed.

(** A record with a number and two strings is normalized field by field. *)
Lemma normalizeRecord_mk_record nts (n : number) (e t : jsstring) :
  normalizeRecord nts (mk_record n e t)
  = inr (mkSummary (clampScore n) (normalizeExplanation e) t).
Proof.
  unfold normalizeRecord. rewrite rawScore_mk_record, !get_opt_record.
  rewrite get_record_explanation, get_record_summary.
  cbn [ToNumber ToString nullish throwing].
  cbn [privacy_score score_explanation summary is_string negb orb].
  destruct (clampScore_range n) as (z & Hz & Hc).
  rewrite Hc, (num_lt_range z Hz). reflexivity.
Qed.

(** The record of the fallback when no line holds a score. *)
Lemma extract_without_score (content : value) :
  detect_score (lines_of (stripCodeFences (text_of content))) 0 = None ->
  exists text,
    extractFromUnstructured content
    = mk_record (num_of_Z 5)
        (lit "No explicit score provided; using neutral score.") text.
Proof.
  intros H. unfold extractFromUnstructured. cbv zeta. rewrite H.
  cbn [option_map]. eexists. reflexivity.
Qed.

(** With nothing to parse in the content or in the alternative fields,
    the record is the one of the fallback. *)
Lemma findRecord_fallback nts (data : value) (n : number) (e t : jsstring) :
  data <> VUndefined -> data <> VNull ->
  truthy (tryParseJsonFromContent (rawContentOf data)) = false ->
  (truthy (altContentOf data) = true ->
   truthy (tryParseJsonFromContent (altContentOf data)) = false) ->
  extractFromUnstructured (rawContentOf data) = mk_record n e t ->
  findRecord nts data = Some (mk_record n e t).
Proof.
  intros Hu Hn Hraw Halt Hex.
  assert (Hbody :
    (let rawContent := rawContentOf data in
     let parsed := tryParseJsonFromContent rawContent in
     let parsed :=
       if negb (truthy parsed) then
         let altContent := altContentOf data in
         if truthy altContent then tryParseJsonFromContent altContent
         else parsed
       else parsed in
     let parsed :=
       if negb (truthy parsed) then extractFromUnstructured rawContent
       else parsed in
     let parsed :=
       if truthy parsed && is_object parsed
          && truthy (get parsed (lit "content"))
          && is_string (get parsed (lit "content"))
       then
         let inner := tryParseJsonFromContent (get parsed (lit "content")) in
         if truthy inner then inner else parsed
       else parsed in
     if isArray parsed then
       let again := tryParseJsonFromContent parsed in
       if truthy again then Some again
       else option_map (fun s => extractFromUnstructured (VStr s))
              (ToString nts parsed)
     else Some parsed) = Some (mk_record n e t)).
  { cbv zeta. rewrite Hraw. cbn [negb].
    assert (Hp : truthy (if truthy (altContentOf data)
                         then tryParseJsonFromContent (altContentOf data)
                         else tryParseJsonFromContent (rawContentOf data))
                 = false).
    { destruct (truthy (altContentOf data)); [now apply Halt | exact Hraw]. }
    rewrite Hp. cbn [negb]. rewrite Hex, get_record_content. reflexivity. }
  destruct data; try contradiction; exact Hbody.
Qed.

(** C2 (amended): when neither the content of the reply nor its
    alternative fields hold JSON that can be used, and no line of the
    content matches a score pattern, the record returned has the neutral
    score 5 and the generic explanation; this covers a content that is
    empty or not a string, for which no error is raised; and no reply makes
    the normalization raise its missing-fields or out-of-range error. *)
Theorem total_failure (nts : number -> jsstring) :
  (forall data,
      data <> VUndefined -> data <> VNull ->
      truthy (tryParseJsonFromContent (rawContentOf data)) = false ->
      (truthy (altContentOf data) = true ->
       truthy (tryParseJsonFromContent (altContentOf data)) = false) ->
      detect_score (lines_of (stripCodeFences (text_of (rawContentOf data)))) 0
      = None ->
      exists text,
        normalizeReply nts data
        = inr (mkSummary (num_of_Z 5)
                 (lit "No explicit score provided; using neutral score") text))
  /\ (forall data,
         normalizeReply nts data <> inl MissingRequiredFields
         /\ normalizeReply nts data <> inl ScoreOutOfRange)
  /\ normalizeReply nts (chat_reply (VStr (lit "no usable content at all ???")))
     = inr (mkSummary (num_of_Z 5)
              (lit "No explicit score provided; using neutral score")
              (lit "no usable content at all ???"))
  /\ normalizeReply nts (chat_reply (VStr []))
     = inr (mkSummary (num_of_Z 5)
              (lit "No explicit score provided; using neutral score") [])
  /\ normalizeReply nts (chat_reply VUndefined)
     = inr (mkSummary (num_of_Z 5)
              (lit "No explicit score provided; using neutral score") [])
  /\ normalizeReply nts (chat_reply (VNum (num_of_Z 7)))
     = inr (mkSummary (num_of_Z 5)
              (lit "No explicit score provided; using neutral score") []).
Proof.
  split; [ | split; [ | repeat split; vm_compute; reflexivity]].
  - intros data Hu Hn Hraw Halt Hscore.
    destruct (extract_without_score _ Hscore) as [text Hex].
    exists text. unfold normalizeReply.
    rewrite (findRecord_fallback nts data _ _ _ Hu Hn Hraw Halt Hex).
    cbn [throwing]. rewrite normalizeRecord_mk_record. reflexivity.
  - intros data. split; intros H; apply normalizeReply_inl in H; discriminate H.
Qed.

Lemma total_failure_witness :
  exists text,
    normalizeReply (fun _ => [])
      (chat_reply (VStr (lit "I cannot help with that.")))
    = inr (mkSummary (num_of_Z 5)
             (lit "No explicit score provided; using neutral score") text).
Proof.
  apply (proj1 (total_failure (fun _ => []))
           (chat_reply (VStr (lit "I cannot help with that.")))).
  - discriminate.
  - discriminate.
  - vm_compute. reflexivity.
  - vm_compute. discriminate.
  - vm_compute. reflexivity.
Defined.

(** C2 as stated fails: a reply with an empty content raises nothing; it
    gives the neutral record. *)
Lemma total_failure_counterexample :
  ~ (forall data,
        rawContentOf data = VStr [] ->
        exists err, normalizeReply (fun _ => []) data = inl err).
Proof.
  intros H. destruct (H (chat_reply (VStr [])) eq_refl) as [err He].
  vm_compute in He. discriminate He.
Qed.

(** ** The stored summaries *)

(** An address with a scheme is not a name inherited from
    [Object.prototype]: none of those names holds a colon. *)
Lemma address_not_inherited (url : jsstring) :
  includes url (lit ":") = true -> inherited url = false.
Proof.
  intros H. unfold inherited. apply not_true_is_false. intros Hin.
  apply existsb_exists in Hin as (name & Hname & Heq).
  apply str_eqb_eq in Heq. subst name.
  cbn [Object_prototype_names In] in Hname.
  repeat (destruct Hname as [<- | Hname]; [vm_compute in H; discriminate H | ]).
  destruct Hname.
Qed.

(** C10: for keys that are not names inherited from [Object.prototype],
    as every address is, [saveSummary] and [removeSummary] leave the entry
    of every other URL as it was; after them the URL itself holds the new
    entry, or none; and [removeSummary] returns true exactly when there
    was an entry for the URL. *)
Theorem storage_frame (url other : jsstring) (s : SummaryRecord)
    (hash : jsstring) (t : Z) (st : storage) :
  inherited url = false ->
  inherited other = false ->
  other <> url ->
  getSummary other (saveSummary url s hash t st) = getSummary other st
  /\ getSummary other (fst (removeSummary url st)) = getSummary other st
  /\ getSummary url (saveSummary url s hash t st) = Some (Entry s hash t)
  /\ getSummary url (fst (removeSummary url st)) = None
  /\ (snd (removeSummary url st) = true <-> exists e, getSummary url st = Some e).
Proof.
  intros _ _ Hne. unfold getSummary, saveSummary, removeSummary.
  cbn [read_summaries].
  repeat split.
  - now rewrite lookup_insert_ne.
  - destruct (read_summaries st !! url) eqn:E; cbn [fst read_summaries];
      [now rewrite lookup_delete_ne | reflexivity].
  - now rewrite lookup_insert_eq.
  - destruct (read_summaries st !! url) eqn:E; cbn [fst read_summaries];
      [now rewrite lookup_delete_eq | exact E].
  - destruct (read_summaries st !! url) eqn:E; cbn [snd]; [eauto | discriminate].
  - intros [e He]. now rewrite He.
Qed.

Lemma storage_frame_witness :
  getSummary demo_url (fst (removeSummary (lit "https://b.example/terms") demo_storage))
  = getSummary demo_url demo_storage.
Proof.
  apply (storage_frame (lit "https://b.example/terms") demo_url
           (mkSummary (num_of_Z 0) [] []) [] 0 demo_storage).
  - reflexivity.
  - reflexivity.
  - vm_compute. discriminate.
Defined.

(** ** White space *)

Lemma take_drop_while (p : N -> bool) (s : jsstring) :
  s = take_while p s ++ drop_while p s.
Proof.
  induction s as [ | c t IH]; [reflexivity | ].
  cbn [take_while drop_while]. destruct (p c); [ | reflexivity].
  cbn. now rewrite <- IH.
Qed.

Lemma drop_while_head (p : N -> bool) (s : jsstring) (c : N) (t : jsstring) :
  drop_while p s = c :: t -> p c = false.
Proof.
  induction s as [ | d u IH]; [discriminate | ].
  cbn [drop_while]. destruct (p d) eqn:Hd; [exact IH | ].
  now intros [= <- <-].
Qed.

Lemma take_while_all (p : N -> bool) (s : jsstring) :
  forallb p (take_while p s) = true.
Proof.
  induction s as [ | c t IH]; [reflexivity | ].
  cbn [take_while]. destruct (p c) eqn:Hc; [ | reflexivity].
  cbn. now rewrite Hc.
Qed.

Lemma drop_while_idem (p : N -> bool) (s : jsstring) :
  drop_while p (drop_while p s) = drop_while p s.
Proof.
  induction s as [ | c t IH]; [reflexivity | ].
  cbn [drop_while]. destruct (p c) eqn:Hc; [exact IH | ].
  cbn [drop_while]. now rewrite Hc.
Qed.

Lemma take_while_app (p : N -> bool) (a b : jsstring) :
  forallb p a = true -> take_while p (a ++ b) = a ++ take_while p b.
Proof.
  induction a as [ | c t IH]; [reflexivity | ].
  cbn [forallb app take_while]. intros H.
  apply andb_true_iff in H as [Hc Ht]. rewrite Hc. now rewrite IH.
Qed.

Lemma drop_while_app (p : N -> bool) (a b : jsstring) :
  forallb p a = true -> drop_while p (a ++ b) = drop_while p b.
Proof.
  induction a as [ | c t IH]; [reflexivity | ].
  cbn [forallb app drop_while]. intros H.
  apply andb_true_iff in H as [Hc Ht]. rewrite Hc. now apply IH.
Qed.

(** *** The first replacement: runs of blanks *)

Lemma search_plus_class (p : N -> bool) (pre rest acc : jsstring) :
  search_from (rplus (RClass p)) pre rest acc
  = match drop_while (fun c => negb (p c)) rest with
    | [] => None
    | c :: t =>
        Some (MatchResult
                (rev acc ++ take_while (fun c => negb (p c)) rest)
                (MState (rev (take_while p t) ++ c
                           :: rev (take_while (fun c => negb (p c)) rest) ++ pre)
                   (drop_while p t) []))
    end.
Proof.
  revert pre acc. induction rest as [ | c t IH]; intros pre acc; [reflexivity | ].
  cbn [search_from]. rewrite rmatch_plus_class.
  cbn [drop_while take_while]. destruct (p c) eqn:Hc; cbn [negb].
  - destruct (run_states_head p (c :: pre) t []) as [tl ->].
    cbn [rev app]. now rewrite app_nil_r.
  - rewrite IH. destruct (drop_while (fun c => negb (p c)) t); [reflexivity | ].
    cbn [rev]. now rewrite <- !app_assoc.
Qed.

Lemma collapse_from_skip (p : N -> bool) (rep a r : jsstring) :
  forallb (fun c => negb (p c)) a = true ->
  collapse_from p rep false (a ++ r) = a ++ collapse_from p rep false r.
Proof.
  induction a as [ | c t IH]; [reflexivity | ].
  cbn [forallb app collapse_from]. intros H.
  apply andb_true_iff in H as [Hc Ht]. apply negb_true_iff in Hc.
  rewrite Hc. now rewrite IH.
Qed.

Lemma collapse_from_in_run (p : N -> bool) (rep t : jsstring) :
  collapse_from p rep true t = collapse_from p rep false (drop_while p t).
Proof.
  induction t as [ | c t IH]; [reflexivity | ].
  cbn [collapse_from drop_while]. destruct (p c) eqn:Hc; [exact IH | ].
  cbn [collapse_from]. now rewrite Hc.
Qed.

(** A global replacement of [/[...]+/] replaces each run. *)
Lemma replace_all_plus_class (p : N -> bool) (rep : jsstring) (fuel : nat)
    (pre rest : jsstring) :
  (length rest < fuel)%nat ->
  replace_all_from (rplus (RClass p)) rep fuel pre rest
  = collapse_from p rep false rest.
Proof.
  revert pre rest. induction fuel as [ | f IH]; intros pre rest Hlen; [lia | ].
  cbn [replace_all_from]. rewrite search_plus_class.
  pose proof (take_drop_while (fun c => negb (p c)) rest) as Hsplit.
  pose proof (take_while_all (fun c => negb (p c)) rest) as Hnp.
  destruct (drop_while (fun c => negb (p c)) rest) as [ | c t] eqn:Hd.
  - rewrite Hsplit at 2. rewrite collapse_from_skip by exact Hnp.
    cbn. rewrite app_nil_r. now rewrite app_nil_r in Hsplit.
  - apply drop_while_head in Hd as Hc. apply negb_false_iff in Hc.
    cbn [mr_skipped mr_end m_rest m_pre rev app].
    apply (f_equal (@length N)) in Hsplit as Hl.
    rewrite length_app in Hl. cbn [length] in Hl.
    pose proof (drop_while_length p t) as Hdl.
    rewrite (proj2 (Nat.eqb_neq _ _)) by lia.
    rewrite IH by lia.
    rewrite Hsplit at 2. rewrite collapse_from_skip by exact Hnp.
    cbn [collapse_from]. rewrite Hc, collapse_from_in_run. reflexivity.
Qed.

Lemma replace_all_blanks (s : jsstring) :
  replace_all re_blanks (lit " ") s = collapse_from is_blank (lit " ") false s.
Proof. unfold replace_all, re_blanks. apply replace_all_plus_class. lia. Qed.

Lemma blank_is_space (c : N) : is_blank c = true -> is_space c = true.
Proof.
  unfold is_blank, is_space. intros H.
  repeat (apply orb_true_iff in H as [H | H]); apply N.eqb_eq in H; now subst.
Qed.

Lemma collapse_collapsed (s : jsstring) (in_run : bool) :
  collapsed_from in_run (collapse_from is_blank (lit " ") in_run s) = true.
Proof.
  revert in_run. induction s as [ | c t IH]; intros in_run; [reflexivity | ].
  cbn [collapse_from]. destruct (is_blank c) eqn:Hc.
  - destruct in_run; [apply IH | ].
    change (lit " " ++ collapse_from is_blank (lit " ") true t)
      with (32%N :: collapse_from is_blank (lit " ") true t).
    cbn [collapsed_from]. rewrite IH. reflexivity.
  - cbn [collapsed_from]. unfold unit_ok. rewrite Hc. cbn [negb orb andb].
    assert (H32 : (c =? 32)%N = false).
    { destruct (N.eqb_spec c 32) as [-> | ]; [discriminate Hc | reflexivity]. }
    rewrite H32, andb_false_r. cbn [negb andb]. apply IH.
Qed.

(** *** The second replacement: white space around a line feed *)

Lemma rmatch_lf_spaces (pre rest : jsstring) (caps : list (nat * jsstring)) :
  rmatch (RSeq (chr LF) ws_star) (MState pre rest caps)
  = match rest with
    | c :: t => if (LF =? c)%N then run_states is_space (c :: pre) t caps else []
    | [] => []
    end.
Proof.
  change (rmatch (RSeq (chr LF) ws_star) (MState pre rest caps))
    with (flat_map (rmatch ws_star) (rmatch (chr LF) (MState pre rest caps))).
  unfold chr. cbn [rmatch m_rest m_pre m_caps].
  destruct rest as [ | c t]; [reflexivity | ].
  destruct (LF =? c)%N; [ | reflexivity].
  rewrite flat_map_single. apply rmatch_star_class.
Qed.

Lemma not_space_not_lf (c : N) : is_space c = false -> (LF =? c)%N = false.
Proof.
  intros H. destruct (N.eqb_spec LF c) as [<- | ]; [discriminate H | reflexivity].
Qed.

(** At a position, [/\s*\n\s*/] matches when the white space there holds
    a line feed, and then takes all of it. *)
Lemma flat_map_line_break (pre rest : jsstring) (caps : list (nat * jsstring)) :
  if has_lf (take_while is_space rest)
  then exists pre' tl,
         flat_map (rmatch (RSeq (chr LF) ws_star))
           (run_states is_space pre rest caps)
         = MState pre' (drop_while is_space rest) caps :: tl
  else flat_map (rmatch (RSeq (chr LF) ws_star))
         (run_states is_space pre rest caps) = [].
Proof.
  revert pre. induction rest as [ | c t IH]; intros pre.
  - cbn. reflexivity.
  - cbn [run_states take_while drop_while]. destruct (is_space c) eqn:Hc.
    + rewrite flat_map_app, flat_map_single, rmatch_lf_spaces.
      unfold has_lf in *. cbn [existsb]. specialize (IH (c :: pre)).
      destruct (existsb (N.eqb LF) (take_while is_space t)).
      * destruct IH as (pre' & tl & ->). rewrite orb_true_r.
        now exists pre', (tl ++ if (LF =? c)%N
                                then run_states is_space (c :: pre) t caps else []).
      * rewrite IH, orb_false_r. cbn [app]. destruct (LF =? c)%N; [ | reflexivity].
        destruct (run_states_head is_space (c :: pre) t caps) as [tl ->].
        now eexists _, tl.
    + cbn [has_lf existsb]. rewrite flat_map_single, rmatch_lf_spaces.
      now rewrite (not_space_not_lf c Hc).
Qed.

Lemma rmatch_line_break (pre rest : jsstring) :
  if has_lf (take_while is_space rest)
  then exists pre' tl,
         rmatch re_line_break (MState pre rest [])
         = MState pre' (drop_while is_space rest) [] :: tl
  else rmatch re_line_break (MState pre rest []) = [].
Proof.
  change (rmatch re_line_break (MState pre rest []))
    with (flat_map (rmatch (RSeq (chr LF) ws_star))
            (rmatch ws_star (MState pre rest []))).
  unfold ws_star at 2 4. rewrite rmatch_star_class.
  apply flat_map_line_break.
Qed.

(** The first match of [/\s*\n\s*/]: a run of white space with a line
    feed, after a text without line feed that does not end in white space
    and before a text that does not start with white space. *)
Lemma search_line_break (pre rest acc : jsstring) :
  match search_from re_line_break pre rest acc with
  | None => has_lf rest = false
  | Some m =>
      exists a run b pre',
        rest = a ++ run ++ b
        /\ mr_skipped m = rev acc ++ a
        /\ mr_end m = MState pre' b []
        /\ run <> [] /\ forallb is_space run = true /\ has_lf run = true
        /\ has_lf a = false /\ ends_clean a
        /\ drop_while is_space b = b
  end.
Proof.
  revert pre acc. induction rest as [ | c t IH]; intros pre acc.
  - reflexivity.
  - cbn [search_from]. pose proof (rmatch_line_break pre (c :: t)) as Hm.
    destruct (has_lf (take_while is_space (c :: t))) eqn:Hlf.
    + destruct Hm as (pre' & tl & ->).
      exists [], (take_while is_space (c :: t)),
        (drop_while is_space (c :: t)), pre'.
      cbn [app mr_skipped mr_end]. rewrite app_nil_r.
      repeat split.
      * apply take_drop_while.
      * intros E. rewrite E in Hlf. discriminate Hlf.
      * apply take_while_all.
      * exact Hlf.
      * apply drop_while_idem.
    + rewrite Hm. specialize (IH (c :: pre) (c :: acc)).
      assert (Hc : (LF =? c)%N = false).
      { destruct (is_space c) eqn:Hs; [ | now apply not_space_not_lf].
        cbn [take_while] in Hlf. rewrite Hs in Hlf. cbn [has_lf existsb] in Hlf.
        now apply orb_false_iff in Hlf as [Hlf _]. }
      destruct (search_from re_line_break (c :: pre) t (c :: acc)) as [m | ].
      * destruct IH as (a & run & b & pre' & Ht & Hsk & He & Hne & Hsp & Hrun
                        & Ha & Hclean & Hb).
        exists (c :: a), run, b, pre'.
        repeat split; try assumption.
        -- cbn. now rewrite Ht.
        -- rewrite Hsk. cbn [rev]. now rewrite <- app_assoc.
        -- unfold has_lf in *. cbn [existsb]. now rewrite Hc, Ha.
        -- unfold ends_clean in *. cbn [rev].
           destruct (rev a) as [ | x u] eqn:Hr; [ | exact Hclean].
           cbn [app].
           apply (f_equal (@rev N)) in Hr. rewrite rev_involutive in Hr.
           cbn in Hr. subst a. cbn [app] in Ht.
           destruct (is_space c) eqn:Hs; [ | reflexivity].
           cbn [take_while] in Hlf. rewrite Hs, Ht in Hlf.
           rewrite (take_while_app is_space run b Hsp) in Hlf.
           unfold has_lf in Hlf, Hrun. cbn [existsb] in Hlf.
           rewrite existsb_app, Hrun, orb_true_r in Hlf. discriminate Hlf.
      * unfold has_lf in *. cbn [existsb]. now rewrite Hc, IH.
Qed.

(** *** The invariant *)

Lemma distilled_from_app (prev : option N) (a b : jsstring) :
  distilled_from prev (a ++ b)
  = distilled_from prev a && distilled_from (last_or prev a) b.
Proof.
  revert prev. induction a as [ | c t IH]; intros prev; [reflexivity | ].
  cbn [app distilled_from last_or]. rewrite IH. now rewrite andb_assoc.
Qed.

Lemma distilled_from_None (prev : option N) (s : jsstring) :
  distilled_from prev s = true -> distilled_from None s = true.
Proof.
  destruct s as [ | c t]; [reflexivity | ].
  cbn [distilled_from pair_ok]. intros H.
  apply andb_true_iff in H as [H Ht]. apply andb_true_iff in H as [_ Hc].
  now rewrite Hc, Ht.
Qed.

Lemma last_or_rev (prev : option N) (a : jsstring) :
  last_or prev a = match rev a with x :: _ => Some x | [] => prev end.
Proof.
  revert prev. induction a as [ | c t IH]; intros prev; [reflexivity | ].
  cbn [last_or rev]. rewrite IH.
  destruct (rev t); reflexivity.
Qed.

Lemma collapsed_from_weaken (b : bool) (s : jsstring) :
  collapsed_from b s = true -> collapsed_from false s = true.
Proof.
  destruct s as [ | c t]; [reflexivity | ].
  cbn [collapsed_from andb negb]. intros H.
  apply andb_true_iff in H as [H Ht]. apply andb_true_iff in H as [Hc _].
  now rewrite Hc, Ht.
Qed.

Lemma collapsed_from_app (b : bool) (a r : jsstring) :
  collapsed_from b (a ++ r) = true ->
  collapsed_from b a = true /\ collapsed_from false r = true.
Proof.
  revert b. induction a as [ | c t IH]; intros b H.
  - split; [reflexivity | ]. now apply collapsed_from_weaken in H.
  - cbn [app collapsed_from] in *.
    apply andb_true_iff in H as [H Ht]. apply IH in Ht as [Ht Hr].
    now rewrite H, Ht.
Qed.

(** Without a line feed, what the first replacement leaves satisfies the
    invariant after a unit that is not a line feed. *)
Lemma collapsed_distilled (s : jsstring) (x : N) :
  collapsed_from (x =? 32)%N s = true -> has_lf s = false -> x <> LF ->
  distilled_from (Some x) s = true.
Proof.
  revert x. induction s as [ | c t IH]; intros x Hc Hlf Hx; [reflexivity | ].
  cbn [collapsed_from] in Hc. unfold has_lf in Hlf. cbn [existsb] in Hlf.
  apply andb_true_iff in Hc as [Hc Ht]. apply andb_true_iff in Hc as [Hu Hp].
  apply orb_false_iff in Hlf as [Hl Hlf].
  cbn [distilled_from pair_ok]. rewrite Hu, Hp.
  rewrite N.eqb_sym in Hl. rewrite Hl, andb_false_r.
  rewrite (proj2 (N.eqb_neq x LF) Hx). cbn [negb andb].
  apply IH; [exact Ht | exact Hlf | ].
  intros ->. rewrite N.eqb_refl in Hl. discriminate Hl.
Qed.

(** The same at the start of the text, or after a line feed when the text
    does not start with white space. *)
Lemma collapsed_distilled_start (prev : option N) (s : jsstring) :
  collapsed_from false s = true -> has_lf s = false ->
  prev = None \/ (prev = Some LF /\ drop_while is_space s = s) ->
  distilled_from prev s = true.
Proof.
  intros Hc Hlf Hprev. destruct s as [ | c t]; [reflexivity | ].
  assert (Ht : distilled_from (Some c) t = true).
  { cbn [collapsed_from] in Hc. unfold has_lf in Hlf. cbn [existsb] in Hlf.
    apply andb_true_iff in Hc as [_ Ht].
    apply orb_false_iff in Hlf as [Hl Hlf].
    apply collapsed_distilled; [exact Ht | exact Hlf | ].
    intros ->. rewrite N.eqb_refl in Hl. discriminate Hl. }
  assert (Hu : unit_ok c = true).
  { cbn [collapsed_from] in Hc. apply andb_true_iff in Hc as [Hc _].
    now apply andb_true_iff in Hc as [Hu _]. }
  cbn [distilled_from]. rewrite Hu, Ht, !andb_true_r.
  destruct Hprev as [-> | [-> Hd]]; [reflexivity | ].
  cbn [drop_while] in Hd. destruct (is_space c) eqn:Hs.
  - pose proof (drop_while_length is_space t) as Hl.
    apply (f_equal (@length N)) in Hd. cbn [length] in Hd. lia.
  - unfold has_lf in Hlf. cbn [existsb] in Hlf.
    apply orb_false_iff in Hlf as [Hl _]. rewrite N.eqb_sym in Hl.
    cbn [pair_ok]. rewrite Hs, Hl. change (LF =? 32)%N with false.
    now rewrite !andb_false_r.
Qed.

Lemma ends_clean_pair_ok (prev : option N) (a : jsstring) :
  a <> [] -> ends_clean a -> pair_ok (last_or prev a) LF = true.
Proof.
  intros Hne Hclean. rewrite last_or_rev. unfold ends_clean in Hclean.
  destruct (rev a) as [ | x u] eqn:Hr.
  - apply (f_equal (@rev N)) in Hr. rewrite rev_involutive in Hr. contradiction.
  - cbn [pair_ok]. rewrite Hclean.
    assert (Hx : (x =? LF)%N = false).
    { rewrite N.eqb_sym. now apply not_space_not_lf. }
    now rewrite Hx, andb_false_r.
Qed.

(** The second replacement, applied to what the first one leaves, gives a
    text that satisfies the invariant. *)
Lemma line_breaks_distilled (fuel : nat) (pre rest : jsstring) (prev : option N) :
  (length rest < fuel)%nat ->
  collapsed_from false rest = true ->
  prev = None \/ (prev = Some LF /\ drop_while is_space rest = rest) ->
  distilled_from prev (replace_all_from re_line_break [LF] fuel pre rest) = true.
Proof.
  revert pre rest prev.
  induction fuel as [ | f IH]; intros pre rest prev Hlen Hc Hprev; [lia | ].
  cbn [replace_all_from]. pose proof (search_line_break pre rest []) as Hs.
  destruct (search_from re_line_break pre rest []) as [m | ].
  - destruct Hs as (a & run & b & pre' & Hrest & Hsk & He & Hne & Hsp & Hrun
                    & Ha & Hclean & Hb).
    rewrite Hsk, He. cbn [rev app m_rest m_pre].
    assert (Hlr : (0 < length run)%nat) by (destruct run; [contradiction | cbn; lia]).
    apply (f_equal (@length N)) in Hrest as Hl. rewrite !length_app in Hl.
    rewrite (proj2 (Nat.eqb_neq _ _)) by lia.
    rewrite Hrest in Hc. apply collapsed_from_app in Hc as [Hca Hc].
    apply collapsed_from_app in Hc as [_ Hcb].
    rewrite distilled_from_app. apply andb_true_iff. split.
    + apply collapsed_distilled_start; [exact Hca | exact Ha | ].
      destruct Hprev as [-> | [-> Hd]]; [now left | right; split; [reflexivity | ]].
      destruct a as [ | c a']; [reflexivity | ].
      rewrite Hrest in Hd. cbn [app drop_while] in *.
      destruct (is_space c); [ | reflexivity].
      pose proof (drop_while_length is_space (a' ++ run ++ b)) as Hdl.
      apply (f_equal (@length N)) in Hd. cbn [length] in Hd. lia.
    + cbn [distilled_from].
      rewrite (IH pre' b (Some LF)); [ | lia | exact Hcb | now right ].
      rewrite andb_true_r. apply andb_true_iff. split; [ | reflexivity].
      destruct a as [ | c a'].
      * cbn [last_or]. destruct Hprev as [-> | [-> Hd]]; [reflexivity | ].
        exfalso. rewrite Hrest in Hd. cbn [app] in Hd.
        destruct run as [ | r run']; [contradiction | ].
        cbn [forallb] in Hsp. apply andb_true_iff in Hsp as [Hr _].
        cbn [app drop_while] in Hd. rewrite Hr in Hd.
        pose proof (drop_while_length is_space (run' ++ b)) as Hdl.
        apply (f_equal (@length N)) in Hd. cbn [length] in Hd. lia.
      * apply ends_clean_pair_ok; [discriminate | exact Hclean].
  - now apply collapsed_distilled_start.
Qed.

Lemma trimEnd_prefix (x : jsstring) :
  x = trimEnd x ++ rev (take_while is_space (rev x)).
Proof.
  unfold trimEnd. rewrite <- rev_app_distr, <- take_drop_while.
  now rewrite rev_involutive.
Qed.

Lemma trim_no_outer_space (s : jsstring) : no_outer_space (trim s) = true.
Proof.
  unfold no_outer_space, trim, trimStart. apply andb_true_iff. split.
  - pose proof (trimEnd_prefix (drop_while is_space s)) as Hp.
    destruct (trimEnd (drop_while is_space s)) as [ | c t]; [reflexivity | ].
    cbn [app] in Hp. apply drop_while_head in Hp. now rewrite Hp.
  - unfold trimEnd. rewrite rev_involutive.
    destruct (drop_while is_space (rev (drop_while is_space s))) as [ | c t] eqn:Hd;
      [reflexivity | ].
    apply drop_while_head in Hd. now rewrite Hd.
Qed.

Lemma trim_distilled (s : jsstring) :
  distilled_from None s = true -> distilled_from None (trim s) = true.
Proof.
  intros H. unfold trim, trimStart.
  rewrite (take_drop_while is_space s), distilled_from_app in H.
  apply andb_true_iff in H as [_ H]. apply distilled_from_None in H.
  rewrite (trimEnd_prefix (drop_while is_space s)), distilled_from_app in H.
  now apply andb_true_iff in H as [H _].
Qed.

(** What [normalizeWhitespace] returns satisfies the invariant. *)
Lemma normalizeWhitespace_distilled (text : jsstring) :
  distilled (normalizeWhitespace text) = true.
Proof.
  unfold distilled, normalizeWhitespace.
  rewrite trim_no_outer_space. cbn [andb].
  apply trim_distilled. rewrite replace_all_blanks.
  unfold replace_all. apply line_breaks_distilled; [lia | | now left].
  apply collapse_collapsed.
Qed.

(** *** Lines and words are kept *)

Lemma is_lf_space (c : N) : (c =? LF)%N = true -> is_space c = true.
Proof. intros H. apply N.eqb_eq in H. now subst. Qed.

(** What follows a prefix is read from the state the prefix leaves. *)
Lemma line_words_from_congr (a y y' : jsstring) :
  (forall line cur, line_words_from line cur y = line_words_from line cur y') ->
  forall line cur,
    line_words_from line cur (a ++ y) = line_words_from line cur (a ++ y').
Proof.
  intros H. induction a as [ | c t IH]; intros line cur; [apply H | ].
  cbn [app line_words_from].
  destruct (c =? LF)%N; [now rewrite IH | ].
  destruct (is_space c); apply IH.
Qed.

Lemma push_word_nil (line : list jsstring) : push_word [] line = line.
Proof. reflexivity. Qed.

(** White space before the first word of a line is not seen. *)
Lemma line_words_leading (sp b : jsstring) :
  forallb is_space sp = true ->
  line_words_from [] [] (sp ++ b) = line_words_from [] [] b.
Proof.
  induction sp as [ | c t IH]; [reflexivity | ].
  cbn [forallb app line_words_from]. intros H.
  apply andb_true_iff in H as [Hc Ht]. rewrite Hc.
  destruct (c =? LF)%N; cbn [push_word emit_line]; now apply IH.
Qed.

(** White space at the end of the text is not seen. *)
Lemma line_words_trailing (sp : jsstring) (line : list jsstring) (cur : jsstring) :
  forallb is_space sp = true ->
  line_words_from line cur sp = line_words_from line cur [].
Proof.
  revert line cur. induction sp as [ | c t IH]; intros line cur; [reflexivity | ].
  cbn [forallb line_words_from]. intros H.
  apply andb_true_iff in H as [Hc Ht]. rewrite Hc.
  destruct (c =? LF)%N.
  - now rewrite (IH [] [] Ht).
  - now rewrite (IH _ [] Ht).
Qed.

(** A run of white space with a line feed ends the line, as a single line
    feed does. *)
Lemma line_words_run (run b : jsstring) (line : list jsstring) (cur : jsstring) :
  forallb is_space run = true -> has_lf run = true ->
  line_words_from line cur (run ++ b) = line_words_from line cur (LF :: b).
Proof.
  revert line cur. induction run as [ | c t IH]; intros line cur; [discriminate | ].
  cbn [forallb]. unfold has_lf. cbn [existsb app]. intros H Hlf.
  apply andb_true_iff in H as [Hc Ht].
  cbn [line_words_from]. rewrite Hc. change (LF =? LF)%N with true.
  rewrite (N.eqb_sym c LF). destruct (LF =? c)%N.
  - now rewrite (line_words_leading t b Ht).
  - cbn [orb] in Hlf. rewrite (IH _ [] Ht Hlf).
    cbn [line_words_from]. now change (LF =? LF)%N with true.
Qed.

Lemma blank_not_lf (c : N) : is_blank c = true -> (c =? LF)%N = false.
Proof.
  intros H. destruct (N.eqb_spec c LF) as [-> | ]; [discriminate H | reflexivity].
Qed.

(** The first replacement keeps the lines and their words. *)
Lemma line_words_collapse (s : jsstring) (in_run : bool)
    (line : list jsstring) (cur : jsstring) :
  (in_run = true -> cur = []) ->
  line_words_from line cur (collapse_from is_blank (lit " ") in_run s)
  = line_words_from line cur s.
Proof.
  revert in_run line cur.
  induction s as [ | c t IH]; intros in_run line cur Hrun; [reflexivity | ].
  cbn [collapse_from]. destruct (is_blank c) eqn:Hc.
  - cbn [line_words_from].
    rewrite (blank_not_lf c Hc), (blank_is_space c Hc).
    destruct in_run.
    + rewrite (Hrun eq_refl). cbn [push_word]. now apply IH.
    + change (lit " " ++ collapse_from is_blank (lit " ") true t)
        with (32%N :: collapse_from is_blank (lit " ") true t).
      cbn [line_words_from]. change (32 =? LF)%N with false.
      change (is_space 32) with true. cbv iota. now apply IH.
  - cbn [line_words_from].
    destruct (c =? LF)%N; [now rewrite IH | ].
    destruct (is_space c); now apply IH.
Qed.

(** So does the second one. *)
Lemma line_words_line_breaks (fuel : nat) (pre rest : jsstring)
    (line : list jsstring) (cur : jsstring) :
  (length rest < fuel)%nat ->
  line_words_from line cur (replace_all_from re_line_break [LF] fuel pre rest)
  = line_words_from line cur rest.
Proof.
  revert pre rest line cur.
  induction fuel as [ | f IH]; intros pre rest line cur Hlen; [lia | ].
  cbn [replace_all_from]. pose proof (search_line_break pre rest []) as Hs.
  destruct (search_from re_line_break pre rest []) as [m | ]; [ | reflexivity].
  destruct Hs as (a & run & b & pre' & Hrest & Hsk & He & Hne & Hsp & Hrun & _).
  rewrite Hsk, He. cbn [rev app m_rest m_pre].
  assert (Hlr : (0 < length run)%nat) by (destruct run; [contradiction | cbn; lia]).
  apply (f_equal (@length N)) in Hrest as Hl. rewrite !length_app in Hl.
  rewrite (proj2 (Nat.eqb_neq _ _)) by lia.
  rewrite Hrest. apply line_words_from_congr. intros line' cur'.
  rewrite (line_words_run run b line' cur' Hsp Hrun).
  cbn [line_words_from]. change (LF =? LF)%N with true. cbv iota.
  now rewrite IH by lia.
Qed.

Lemma line_words_trim (s : jsstring) : line_words (trim s) = line_words s.
Proof.
  unfold line_words, trim, trimStart.
  rewrite (take_drop_while is_space s) at 2.
  rewrite line_words_leading by apply take_while_all.
  rewrite (trimEnd_prefix (drop_while is_space s)) at 2.
  rewrite <- (app_nil_r (trimEnd (drop_while is_space s))) at 1.
  apply line_words_from_congr. intros line cur. symmetry.
  apply line_words_trailing.
  apply forallb_rev_true, take_while_all.
Qed.

(** [normalizeWhitespace] keeps the lines that hold a word, and their
    words. *)
Lemma normalizeWhitespace_line_words (text : jsstring) :
  line_words (normalizeWhitespace text) = line_words text.
Proof.
  unfold normalizeWhitespace. rewrite line_words_trim, replace_all_blanks.
  unfold line_words, replace_all.
  rewrite line_words_line_breaks by lia.
  now apply line_words_collapse.
Qed.

(** C7 (amended): [normalizeWhitespace] returns a text with no white
    space at either end, without tab, form feed or carriage return,
    without two spaces in a row and without white space on either side of
    a line feed (so without two line feeds in a row), which has the same
    lines holding a word, with the same words, as its input. With a DOM
    parser, [extractBodyTextFromHTML] returns such a text: the normalized
    text content of the body, or the empty string for an empty document.
    Without one it returns its input unchanged. *)
Theorem distilled_text_invariant :
  (forall text,
      distilled (normalizeWhitespace text) = true
      /\ line_words (normalizeWhitespace text) = line_words text)
  /\ (forall parser html,
         distilled (extractBodyTextFromHTML (Some parser) html) = true
         /\ extractBodyTextFromHTML (Some parser) html
            = match html with
              | [] => []
              | _ => normalizeWhitespace (parser html)
              end)
  /\ (forall html, extractBodyTextFromHTML None html = html).
Proof.
  split; [ | split].
  - intros text. split.
    + apply normalizeWhitespace_distilled.
    + apply normalizeWhitespace_line_words.
  - intros parser html. split; [ | reflexivity].
    destruct html; [reflexivity | apply normalizeWhitespace_distilled].
  - intros html. now destruct html.
Qed.

(** C7 as stated fails: without a DOM parser the input comes back as it
    is, white space included. *)
Lemma distilled_text_invariant_counterexample :
  ~ (forall dom_parser html,
        distilled (extractBodyTextFromHTML dom_parser html) = true).
Proof.
  intros H. specialize (H None (lit "  <p>a  b</p> ")).
  vm_compute in H. discriminate H.
Qed.

(** ** The cache *)

(** What the handler does, spelled out for every state of the storage. *)
Lemma handle_summarize_eq (h : host) (url : jsstring) (st : storage)
    (tr : list event) :
  handle_summarize h url (World st tr)
  = match fetch_policy h url with
    | None => (RespFailed, World st (Progress (lit "fetching_policy") :: tr))
    | Some html =>
        let text := policy_text h url html in
        let fetched :=
          Progress (lit "policy_fetched") :: Progress (lit "fetching_policy") :: tr in
        match getSummary url st with
        | Some e =>
            if str_eqb (e_hash e) (hashText text)
            then (RespSummary (e_summary e), World st fetched)
            else summarize_fresh h url text
                   (Some (delete url (read_summaries st)))
                   (StorageSet (delete url (read_summaries st)) :: fetched)
        | None => summarize_fresh h url text st fetched
        end
    end.
Proof.
  unfold handle_summarize, summarize_try, bind, emit, getSummaryM.
  destruct (fetch_policy h url) as [html | ]; [ | reflexivity].
  cbn [w_storage w_trace]. cbv zeta. unfold summarize_fresh.
  destruct (getSummary url st) as [e | ] eqn:He.
  - destruct (str_eqb (e_hash e) (hashText (policy_text h url html)));
      cbn [negb]; [reflexivity | ].
    unfold removeSummaryM, removeSummary, bind, set_summaries, ret, emit,
      summarizePolicy, bind, emit, throw, saveSummaryM, saveSummary, set_summaries.
    cbn [w_storage w_trace]. unfold getSummary in He. rewrite He.
    cbn [w_storage w_trace read_summaries].
    destruct (provider h (policy_text h url html) (language h))
      as [[ | | body | message | ] | data]; try reflexivity.
    cbn [w_storage w_trace].
    destruct (normalizeReply (number_to_string h) data) as [err | s]; reflexivity.
  - unfold summarizePolicy, bind, emit, throw, saveSummaryM, saveSummary,
      set_summaries, ret.
    cbn [w_storage w_trace].
    destruct (provider h (policy_text h url html) (language h))
      as [[ | | body | message | ] | data]; try reflexivity.
    cbn [w_storage w_trace].
    destruct (normalizeReply (number_to_string h) data) as [err | s]; reflexivity.
Qed.

Lemma no_key_iff (r : transport_error + value) :
  no_key r = true <-> r = inl ApiKeyNotSet.
Proof.
  destruct r as [[ | | body | message | ] | data]; cbn; split;
    try discriminate; reflexivity.
Qed.

(** The requests of a new summary: one, unless no key is stored. *)
Lemma summarize_fresh_calls (h : host) (url text : jsstring) (m : storage)
    (base : list event) :
  provider_calls (w_trace (snd (summarize_fresh h url text m base)))
  = if no_key (provider h text (language h))
    then provider_calls base
    else S (provider_calls base).
Proof.
  unfold summarize_fresh. cbv zeta.
  destruct (provider h text (language h)) as [[ | | body | message | ] | data];
    try reflexivity.
  cbn [no_key]. destruct (normalizeReply (number_to_string h) data); reflexivity.
Qed.

(** What is stored after it: the new record under the URL when the reply
    could be read, and what was there otherwise. *)
Lemma summarize_fresh_summary (h : host) (url text : jsstring) (m : storage)
    (base : list event) (data : value) (s : SummaryRecord) :
  provider h text (language h) = inr data ->
  normalizeReply (number_to_string h) data = inr s ->
  summarize_fresh h url text m base
  = (RespSummary s,
     World (Some (<[url := Entry s (hashText text) (now h)]> (read_summaries m)))
       (StorageSet (<[url := Entry s (hashText text) (now h)]> (read_summaries m))
          :: ProviderCall text (language h)
          :: Progress (lit "sending_request") :: base)).
Proof. intros Hp Hn. unfold summarize_fresh. now rewrite Hp, Hn. Qed.

Lemma summarize_fresh_answer (h : host) (url text : jsstring) (m : storage)
    (base : list event) :
  (exists data s,
      provider h text (language h) = inr data
      /\ normalizeReply (number_to_string h) data = inr s
      /\ fst (summarize_fresh h url text m base) = RespSummary s)
  \/ ((forall s, fst (summarize_fresh h url text m base) <> RespSummary s)
      /\ w_storage (snd (summarize_fresh h url text m base)) = m).
Proof.
  unfold summarize_fresh. cbv zeta.
  destruct (provider h text (language h)) as [[ | | body | message | ] | data];
    try (right; split; [intros s | reflexivity];
         cbn [fst mentions_api_key]; try destruct (includes _ _);
         discriminate).
  destruct (normalizeReply (number_to_string h) data) as [err | s] eqn:En.
  - right. split; [discriminate | reflexivity].
  - left. exists data, s. now repeat split.
Qed.

Lemma summarize_fresh_trace (h : host) (url text : jsstring) (m : storage)
    (base : list event) :
  exists later,
    w_trace (snd (summarize_fresh h url text m base))
    = later ++ Progress (lit "sending_request") :: base.
Proof.
  unfold summarize_fresh. cbv zeta.
  destruct (provider h text (language h)) as [[ | | body | message | ] | data];
    try (now exists []); try (now exists [ProviderCall text (language h)]).
  destruct (normalizeReply (number_to_string h) data) as [err | s].
  - now exists [ProviderCall text (language h)].
  - eexists [_; _]. reflexivity.
Qed.

(** C1: for a URL with a stored entry of hash F and a freshly computed
    hash F' of the distilled text. When F = F' the stored record is the
    answer and nothing is requested or written. When F <> F' the stored
    entry is removed, and the removal written, before anything else; then
    a request is sent to the provider, once, unless no key is stored, in
    which case nothing is sent; a reply that can be read is answered and
    stored under the URL with F'; any other outcome leaves the URL without
    entry. So the provider is asked exactly when F <> F' and a key is
    stored. *)
Theorem cache_validity (h : host) (url html : jsstring)
    (st : storage) (e : entry) (tr : list event) :
  fetch_policy h url = Some html ->
  getSummary url st = Some e ->
  let text := policy_text h url html in
  let F' := hashText text in
  let resp := fst (handle_summarize h url (World st tr)) in
  let w' := snd (handle_summarize h url (World st tr)) in
  let fetched :=
    Progress (lit "policy_fetched") :: Progress (lit "fetching_policy") :: tr in
  let removed := delete url (read_summaries st) in
  let asked :=
    Progress (lit "sending_request") :: StorageSet removed :: fetched in
  (provider_calls (w_trace w') = S (provider_calls tr)
   <-> e_hash e <> F' /\ provider h text (language h) <> inl ApiKeyNotSet)
  /\ (provider_calls (w_trace w') = provider_calls tr
      <-> e_hash e = F' \/ provider h text (language h) = inl ApiKeyNotSet)
  /\ (e_hash e = F' ->
      resp = RespSummary (e_summary e) /\ w_storage w' = st
      /\ w_trace w' = fetched)
  /\ (e_hash e <> F' ->
      (exists later, w_trace w' = later ++ asked)
      /\ (provider h text (language h) = inl ApiKeyNotSet ->
          resp = RespNoApiKey /\ w_storage w' = Some removed
          /\ w_trace w' = asked)
      /\ (forall data s,
             provider h text (language h) = inr data ->
             normalizeReply (number_to_string h) data = inr s ->
             resp = RespSummary s
             /\ w_storage w' = Some (<[url := Entry s F' (now h)]> removed)
             /\ w_trace w'
                = StorageSet (<[url := Entry s F' (now h)]> removed)
                    :: ProviderCall text (language h) :: asked)
      /\ ((forall s, resp <> RespSummary s) ->
          getSummary url (w_storage w') = None)).
Proof.
  intros Hf He text F' resp w' fetched removed asked. subst resp w'.
  rewrite handle_summarize_eq, Hf. cbv zeta. rewrite He.
  fold text. fold F'. fold fetched. fold removed.
  destruct (str_eqb (e_hash e) F') eqn:Heq.
  - apply str_eqb_eq in Heq. cbn [fst snd w_trace w_storage].
    assert (Hc : provider_calls fetched = provider_calls tr) by reflexivity.
    rewrite Hc.
    split; [split; [lia | tauto] | ].
    split; [split; [tauto | reflexivity] | ].
    split; [tauto | tauto].
  - apply str_eqb_neq in Heq.
    assert (Hc : provider_calls (StorageSet removed :: fetched)
                 = provider_calls tr) by reflexivity.
    rewrite summarize_fresh_calls, Hc.
    destruct (no_key (provider h text (language h))) eqn:Hk.
    + apply no_key_iff in Hk.
      split; [split; [lia | tauto] | ].
      split; [split; [tauto | reflexivity] | ].
      split; [tauto | ]. intros _.
      split; [apply summarize_fresh_trace | ].
      unfold summarize_fresh. rewrite Hk. cbn [fst snd w_storage w_trace].
      split; [now repeat split | ].
      split; [discriminate | ].
      intros _. unfold getSummary. cbn [read_summaries]. apply lookup_delete_eq.
    + assert (Hk' : provider h text (language h) <> inl ApiKeyNotSet).
      { intros E. apply no_key_iff in E. congruence. }
      clear Hk. rename Hk' into Hk.
      split; [split; [tauto | reflexivity] | ].
      split; [split; [lia | tauto] | ].
      split; [tauto | ]. intros _.
      split; [apply summarize_fresh_trace | ].
      split; [tauto | ].
      split.
      * intros data s Hp Hn.
        rewrite (summarize_fresh_summary _ _ _ _ _ _ _ Hp Hn).
        cbn [fst snd w_storage w_trace read_summaries]. now repeat split.
      * intros Hno.
        destruct (summarize_fresh_answer h url text (Some removed)
                    (StorageSet removed :: fetched))
          as [(data & s & _ & _ & Hs) | [_ Hst]].
        -- now destruct (Hno s).
        -- rewrite Hst. unfold getSummary. cbn [read_summaries].
           apply lookup_delete_eq.
Qed.

Lemma cache_validity_witness :
  fst (handle_summarize demo_host demo_url (World demo_storage []))
  = RespSummary (mkSummary (num_of_Z 3) (lit "Minimal tracking") (lit "# OK"))
  /\ provider_calls
       (w_trace (snd (handle_summarize demo_host demo_url (World demo_storage []))))
     = 1%nat.
Proof.
  destruct (cache_validity demo_host demo_url
              (lit "<html><body>Privacy policy</body></html>")
              demo_storage demo_entry [] eq_refl
              ltac:(vm_compute; reflexivity))
    as (Hcalls & _ & _ & Hstale).
  assert (Hne : e_hash demo_entry
                <> hashText (policy_text demo_host demo_url
                               (lit "<html><body>Privacy policy</body></html>"))).
  { vm_compute. discriminate. }
  destruct (Hstale Hne) as (_ & _ & Hgen & _).
  split.
  - exact (proj1 (Hgen (chat_reply (VStr fenced_reply))
                    (mkSummary (num_of_Z 3) (lit "Minimal tracking") (lit "# OK"))
                    eq_refl ltac:(vm_compute; reflexivity))).
  - apply (proj2 Hcalls). split; [exact Hne | discriminate].
Defined.

(** C1 as stated fails: with a stale entry and no key stored, the hashes
    differ and yet nothing is sent to the provider. *)
Lemma cache_validity_counterexample :
  ~ (forall (h : host) (url html : jsstring) (st : storage) (e : entry)
            (tr : list event),
        fetch_policy h url = Some html ->
        getSummary url st = Some e ->
        (provider_calls (w_trace (snd (handle_summarize h url (World st tr))))
         = S (provider_calls tr)
         <-> e_hash e <> hashText (policy_text h url html))).
Proof.
  intros H.
  pose proof (H keyless_host demo_url
                (lit "<html><body>Privacy policy</body></html>")
                demo_storage demo_entry [] eq_refl
                ltac:(vm_compute; reflexivity)) as [_ Hc].
  assert (Hne : e_hash demo_entry
                <> hashText (policy_text keyless_host demo_url
                               (lit "<html><body>Privacy policy</body></html>"))).
  { vm_compute. discriminate. }
  specialize (Hc Hne). vm_compute in Hc. discriminate Hc.
Qed.

(** ** The fingerprint *)

Lemma join_nil_concat (l : list jsstring) : join [] l = concat l.
Proof.
  induction l as [ | x [ | y t] IH]; [reflexivity | | ].
  - cbn. now rewrite app_nil_r.
  - change (join [] (x :: y :: t)) with (x ++ [] ++ join [] (y :: t)).
    rewrite IH. reflexivity.
Qed.

Lemma byte_cases (b : N) :
  (b < 256)%N -> In b (List.map N.of_nat (seq 0 256)).
Proof.
  intros H. apply in_map_iff. exists (N.to_nat b).
  split; [apply N2Nat.id | apply in_seq; lia].
Qed.

(** On a byte, [toString(16)] padded to two digits is the usual two-digit
    lowercase rendering. *)
Lemma byte_to_hex (b : N) :
  (b < 256)%N ->
  padStart0 2 (toString16 b) = hex_byte b
  /\ forallb is_hex_lower (hex_byte b) = true.
Proof.
  intros H.
  assert (Hall : forallb
                   (fun b => str_eqb (padStart0 2 (toString16 b)) (hex_byte b)
                             && forallb is_hex_lower (hex_byte b))
                   (List.map N.of_nat (seq 0 256)) = true)
    by (vm_compute; reflexivity).
  rewrite forallb_forall in Hall.
  specialize (Hall b (byte_cases b H)).
  apply andb_true_iff in Hall as [H1 H2].
  split; [now apply bool_decide_eq_true in H1 | exact H2].
Qed.

Lemma word_bytes_bound (x : Z) :
  Forall (fun b => (b < 256)%N) (Sha256.word_bytes x)
  /\ length (Sha256.word_bytes x) = 4%nat.
Proof.
  unfold Sha256.word_bytes. split; [ | reflexivity].
  apply List.Forall_forall. intros b Hb. apply in_map_iff in Hb as (i & <- & _).
  pose proof (Z.mod_pos_bound (x / 2 ^ (8 * i)) 256 ltac:(lia)). lia.
Qed.

(** A digest is thirty-two bytes. *)
Lemma digest_bound (bytes : list N) :
  Forall (fun b => (b < 256)%N) (Sha256.digest bytes)
  /\ length (Sha256.digest bytes) = 32%nat.
Proof.
  unfold Sha256.digest.
  generalize (fold_left Sha256.compress
                (Sha256.blocks
                   (length (Sha256.words_of (Sha256.pad (List.map Z.of_N bytes))))
                   (Sha256.words_of (Sha256.pad (List.map Z.of_N bytes))))
                Sha256.H0).
  intros s. unfold Sha256.digest_bytes.
  split.
  - repeat (apply Forall_app; split); apply word_bytes_bound.
  - rewrite !length_app.
    rewrite !(proj2 (word_bytes_bound _)). reflexivity.
Qed.

Lemma hex_byte_inj (a b : N) :
  (a < 256)%N -> (b < 256)%N -> hex_byte a = hex_byte b -> a = b.
Proof.
  intros Ha Hb. unfold hex_byte, hex_char. intros [= H1 H2].
  assert (a / 16 < 16)%N by (apply N.Div0.div_lt_upper_bound; lia).
  assert (b / 16 < 16)%N by (apply N.Div0.div_lt_upper_bound; lia).
  pose proof (N.mod_lt a 16 ltac:(lia)). pose proof (N.mod_lt b 16 ltac:(lia)).
  assert (a / 16 = b / 16)%N
    by (destruct (N.ltb_spec (a / 16) 10), (N.ltb_spec (b / 16) 10); lia).
  assert (a mod 16 = b mod 16)%N
    by (destruct (N.ltb_spec (a mod 16) 10), (N.ltb_spec (b mod 16) 10); lia).
  rewrite (N.div_mod a 16), (N.div_mod b 16) by lia. congruence.
Qed.

Lemma hex_bytes_inj (l1 l2 : list N) :
  Forall (fun b => (b < 256)%N) l1 -> Forall (fun b => (b < 256)%N) l2 ->
  concat (List.map hex_byte l1) = concat (List.map hex_byte l2) -> l1 = l2.
Proof.
  intros H1. revert l2. induction H1 as [ | a l1 Ha _ IH]; intros l2 H2 Heq.
  - destruct l2; [reflexivity | discriminate].
  - destruct H2 as [ | b l2 Hb H2]; [discriminate | ].
    cbn in Heq. injection Heq as E1 E2 E3.
    f_equal; [ | now apply IH].
    apply hex_byte_inj; try assumption. unfold hex_byte. congruence.
Qed.

Lemma hex_bytes_shape (l : list N) :
  Forall (fun b => (b < 256)%N) l ->
  length (concat (List.map hex_byte l)) = (2 * length l)%nat
  /\ forallb is_hex_lower (concat (List.map hex_byte l)) = true.
Proof.
  induction 1 as [ | b l Hb _ [IH1 IH2]]; [split; reflexivity | ].
  cbn [List.map concat]. split.
  - rewrite length_app, IH1. cbn. lia.
  - rewrite forallb_app, IH2, (proj2 (byte_to_hex b Hb)). reflexivity.
Qed.

Lemma hashText_hex (text : jsstring) :
  hashText text = concat (List.map hex_byte (Sha256.digest (utf8_encode text))).
Proof.
  unfold hashText. rewrite join_nil_concat. f_equal.
  apply map_ext_in. intros b Hb.
  apply byte_to_hex.
  pose proof (proj1 (digest_bound (utf8_encode text))) as Hall.
  rewrite List.Forall_forall in Hall. now apply Hall.
Qed.

(** *** UTF-8 *)

Lemma between_true (lo hi b : N) :
  (lo <= b <= hi)%N -> Utf8.between lo hi b = true.
Proof.
  intros [H1 H2]. unfold Utf8.between.
  now rewrite (proj2 (N.leb_le _ _) H1), (proj2 (N.leb_le _ _) H2).
Qed.

Lemma between_false (lo hi b : N) :
  (b < lo \/ hi < b)%N -> Utf8.between lo hi b = false.
Proof.
  intros H. unfold Utf8.between. apply andb_false_iff.
  destruct H as [H | H]; [left | right]; apply N.leb_gt; exact H.
Qed.

(** One scalar value, encoded and decoded. *)
Lemma decode_code_point (c : N) (rest : list N) :
  (c < 55296 \/ 57344 <= c < 1114112)%N ->
  Utf8.decode (utf8_of_code_point c ++ rest)
  = option_map (cons c) (Utf8.decode rest).
Proof.
  intros Hc. unfold utf8_of_code_point.
  destruct (c <? 128)%N eqn:E1.
  { cbn [app Utf8.decode]. now rewrite E1. }
  apply N.ltb_ge in E1.
  destruct (c <? 2048)%N eqn:E2.
  { apply N.ltb_lt in E2. cbn [app Utf8.decode].
    rewrite (proj2 (N.ltb_ge _ _)) by div_lia.
    rewrite between_true by div_lia.
    unfold Utf8.continuation. rewrite between_true by div_lia.
    do 2 f_equal. div_lia. }
  apply N.ltb_ge in E2.
  destruct (c <? 65536)%N eqn:E3.
  { apply N.ltb_lt in E3. cbn [app Utf8.decode].
    rewrite (proj2 (N.ltb_ge _ _)) by div_lia.
    rewrite between_false by div_lia.
    rewrite between_true by div_lia.
    assert (H2 : Utf8.second_of_three (224 + c / 4096) (128 + (c / 64) mod 64)
                 = true).
    { unfold Utf8.second_of_three, Utf8.continuation.
      destruct (224 + c / 4096 =? 224)%N eqn:Ea.
      - apply N.eqb_eq in Ea. apply between_true. div_lia.
      - apply N.eqb_neq in Ea.
        destruct (224 + c / 4096 =? 237)%N eqn:Eb.
        + apply N.eqb_eq in Eb. apply between_true. div_lia.
        + apply between_true. div_lia. }
    rewrite H2. unfold Utf8.continuation. rewrite between_true by div_lia.
    cbn [andb]. do 2 f_equal. div_lia. }
  apply N.ltb_ge in E3. cbn [app Utf8.decode].
  rewrite (proj2 (N.ltb_ge _ _)) by div_lia.
  rewrite between_false by div_lia.
  rewrite between_false by div_lia.
  rewrite between_true by div_lia.
  assert (H2 : Utf8.second_of_four (240 + (c / 262144) mod 8)
                 (128 + (c / 4096) mod 64) = true).
  { unfold Utf8.second_of_four, Utf8.continuation.
    destruct (240 + (c / 262144) mod 8 =? 240)%N eqn:Ea.
    - apply N.eqb_eq in Ea. apply between_true. div_lia.
    - apply N.eqb_neq in Ea.
      destruct (240 + (c / 262144) mod 8 =? 244)%N eqn:Eb.
      + apply N.eqb_eq in Eb. apply between_true. div_lia.
      + apply between_true. div_lia. }
  rewrite H2. unfold Utf8.continuation. rewrite !between_true by div_lia.
  cbn [andb]. do 2 f_equal. div_lia.
Qed.

(** The encoding of a string stands for its scalar values. *)
Lemma utf8_encode_decode (s : jsstring) :
  Forall (fun c => (c < 65536)%N) s ->
  Utf8.decode (utf8_encode s) = Some (Utf8.scalar_values s).
Proof.
  remember (length s) as n eqn:Hn. revert s Hn.
  induction n as [n IH] using lt_wf_ind. intros s Hn Hs.
  destruct s as [ | c t]; [reflexivity | ].
  inversion Hs as [ | ? ? Hc Ht]; subst.
  cbn [utf8_encode Utf8.scalar_values].
  destruct (is_high_surrogate c) eqn:Eh.
  - unfold is_high_surrogate in Eh. apply andb_true_iff in Eh as [Eh1 Eh2].
    apply N.leb_le in Eh1, Eh2.
    destruct t as [ | d u].
    + rewrite <- (app_nil_r (utf8_of_code_point 65533)).
      rewrite decode_code_point by lia. reflexivity.
    + inversion Ht as [ | ? ? Hd Hu]; subst.
      destruct (is_low_surrogate d) eqn:El.
      * unfold is_low_surrogate in El. apply andb_true_iff in El as [El1 El2].
        apply N.leb_le in El1, El2.
        rewrite decode_code_point by lia.
        rewrite (IH (length u)) with (s := u); [reflexivity | | reflexivity | exact Hu].
        cbn [length]. lia.
      * rewrite decode_code_point by lia.
        rewrite (IH (length (d :: u))) with (s := d :: u);
          [reflexivity | | reflexivity | exact Ht].
        cbn [length]. lia.
  - unfold is_high_surrogate in Eh.
    destruct (is_low_surrogate c) eqn:El.
    + rewrite decode_code_point by lia.
      rewrite (IH (length t)) with (s := t); [reflexivity | | reflexivity | exact Ht].
      cbn [length]. lia.
    + unfold is_low_surrogate in El.
      rewrite decode_code_point.
      * rewrite (IH (length t)) with (s := t);
          [reflexivity | | reflexivity | exact Ht].
        cbn [length]. lia.
      * apply andb_false_iff in Eh, El.
        rewrite !N.leb_gt in Eh, El. lia.
Qed.

Lemma utf8_bytes (c : N) :
  Forall (fun b => (b < 256)%N) (utf8_of_code_point c).
Proof.
  unfold utf8_of_code_point.
  destruct (c <? 128)%N eqn:E1; [apply N.ltb_lt in E1 | ].
  { repeat constructor. lia. }
  destruct (c <? 2048)%N eqn:E2; [apply N.ltb_lt in E2 | ].
  { assert (c / 64 < 32)%N by (apply N.Div0.div_lt_upper_bound; lia).
    pose proof (N.mod_upper_bound c 64). repeat constructor; lia. }
  destruct (c <? 65536)%N eqn:E3; [apply N.ltb_lt in E3 | ].
  { assert (c / 4096 < 16)%N by (apply N.Div0.div_lt_upper_bound; lia).
    pose proof (N.mod_upper_bound (c / 64) 64).
    pose proof (N.mod_upper_bound c 64). repeat constructor; lia. }
  pose proof (N.mod_upper_bound (c / 262144) 8).
  pose proof (N.mod_upper_bound (c / 4096) 64).
  pose proof (N.mod_upper_bound (c / 64) 64).
  pose proof (N.mod_upper_bound c 64). repeat constructor; lia.
Qed.

Lemma between_bounds (lo hi b : N) :
  Utf8.between lo hi b = true -> (lo <= b <= hi)%N.
Proof.
  unfold Utf8.between. intros H. apply andb_true_iff in H as [H1 H2].
  apply N.leb_le in H1, H2. lia.
Qed.

(** The encoder is built from the encoding of the scalar values. *)
Lemma utf8_encode_scalar_values (s : jsstring) :
  utf8_encode s = concat (List.map utf8_of_code_point (Utf8.scalar_values s)).
Proof.
  remember (length s) as n eqn:Hn. revert s Hn.
  induction n as [n IH] using lt_wf_ind. intros s Hn.
  destruct s as [ | c t]; [reflexivity | ].
  cbn [utf8_encode Utf8.scalar_values].
  destruct (is_high_surrogate c).
  - destruct t as [ | d u]; [cbn [List.map concat]; now rewrite app_nil_r | ].
    destruct (is_low_surrogate d); cbn [List.map concat]; f_equal.
    + apply (IH (length u)); [subst n; cbn [length]; lia | reflexivity].
    + apply (IH (length (d :: u))); [subst n; cbn [length]; lia | reflexivity].
  - destruct (is_low_surrogate c); cbn [List.map concat]; f_equal;
      (apply (IH (length t)); [subst n; cbn [length]; lia | reflexivity]).
Qed.

Lemma utf8_encode_bytes (s : jsstring) :
  Forall (fun b => (b < 256)%N) (utf8_encode s).
Proof.
  rewrite utf8_encode_scalar_values.
  induction (Utf8.scalar_values s) as [ | c l IH]; [constructor | ].
  cbn [List.map concat]. apply Forall_app. split; [apply utf8_bytes | exact IH].
Qed.

(** A well-formed byte string is the encoding of the scalar values it
    stands for: no other byte string stands for them. *)
Lemma decode_encode (bytes : list N) : forall l,
  Utf8.decode bytes = Some l ->
  concat (List.map utf8_of_code_point l) = bytes.
Proof.
  remember (length bytes) as n eqn:Hn. revert bytes Hn.
  induction n as [n IH] using lt_wf_ind. intros bytes Hn l H.
  destruct bytes as [ | b1 t1]; [injection H as <-; reflexivity | ].
  cbn [Utf8.decode] in H.
  destruct (b1 <? 128)%N eqn:E1.
  { destruct (Utf8.decode t1) as [l1 | ] eqn:Ed; [ | discriminate].
    injection H as <-. cbn [List.map concat].
    rewrite (IH (length t1)) with (bytes := t1) by
      (subst n; cbn [length]; lia || reflexivity || exact Ed).
    unfold utf8_of_code_point. now rewrite E1. }
  apply N.ltb_ge in E1.
  destruct (Utf8.between 194 223 b1) eqn:E2.
  { apply between_bounds in E2.
    destruct t1 as [ | b2 t2]; [discriminate | ].
    destruct (Utf8.continuation b2) eqn:C2; [ | discriminate].
    apply between_bounds in C2.
    destruct (Utf8.decode t2) as [l2 | ] eqn:Ed; [ | discriminate].
    injection H as <-. cbn [List.map concat].
    rewrite (IH (length t2)) with (bytes := t2) by
      (subst n; cbn [length]; lia || reflexivity || exact Ed).
    unfold utf8_of_code_point.
    rewrite (proj2 (N.ltb_ge _ _)) by lia.
    rewrite (proj2 (N.ltb_lt _ _)) by lia.
    cbn [app]. f_equal; [div_lia | f_equal; div_lia]. }
  destruct (Utf8.between 224 239 b1) eqn:E3.
  { apply between_bounds in E3.
    destruct t1 as [ | b2 [ | b3 t3]]; try discriminate.
    destruct (Utf8.second_of_three b1 b2) eqn:C2; [ | discriminate].
    destruct (Utf8.continuation b3) eqn:C3; [ | discriminate].
    cbn [andb] in H.
    apply between_bounds in C3.
    assert (Hb2 : (128 <= b2 <= 191)%N
                  /\ (b1 = 224 -> 160 <= b2)%N /\ (b1 = 237 -> b2 <= 159)%N).
    { unfold Utf8.second_of_three, Utf8.continuation in C2.
      destruct (b1 =? 224)%N eqn:Ea;
        [apply N.eqb_eq in Ea | apply N.eqb_neq in Ea].
      - apply between_bounds in C2. lia.
      - destruct (b1 =? 237)%N eqn:Eb;
          [apply N.eqb_eq in Eb | apply N.eqb_neq in Eb];
          apply between_bounds in C2; lia. }
    destruct (Utf8.decode t3) as [l3 | ] eqn:Ed; [ | discriminate].
    injection H as <-. cbn [List.map concat].
    rewrite (IH (length t3)) with (bytes := t3) by
      (subst n; cbn [length]; lia || reflexivity || exact Ed).
    unfold utf8_of_code_point.
    rewrite (proj2 (N.ltb_ge _ _)) by lia.
    rewrite (proj2 (N.ltb_ge _ 2048)) by lia.
    rewrite (proj2 (N.ltb_lt _ _)) by lia.
    cbn [app]. f_equal; [div_lia | f_equal; [div_lia | f_equal; div_lia]]. }
  destruct (Utf8.between 240 244 b1) eqn:E4; [ | discriminate].
  apply between_bounds in E4.
  destruct t1 as [ | b2 [ | b3 [ | b4 t4]]]; try discriminate.
  destruct (Utf8.second_of_four b1 b2) eqn:C2; [ | discriminate].
  destruct (Utf8.continuation b3) eqn:C3; [ | discriminate].
  destruct (Utf8.continuation b4) eqn:C4; [ | discriminate].
  cbn [andb] in H.
  apply between_bounds in C3. apply between_bounds in C4.
  assert (Hb2 : (128 <= b2 <= 191)%N
                /\ (b1 = 240 -> 144 <= b2)%N /\ (b1 = 244 -> b2 <= 143)%N).
  { unfold Utf8.second_of_four, Utf8.continuation in C2.
    destruct (b1 =? 240)%N eqn:Ea;
      [apply N.eqb_eq in Ea | apply N.eqb_neq in Ea].
    - apply between_bounds in C2. lia.
    - destruct (b1 =? 244)%N eqn:Eb;
        [apply N.eqb_eq in Eb | apply N.eqb_neq in Eb];
        apply between_bounds in C2; lia. }
  destruct (Utf8.decode t4) as [l4 | ] eqn:Ed; [ | discriminate].
  injection H as <-. cbn [List.map concat].
  rewrite (IH (length t4)) with (bytes := t4) by
    (subst n; cbn [length]; lia || reflexivity || exact Ed).
  unfold utf8_of_code_point.
  rewrite (proj2 (N.ltb_ge _ _)) by lia.
  rewrite (proj2 (N.ltb_ge _ 2048)) by lia.
  rewrite (proj2 (N.ltb_ge _ 65536)) by lia.
  cbn [app].
  f_equal; [div_lia | f_equal; [div_lia | f_equal; [div_lia | f_equal; div_lia]]].
Qed.

(** The encoding of a string is the one byte string that stands for its
    scalar values. *)
Lemma utf8_encode_unique (s : jsstring) (bytes : list N) :
  Utf8.decode bytes = Some (Utf8.scalar_values s) -> bytes = utf8_encode s.
Proof.
  intros H. rewrite utf8_encode_scalar_values. symmetry.
  now apply decode_encode.
Qed.

(** *** SHA-256 on bit strings *)

Lemma bits_length n z : length (Fips.bits n z) = n.
Proof. induction n; cbn [Fips.bits length]; congruence. Qed.

Lemma bits_ext n z z' :
  (forall i, 0 <= i < Z.of_nat n -> Z.testbit z i = Z.testbit z' i) ->
  Fips.bits n z = Fips.bits n z'.
Proof.
  induction n; intros H; cbn [Fips.bits]; [reflexivity | ].
  f_equal; [apply H; lia | apply IHn; intros; apply H; lia].
Qed.

Lemma bits_mod n z : Fips.bits n (z mod 2 ^ Z.of_nat n) = Fips.bits n z.
Proof. apply bits_ext; intros; apply Z.mod_pow2_bits_low; lia. Qed.

Lemma bits_skipn k m z : skipn k (Fips.bits (k + m) z) = Fips.bits m z.
Proof. induction k; cbn [Nat.add Fips.bits skipn]; auto. Qed.

Lemma bits_firstn k m z :
  firstn k (Fips.bits (k + m) z) = Fips.bits k (Z.shiftr z (Z.of_nat m)).
Proof.
  induction k; cbn [Nat.add Fips.bits firstn]; [reflexivity | ].
  f_equal; [ | exact IHk].
  rewrite Z.shiftr_spec by lia. f_equal; lia.
Qed.

Lemma bits_split k m z :
  Fips.bits (k + m) z = Fips.bits k (Z.shiftr z (Z.of_nat m)) ++ Fips.bits m z.
Proof.
  rewrite <- (firstn_skipn k (Fips.bits (k + m) z)).
  now rewrite bits_firstn, bits_skipn.
Qed.

Lemma bits_zero n z :
  (forall i, 0 <= i < Z.of_nat n -> Z.testbit z i = false) ->
  Fips.bits n z = repeat false n.
Proof.
  induction n; intros H; cbn [Fips.bits repeat]; [reflexivity | ].
  f_equal; [apply H; lia | apply IHn; intros; apply H; lia].
Qed.

Lemma val_bound w : 0 <= Fips.val w < 2 ^ Z.of_nat (length w).
Proof.
  induction w as [ | b t IH]; cbn [Fips.val length]; [cbn; lia | ].
  rewrite Nat2Z.inj_succ, Z.pow_succ_r by lia.
  destruct b; cbn [Z.b2z]; lia.
Qed.

Lemma val_app u v :
  Fips.val (u ++ v) = Fips.val u * 2 ^ Z.of_nat (length v) + Fips.val v.
Proof.
  induction u as [ | b t IH]; cbn [Fips.val app length]; [lia | ].
  rewrite IH, length_app, Nat2Z.inj_add, Z.pow_add_r by lia. ring.
Qed.

Lemma val_bits n z : Fips.val (Fips.bits n z) = z mod 2 ^ Z.of_nat n.
Proof.
  induction n; cbn [Fips.bits Fips.val].
  - cbn. now rewrite Z.mod_1_r.
  - rewrite bits_length, IHn.
    rewrite Nat2Z.inj_succ, Z.pow_succ_r by lia.
    assert (0 < 2 ^ Z.of_nat n) by (apply Z.pow_pos_nonneg; lia).
    rewrite Z.testbit_spec' by lia.
    rewrite (Z.mul_comm 2), Z.rem_mul_r by lia. lia.
Qed.

Lemma bits_val w : Fips.bits (length w) (Fips.val w) = w.
Proof.
  induction w as [ | b t IH]; cbn [Fips.bits Fips.val length]; [reflexivity | ].
  pose proof (val_bound t) as Hb.
  assert (0 < 2 ^ Z.of_nat (length t)) by (apply Z.pow_pos_nonneg; lia).
  f_equal.
  - apply Z.b2z_inj. rewrite Z.testbit_spec' by lia.
    rewrite Z.div_add_l by lia. rewrite (Z.div_small (Fips.val t)) by lia.
    destruct b; reflexivity.
  - transitivity (Fips.bits (length t) (Fips.val t)); [ | exact IH].
    apply bits_ext. intros i Hi.
    rewrite Z.add_comm.
    rewrite <- (Z.mod_pow2_bits_low _ (Z.of_nat (length t))) by lia.
    rewrite Z.mod_add by lia.
    rewrite Z.mod_small by lia. reflexivity.
Qed.

Lemma bits_inj u v : length u = length v -> Fips.val u = Fips.val v -> u = v.
Proof.
  intros Hl Hv. rewrite <- (bits_val u), <- (bits_val v). now rewrite Hl, Hv.
Qed.
Lemma word32_high x i : word32 x -> 32 <= i -> Z.testbit x i = false.
Proof.
  intros Hx Hi. rewrite <- (Z.mod_small x (2 ^ 32)) by exact Hx.
  apply Z.mod_pow2_bits_high. lia.
Qed.

Lemma word32_w32 x : word32 (Sha256.w32 x).
Proof. unfold word32, Sha256.w32. apply Z.mod_pos_bound. reflexivity. Qed.

Lemma word32_add32 x y : word32 (Sha256.add32 x y).
Proof. apply word32_w32. Qed.

Lemma zip_bits f op n x y :
  (forall i, 0 <= i < Z.of_nat n ->
     Z.testbit (op x y) i = f (Z.testbit x i) (Z.testbit y i)) ->
  Fips.zip f (Fips.bits n x) (Fips.bits n y) = Fips.bits n (op x y).
Proof.
  induction n; intros H; cbn [Fips.bits Fips.zip]; [reflexivity | ].
  f_equal; [symmetry; apply H; lia | apply IHn; intros; apply H; lia].
Qed.

Lemma band_bits n x y :
  Fips.band (Fips.bits n x) (Fips.bits n y) = Fips.bits n (Z.land x y).
Proof. apply zip_bits. intros. apply Z.land_spec. Qed.

Lemma bxor_bits n x y :
  Fips.bxor (Fips.bits n x) (Fips.bits n y) = Fips.bits n (Z.lxor x y).
Proof. apply zip_bits. intros. apply Z.lxor_spec. Qed.

Lemma bnot_bits n x :
  (n <= 32)%nat -> Fips.bnot (Fips.bits n x) = Fips.bits n (Sha256.not32 x).
Proof.
  intros Hn. unfold Fips.bnot.
  transitivity (Fips.bits n (Z.lnot x)).
  - clear Hn. induction n; cbn [Fips.bits List.map]; [reflexivity | ].
    f_equal; [ | exact IHn]. rewrite Z.lnot_spec by lia. reflexivity.
  - apply bits_ext. intros i Hi.
    replace (Sha256.not32 x) with (Z.lnot x + 1 * 2 ^ 32)
      by (unfold Sha256.not32, Z.lnot; lia).
    rewrite <- (Z.mod_pow2_bits_low (Z.lnot x + 1 * 2 ^ 32) 32) by lia.
    rewrite Z.mod_add by (cbn; lia).
    rewrite Z.mod_pow2_bits_low by lia. reflexivity.
Qed.

Lemma plus_bits x y :
  Fips.plus (Fips.bits 32 x) (Fips.bits 32 y) = Fips.bits 32 (Sha256.add32 x y).
Proof.
  unfold Fips.plus, Sha256.add32, Sha256.w32. rewrite !val_bits.
  change (Z.of_nat 32) with 32.
  rewrite <- Z.add_mod by (cbn; lia). reflexivity.
Qed.

Lemma rotr_bits_split (k m : nat) x :
  word32 x -> (k + m = 32)%nat -> (0 < m)%nat -> (0 < k)%nat ->
  skipn k (Fips.bits (k + m) x) ++ firstn k (Fips.bits (k + m) x)
  = Fips.bits (m + k) (Sha256.rotr (Z.of_nat m) x).
Proof.
  intros Hx Hkm Hm Hk.
  rewrite bits_skipn, bits_firstn, bits_split. f_equal.
  - apply bits_ext. intros i Hi.
    rewrite Z.shiftr_spec by lia. unfold Sha256.rotr, Sha256.w32.
    rewrite Z.lor_spec, Z.shiftr_spec by lia.
    rewrite (word32_high x (i + Z.of_nat k + Z.of_nat m)) by (exact Hx || lia).
    rewrite Z.mod_pow2_bits_low by lia.
    rewrite Z.shiftl_spec by lia. cbn [orb]. f_equal. lia.
  - apply bits_ext. intros i Hi.
    unfold Sha256.rotr, Sha256.w32.
    rewrite Z.lor_spec, Z.shiftr_spec by lia.
    rewrite Z.mod_pow2_bits_low by lia.
    rewrite Z.shiftl_spec by lia.
    rewrite (Z.testbit_neg_r x (i - _)) by lia.
    now rewrite orb_false_r.
Qed.

Lemma rotr_bits (n : nat) x :
  word32 x -> (0 < n < 32)%nat ->
  Fips.ROTR n (Fips.bits 32 x) = Fips.bits 32 (Sha256.rotr (Z.of_nat n) x).
Proof.
  intros Hx Hn. unfold Fips.ROTR. rewrite bits_length.
  pose proof (rotr_bits_split (32 - n) n x Hx) as H.
  replace (32 - n + n)%nat with 32%nat in H by lia.
  replace (n + (32 - n))%nat with 32%nat in H by lia.
  apply H; lia.
Qed.

Lemma shr_bits_split (k m : nat) x :
  word32 x -> (k + m = 32)%nat ->
  repeat false m ++ firstn k (Fips.bits (k + m) x)
  = Fips.bits (m + k) (Z.shiftr x (Z.of_nat m)).
Proof.
  intros Hx Hkm. rewrite bits_firstn, bits_split. f_equal.
  symmetry. apply bits_zero. intros i Hi.
  rewrite !Z.shiftr_spec by lia. apply word32_high; [exact Hx | lia].
Qed.

Lemma shr_bits (n : nat) x :
  word32 x -> (n <= 32)%nat ->
  Fips.SHR n (Fips.bits 32 x) = Fips.bits 32 (Z.shiftr x (Z.of_nat n)).
Proof.
  intros Hx Hn. unfold Fips.SHR. rewrite bits_length.
  pose proof (shr_bits_split (32 - n) n x Hx) as H.
  replace (32 - n + n)%nat with 32%nat in H by lia.
  replace (n + (32 - n))%nat with 32%nat in H by lia.
  apply H; lia.
Qed.
Lemma add32_comm x y : Sha256.add32 x y = Sha256.add32 y x.
Proof. unfold Sha256.add32. now rewrite Z.add_comm. Qed.

Lemma add32_schedule a b c d :
  Sha256.add32 (Sha256.add32 (Sha256.add32 a b) c) d
  = Sha256.add32 (Sha256.add32 a b) (Sha256.add32 c d).
Proof. add32_lia. Qed.

Lemma add32_round a b c d e :
  Sha256.add32 (Sha256.add32 (Sha256.add32 (Sha256.add32 a b) c) d) e
  = Sha256.add32 (Sha256.add32 (Sha256.add32 a b) (Sha256.add32 c d)) e.
Proof. add32_lia. Qed.

Lemma Sigma0_bits x :
  word32 x -> Fips.Sigma0 (Fips.bits 32 x) = Fips.bits 32 (Sha256.Sigma0 x).
Proof.
  intros Hx. unfold Fips.Sigma0.
  rewrite (rotr_bits 2), (rotr_bits 13), (rotr_bits 22) by (assumption || lia).
  now rewrite !bxor_bits.
Qed.

Lemma Sigma1_bits x :
  word32 x -> Fips.Sigma1 (Fips.bits 32 x) = Fips.bits 32 (Sha256.Sigma1 x).
Proof.
  intros Hx. unfold Fips.Sigma1.
  rewrite (rotr_bits 6), (rotr_bits 11), (rotr_bits 25) by (assumption || lia).
  now rewrite !bxor_bits.
Qed.

Lemma sigma0_bits x :
  word32 x -> Fips.sigma0 (Fips.bits 32 x) = Fips.bits 32 (Sha256.sigma0 x).
Proof.
  intros Hx. unfold Fips.sigma0.
  rewrite (rotr_bits 7), (rotr_bits 18), (shr_bits 3) by (assumption || lia).
  now rewrite !bxor_bits.
Qed.

Lemma sigma1_bits x :
  word32 x -> Fips.sigma1 (Fips.bits 32 x) = Fips.bits 32 (Sha256.sigma1 x).
Proof.
  intros Hx. unfold Fips.sigma1.
  rewrite (rotr_bits 17), (rotr_bits 19), (shr_bits 10) by (assumption || lia).
  now rewrite !bxor_bits.
Qed.

Lemma Ch_bits x y z :
  Fips.Ch (Fips.bits 32 x) (Fips.bits 32 y) (Fips.bits 32 z)
  = Fips.bits 32 (Sha256.Ch x y z).
Proof.
  unfold Fips.Ch. rewrite bnot_bits by lia.
  now rewrite !band_bits, bxor_bits.
Qed.

Lemma Maj_bits x y z :
  Fips.Maj (Fips.bits 32 x) (Fips.bits 32 y) (Fips.bits 32 z)
  = Fips.bits 32 (Sha256.Maj x y z).
Proof. unfold Fips.Maj. now rewrite !band_bits, !bxor_bits. Qed.

Lemma nth_map_bits i (W : list Z) :
  nth i (List.map (Fips.bits 32) W) Fips.zero = Fips.bits 32 (nth i W 0).
Proof. change Fips.zero with (Fips.bits 32 0). apply map_nth. Qed.

Lemma word32_nth i (W : list Z) : List.Forall word32 W -> word32 (nth i W 0).
Proof.
  intros H. revert i. induction H; intros [ | i]; cbn [nth]; auto;
    unfold word32; cbn; lia.
Qed.

Lemma schedule_bits n : forall W,
  List.Forall word32 W -> (16 <= length W)%nat ->
  Fips.schedule n (List.map (Fips.bits 32) W)
  = List.map (Fips.bits 32) (rev (Sha256.schedule n (rev W))).
Proof.
  induction n; intros W HW HL; cbn [Fips.schedule Sha256.schedule].
  - now rewrite rev_involutive.
  - rewrite length_map, !nth_map_bits.
    rewrite sigma1_bits, sigma0_bits by (apply word32_nth; exact HW).
    rewrite !plus_bits.
    change [Fips.bits 32 ?v] with (List.map (Fips.bits 32) [v]).
    rewrite <- List.map_app.
    rewrite IHn.
    + rewrite rev_app_distr. cbn [rev app].
      rewrite !rev_nth by lia.
      now rewrite add32_schedule.
    + apply List.Forall_app. split; [exact HW | ].
      constructor; [apply word32_add32 | constructor].
    + rewrite length_app. lia.
Qed.

Lemma word32_round s kw : word32_state s -> word32_state (Sha256.round s kw).
Proof.
  intros (Ha & Hb & Hc & Hd & He & Hf & Hg & Hh).
  unfold word32_state, Sha256.round; cbn [Sha256.ha Sha256.hb Sha256.hc Sha256.hd
    Sha256.he Sha256.hf Sha256.hg Sha256.hh].
  repeat match goal with |- _ /\ _ => split end; try assumption; apply word32_add32.
Qed.

Lemma step_bits W s t :
  word32_state s ->
  Fips.step (List.map (Fips.bits 32) W) (registers_of s) t
  = registers_of (Sha256.round s (nth t Sha256.K 0, nth t W 0)).
Proof.
  intros (Ha & Hb & Hc & Hd & He & Hf & Hg & Hh).
  unfold Fips.step, Fips.K, registers_of, Sha256.round.
  cbn [Fips.ra Fips.rb Fips.rc Fips.rd Fips.re Fips.rf Fips.rg Fips.rh
       Sha256.ha Sha256.hb Sha256.hc Sha256.hd Sha256.he Sha256.hf Sha256.hg
       Sha256.hh fst snd].
  rewrite !nth_map_bits.
  rewrite Sigma1_bits, Sigma0_bits, Ch_bits, Maj_bits by assumption.
  rewrite !plus_bits.
  now rewrite (add32_round (Sha256.hh s)).
Qed.

Lemma rounds_bits W : forall ks ws pk pw s,
  Sha256.K = pk ++ ks -> W = pw ++ ws ->
  length pk = length pw -> length ks = length ws -> word32_state s ->
  fold_left (Fips.step (List.map (Fips.bits 32) W)) (seq (length pk) (length ks)) (registers_of s)
  = registers_of (fold_left Sha256.round (combine ks ws) s)
  /\ word32_state (fold_left Sha256.round (combine ks ws) s).
Proof.
  induction ks as [ | k ks IH]; intros ws pk pw s HK HW Hp Hl Hs.
  - cbn [length seq fold_left combine]. auto.
  - destruct ws as [ | w ws]; [discriminate | ].
    cbn [length seq fold_left combine].
    rewrite step_bits by exact Hs.
    rewrite HK at 1. rewrite nth_middle.
    rewrite HW at 2. rewrite Hp, nth_middle.
    replace (S (length pw)) with (length (pk ++ [k]))
      by (rewrite length_app; cbn [length]; lia).
    apply (IH ws (pk ++ [k]) (pw ++ [w])).
    + now rewrite <- app_assoc.
    + now rewrite <- app_assoc.
    + rewrite !length_app. cbn [length]. lia.
    + cbn [length] in Hl. lia.
    + apply word32_round. exact Hs.
Qed.
Lemma skipn_length_app {A} (l1 l2 : list A) n :
  skipn (length l1 + n) (l1 ++ l2) = skipn n l2.
Proof. induction l1; cbn [length Nat.add app skipn]; auto. Qed.

Lemma concat_bits_length (l : list Z) :
  length (concat (List.map (Fips.bits 32) l)) = (32 * length l)%nat.
Proof.
  induction l as [ | x l IH]; [reflexivity | ].
  cbn [List.map concat]. rewrite length_app, bits_length, IH. cbn [length]. lia.
Qed.

Lemma concat_bits_firstn k : forall l : list Z,
  firstn (32 * k) (concat (List.map (Fips.bits 32) l))
  = concat (List.map (Fips.bits 32) (firstn k l)).
Proof.
  induction k; intros l; [reflexivity | ].
  destruct l as [ | x l]; [now rewrite firstn_nil | ].
  cbn [firstn List.map concat].
  replace (32 * S k)%nat with (length (Fips.bits 32 x) + 32 * k)%nat
    by (rewrite bits_length; lia).
  rewrite List.firstn_app_2. now rewrite IHk.
Qed.

Lemma concat_bits_skipn k : forall l : list Z,
  skipn (32 * k) (concat (List.map (Fips.bits 32) l))
  = concat (List.map (Fips.bits 32) (skipn k l)).
Proof.
  induction k; intros l; [reflexivity | ].
  destruct l as [ | x l]; [now rewrite skipn_nil | ].
  cbn [skipn List.map concat].
  replace (32 * S k)%nat with (length (Fips.bits 32 x) + 32 * k)%nat
    by (rewrite bits_length; lia).
  rewrite skipn_length_app. apply IHk.
Qed.

Lemma firstn_bits_app x (r : list bool) :
  firstn 32 (Fips.bits 32 x ++ r) = Fips.bits 32 x.
Proof.
  replace 32%nat with (length (Fips.bits 32 x) + 0)%nat at 1
    by (rewrite bits_length; lia).
  rewrite List.firstn_app_2. cbn [firstn]. apply app_nil_r.
Qed.

Lemma sub_bits t (l : list Z) :
  (t < length l)%nat ->
  Fips.sub (32 * t) 32 (concat (List.map (Fips.bits 32) l))
  = Fips.bits 32 (nth t l 0).
Proof.
  intros Ht. unfold Fips.sub. rewrite concat_bits_skipn.
  revert l Ht. induction t; intros [ | x l] Ht; cbn [length] in Ht; try lia.
  - cbn [skipn List.map concat nth]. apply firstn_bits_app.
  - cbn [skipn nth]. apply IHt. lia.
Qed.

Lemma words_bits (block : list Z) :
  length block = 16%nat ->
  Fips.words (concat (List.map (Fips.bits 32) block))
  = List.map (Fips.bits 32) block.
Proof.
  intros Hl. unfold Fips.words.
  transitivity (List.map (fun t => Fips.bits 32 (nth t block 0)) (seq 0 16)).
  - apply List.map_ext_in. intros t Ht. apply in_seq in Ht.
    apply sub_bits. lia.
  - do 16 (destruct block as [ | ? block]; [discriminate | ]).
    destruct block; [reflexivity | discriminate].
Qed.

Lemma schedule_length n : forall w, length (Sha256.schedule n w) = (n + length w)%nat.
Proof.
  induction n; intros w; cbn [Sha256.schedule]; [reflexivity | ].
  rewrite IHn. cbn [length]. lia.
Qed.

Lemma word32_H0 : word32_state Sha256.H0.
Proof. unfold word32_state, word32. cbn. lia. Qed.

Lemma compress_bits s (block : list Z) :
  length block = 16%nat -> List.Forall word32 block -> word32_state s ->
  Fips.hash_block (registers_of s) (concat (List.map (Fips.bits 32) block))
  = registers_of (Sha256.compress s block)
  /\ word32_state (Sha256.compress s block).
Proof.
  intros Hl Hb Hs. unfold Fips.hash_block, Sha256.compress.
  rewrite words_bits by exact Hl.
  rewrite schedule_bits by (exact Hb || lia).
  set (w := rev (Sha256.schedule 48 (rev block))).
  assert (Hw : length w = 64%nat).
  { unfold w. rewrite length_rev, schedule_length, length_rev. lia. }
  destruct (rounds_bits w Sha256.K w [] [] s eq_refl eq_refl eq_refl
              (eq_sym Hw) Hs) as [Hr Hwf].
  change (seq (length (@nil Z)) (length Sha256.K)) with (seq 0 64) in Hr.
  rewrite Hr.
  set (r := fold_left Sha256.round (combine Sha256.K w) s) in *.
  split.
  - unfold registers_of.
    cbn [Fips.ra Fips.rb Fips.rc Fips.rd Fips.re Fips.rf Fips.rg Fips.rh
         Sha256.ha Sha256.hb Sha256.hc Sha256.hd Sha256.he Sha256.hf
         Sha256.hg Sha256.hh].
    rewrite !plus_bits.
    now rewrite (add32_comm (Sha256.ha r)), (add32_comm (Sha256.hb r)),
      (add32_comm (Sha256.hc r)), (add32_comm (Sha256.hd r)),
      (add32_comm (Sha256.he r)), (add32_comm (Sha256.hf r)),
      (add32_comm (Sha256.hg r)), (add32_comm (Sha256.hh r)).
  - unfold word32_state.
    cbn [Sha256.ha Sha256.hb Sha256.hc Sha256.hd Sha256.he Sha256.hf
         Sha256.hg Sha256.hh].
    repeat match goal with |- _ /\ _ => split end; apply word32_add32.
Qed.

Lemma hash_blocks_cons k H (M : list bool) :
  M <> [] ->
  Fips.hash_blocks (S k) H M
  = Fips.hash_blocks k (Fips.hash_block H (firstn 512 M)) (skipn 512 M).
Proof. destruct M; [congruence | reflexivity]. Qed.

Lemma blocks_bits n : forall (w : list Z) s fuel fuel',
  length w = (16 * n)%nat -> List.Forall word32 w -> word32_state s ->
  (n <= fuel)%nat -> (n <= fuel')%nat ->
  Fips.hash_blocks fuel (registers_of s) (concat (List.map (Fips.bits 32) w))
  = registers_of (fold_left Sha256.compress (Sha256.blocks fuel' w) s).
Proof.
  induction n; intros w s fuel fuel' Hl Hw Hs Hf Hf'.
  - destruct w; [ | discriminate].
    destruct fuel, fuel'; reflexivity.
  - destruct fuel as [ | fuel]; [lia | ].
    destruct fuel' as [ | fuel']; [lia | ].
    rewrite hash_blocks_cons.
    2:{ intros E. apply (f_equal (@length bool)) in E.
        rewrite concat_bits_length, Hl in E. cbn [length] in E. lia. }
    change 512%nat with (32 * 16)%nat.
    rewrite concat_bits_firstn, concat_bits_skipn.
    assert (H16 : length (firstn 16 w) = 16%nat) by (rewrite length_firstn; lia).
    assert (Hfw : List.Forall word32 (firstn 16 w)).
    { rewrite <- (firstn_skipn 16 w) in Hw. apply List.Forall_app in Hw. tauto. }
    assert (Hsw : List.Forall word32 (skipn 16 w)).
    { rewrite <- (firstn_skipn 16 w) in Hw. apply List.Forall_app in Hw. tauto. }
    destruct (compress_bits s (firstn 16 w) H16 Hfw Hs) as [Hc Hcs].
    rewrite Hc.
    rewrite (IHn (skipn 16 w) _ fuel fuel'); try assumption; try lia.
    + destruct w as [ | x w']; [discriminate | ].
      cbn [Sha256.blocks fold_left]. reflexivity.
    + rewrite length_skipn. lia.
Qed.
Lemma word_of_octets a b c d :
  octet a -> octet b -> octet c -> octet d ->
  Fips.bits 32 (a * 2 ^ 24 + b * 2 ^ 16 + c * 2 ^ 8 + d)
  = Fips.bits 8 a ++ Fips.bits 8 b ++ Fips.bits 8 c ++ Fips.bits 8 d.
Proof.
  unfold octet. intros Ha Hb Hc Hd. apply bits_inj.
  - rewrite !length_app, !bits_length. reflexivity.
  - rewrite !val_app, !val_bits, !length_app, !bits_length.
    change (Z.of_nat 32) with 32. change (Z.of_nat 8) with 8.
    change (Z.of_nat (8 + (8 + 8))) with 24.
    change (Z.of_nat (8 + 8)) with 16.
    change (2 ^ 8) with 256. change (2 ^ 16) with 65536.
    change (2 ^ 24) with 16777216. change (2 ^ 32) with 4294967296.
    rewrite !Z.mod_small by lia. lia.
Qed.

Lemma words_of_bits k : forall bs,
  length bs = (4 * k)%nat -> List.Forall octet bs ->
  concat (List.map (Fips.bits 32) (Sha256.words_of bs))
  = concat (List.map (Fips.bits 8) bs)
  /\ List.Forall word32 (Sha256.words_of bs)
  /\ length (Sha256.words_of bs) = k.
Proof.
  induction k; intros bs Hl Hb.
  - destruct bs; [ | discriminate]. cbn. auto.
  - destruct bs as [ | a [ | b [ | c [ | d t]]]]; cbn [length] in Hl; try lia.
    inversion Hb as [ | ? ? Ha Hb1]; subst.
    inversion Hb1 as [ | ? ? Hb' Hb2]; subst.
    inversion Hb2 as [ | ? ? Hc Hb3]; subst.
    inversion Hb3 as [ | ? ? Hd Ht]; subst.
    destruct (IHk t ltac:(lia) Ht) as (E & W & L).
    cbn [Sha256.words_of List.map concat length].
    rewrite E, word_of_octets by assumption.
    rewrite <- !app_assoc. split; [reflexivity | ]. split; [ | now rewrite L].
    constructor; [ | exact W].
    unfold word32, octet in *. change (2 ^ 24) with 16777216.
    change (2 ^ 16) with 65536. change (2 ^ 8) with 256.
    change (2 ^ 32) with 4294967296. lia.
Qed.

Lemma find_first (p : nat -> bool) k : forall n a,
  (a <= k < a + n)%nat -> p k = true ->
  (forall j, (a <= j < k)%nat -> p j = false) ->
  List.find p (seq a n) = Some k.
Proof.
  induction n; intros a Hk Hp Hj; [lia | ].
  cbn [seq List.find].
  destruct (Nat.eq_dec a k) as [-> | Hne].
  - now rewrite Hp.
  - rewrite (Hj a) by lia. apply IHn; [lia | exact Hp | ].
    intros j Hj'. apply Hj. lia.
Qed.

Lemma zero_bits_octets (len : nat) :
  Fips.zero_bits (8 * len)
  = (7 + 8 * Z.to_nat ((55 - Z.of_nat len) mod 64))%nat.
Proof.
  unfold Fips.zero_bits.
  pose proof (Z.mod_pos_bound (55 - Z.of_nat len) 64 ltac:(lia)) as Hz.
  pose proof (Z.div_mod (55 - Z.of_nat len) 64 ltac:(lia)) as Hq.
  set (z := (55 - Z.of_nat len) mod 64) in *.
  set (q := (55 - Z.of_nat len) / 64) in *.
  assert (Hk : ((8 * len + 1 + (7 + 8 * Z.to_nat z)) mod 512 = 448)%nat).
  { symmetry. apply (Nat.mod_unique _ _ (Z.to_nat (- q))); lia. }
  rewrite (find_first _ (7 + 8 * Z.to_nat z)%nat).
  - reflexivity.
  - lia.
  - now apply Nat.eqb_eq.
  - intros j Hj. apply Nat.eqb_neq. intros E.
    pose proof (Nat.div_mod_eq (8 * len + 1 + j) 512) as H1.
    pose proof (Nat.div_mod_eq (8 * len + 1 + (7 + 8 * Z.to_nat z)) 512) as H2.
    rewrite E in H1. rewrite Hk in H2. lia.
Qed.

Lemma zeros_bits n :
  concat (List.map (Fips.bits 8) (repeat 0 n)) = repeat false (8 * n).
Proof.
  induction n; [reflexivity | ].
  replace (8 * S n)%nat with (8 + 8 * n)%nat by lia.
  cbn [repeat List.map concat]. rewrite IHn, repeat_app. reflexivity.
Qed.

Lemma byte_bits x (k : nat) :
  Fips.bits 8 ((x / 2 ^ Z.of_nat k) mod 256)
  = Fips.bits 8 (Z.shiftr x (Z.of_nat k)).
Proof.
  rewrite Z.shiftr_div_pow2 by lia.
  change 256 with (2 ^ Z.of_nat 8). apply bits_mod.
Qed.

Lemma bits_split_eq n k m z :
  n = (k + m)%nat ->
  Fips.bits n z = Fips.bits k (Z.shiftr z (Z.of_nat m)) ++ Fips.bits m z.
Proof. intros ->. apply bits_split. Qed.

Lemma length_bits x :
  Fips.bits 8 ((x / 2 ^ (8 * 7)) mod 256) ++ Fips.bits 8 ((x / 2 ^ (8 * 6)) mod 256)
  ++ Fips.bits 8 ((x / 2 ^ (8 * 5)) mod 256) ++ Fips.bits 8 ((x / 2 ^ (8 * 4)) mod 256)
  ++ Fips.bits 8 ((x / 2 ^ (8 * 3)) mod 256) ++ Fips.bits 8 ((x / 2 ^ (8 * 2)) mod 256)
  ++ Fips.bits 8 ((x / 2 ^ (8 * 1)) mod 256) ++ Fips.bits 8 ((x / 2 ^ (8 * 0)) mod 256)
  = Fips.bits 64 x.
Proof.
  change (8 * 7) with (Z.of_nat 56). change (8 * 6) with (Z.of_nat 48).
  change (8 * 5) with (Z.of_nat 40). change (8 * 4) with (Z.of_nat 32).
  change (8 * 3) with (Z.of_nat 24). change (8 * 2) with (Z.of_nat 16).
  change (8 * 1) with (Z.of_nat 8). change (8 * 0) with (Z.of_nat 0).
  rewrite (byte_bits x 56), (byte_bits x 48), (byte_bits x 40), (byte_bits x 32),
    (byte_bits x 24), (byte_bits x 16), (byte_bits x 8), (byte_bits x 0).
  rewrite (bits_split_eq 64 8 56 x), (bits_split_eq 56 8 48 x),
    (bits_split_eq 48 8 40 x), (bits_split_eq 40 8 32 x),
    (bits_split_eq 32 8 24 x), (bits_split_eq 24 8 16 x),
    (bits_split_eq 16 8 8 x) by reflexivity.
  now rewrite Z.shiftr_0_r.
Qed.

Lemma bits_of_bytes_length bytes :
  length (Fips.bits_of_bytes bytes) = (8 * length bytes)%nat.
Proof.
  unfold Fips.bits_of_bytes.
  induction bytes as [ | b t IH]; [reflexivity | ].
  cbn [List.map concat]. rewrite length_app, bits_length, IH. cbn [length]. lia.
Qed.

Lemma pad_bits (bytes : list N) :
  concat (List.map (Fips.bits 8) (Sha256.pad (List.map Z.of_N bytes)))
  = Fips.pad (Fips.bits_of_bytes bytes).
Proof.
  unfold Sha256.pad, Fips.pad.
  rewrite bits_of_bytes_length, zero_bits_octets, length_map.
  rewrite !List.map_app, !concat_app, List.map_map.
  fold (Fips.bits_of_bytes bytes). f_equal.
  rewrite zeros_bits.
  cbn [List.map concat].
  rewrite app_nil_r, length_bits.
  rewrite repeat_app, <- !app_assoc.
  replace (Z.of_nat (8 * length bytes)) with (8 * Z.of_nat (length bytes)) by lia.
  reflexivity.
Qed.

Lemma pad_octets (bytes : list N) :
  List.Forall (fun b => (b < 256)%N) bytes ->
  List.Forall octet (Sha256.pad (List.map Z.of_N bytes)).
Proof.
  intros Hb. unfold Sha256.pad.
  repeat (apply List.Forall_app; split).
  - apply List.Forall_map. eapply List.Forall_impl; [ | exact Hb].
    intros b Hlt. unfold octet. cbv beta in Hlt. lia.
  - constructor; [unfold octet; lia | constructor].
  - apply List.Forall_forall. intros x Hx. apply repeat_spec in Hx. subst.
    unfold octet. lia.
  - apply List.Forall_map. apply List.Forall_forall. intros i _.
    unfold octet. apply Z.mod_pos_bound. lia.
Qed.

Lemma pad_length (msg : list Z) :
  exists n, length (Sha256.pad msg) = (4 * (16 * n))%nat.
Proof.
  unfold Sha256.pad. rewrite !length_app, repeat_length, length_map.
  cbn [length].
  pose proof (Z.mod_pos_bound (55 - Z.of_nat (length msg)) 64 ltac:(lia)) as Hz.
  pose proof (Z.div_mod (55 - Z.of_nat (length msg)) 64 ltac:(lia)) as Hq.
  set (z := (55 - Z.of_nat (length msg)) mod 64) in *.
  set (q := (55 - Z.of_nat (length msg)) / 64) in *.
  exists (Z.to_nat (1 - q)). lia.
Qed.

Lemma bytes_of_bits_octet z (r : list bool) :
  Fips.bytes_of_bits (Fips.bits 8 z ++ r)
  = Z.to_N (z mod 256) :: Fips.bytes_of_bits r.
Proof.
  change 256 with (2 ^ Z.of_nat 8). rewrite <- val_bits. reflexivity.
Qed.

Lemma bytes_of_bits_word x (r : list bool) :
  Fips.bytes_of_bits (Fips.bits 32 x ++ r)
  = Sha256.word_bytes x ++ Fips.bytes_of_bits r.
Proof.
  rewrite (bits_split_eq 32 8 24 x), (bits_split_eq 24 8 16 x),
    (bits_split_eq 16 8 8 x) by reflexivity.
  rewrite <- !app_assoc. rewrite !bytes_of_bits_octet.
  unfold Sha256.word_bytes. cbn [List.map app].
  rewrite !Z.shiftr_div_pow2 by lia.
  change (2 ^ (8 * 0)) with 1. rewrite Z.div_1_r. reflexivity.
Qed.

Lemma digest_fips (bytes : list N) :
  List.Forall (fun b => (b < 256)%N) bytes ->
  Sha256.digest bytes = Fips.sha256 bytes.
Proof.
  intros Hb. unfold Sha256.digest, Fips.sha256, Fips.hash.
  rewrite <- pad_bits.
  destruct (pad_length (List.map Z.of_N bytes)) as [n Hn].
  destruct (words_of_bits (16 * n) _ Hn (pad_octets bytes Hb)) as (E & W & L).
  rewrite <- E.
  set (w := Sha256.words_of (Sha256.pad (List.map Z.of_N bytes))) in *.
  change Fips.H0 with (registers_of Sha256.H0).
  rewrite (blocks_bits n w Sha256.H0 _ (length w) L W word32_H0).
  - set (s := fold_left Sha256.compress (Sha256.blocks (length w) w) Sha256.H0).
    unfold registers_of, Sha256.digest_bytes.
    cbn [Fips.ra Fips.rb Fips.rc Fips.rd Fips.re Fips.rf Fips.rg Fips.rh].
    rewrite <- (app_nil_r (Fips.bits 32 (Sha256.hh s))).
    rewrite !bytes_of_bits_word. cbn [Fips.bytes_of_bits].
    now rewrite app_nil_r.
  - rewrite concat_bits_length, L. lia.
  - lia.
Qed.

(** C8: the fingerprint is a function of the text alone, so that equal
    texts have equal fingerprints.  For every text of 16-bit code units
    the bytes that are hashed are its UTF-8 encoding: they are well formed
    and stand for the scalar values of the text, and no other byte string
    does; what is computed on them is the SHA-256 digest as FIPS 180-4
    defines it on bit strings; the fingerprint is that digest written as
    sixty-four lowercase hexadecimal digits, two per byte, so that two
    fingerprints are equal exactly when the digests are.  The fingerprints
    of the empty text, of "abc", of the two-block message of the standard,
    of a text whose characters take two, three and four bytes, and of a
    surrogate without its pair are the published ones. *)
Theorem fingerprint_deterministic :
  (forall x y : jsstring, x = y -> hashText x = hashText y)
  /\ (forall x : jsstring,
         Forall (fun c => (c < 65536)%N) x ->
         Utf8.decode (utf8_encode x) = Some (Utf8.scalar_values x)
         /\ (forall bytes,
                Utf8.decode bytes = Some (Utf8.scalar_values x) ->
                bytes = utf8_encode x)
         /\ Sha256.digest (utf8_encode x) = Fips.sha256 (utf8_encode x)
         /\ hashText x
            = concat (List.map hex_byte (Fips.sha256 (utf8_encode x)))
         /\ length (Fips.sha256 (utf8_encode x)) = 32%nat
         /\ length (hashText x) = 64%nat
         /\ forallb is_hex_lower (hashText x) = true)
  /\ (forall x y,
         hashText x = hashText y
         <-> Fips.sha256 (utf8_encode x) = Fips.sha256 (utf8_encode y))
  /\ hashText []
     = lit "e3b0c44298fc1c149afbf4c8996fb92427ae41e4649b934ca495991b7852b855"
  /\ hashText (lit "abc")
     = lit "ba7816bf8f01cfea414140de5dae2223b00361a396177a9cb410ff61f20015ad"
  /\ hashText (lit "abcdbcdecdefdefgefghfghighijhijkijkljklmklmnlmnomnopnopq")
     = lit "248d6a61d20638b8e5c026930c3e6039a33ce45964ff2167f6ecedd419db06c1"
  /\ hashText [233; 8364; 55357; 56832]%N
     = lit "df9226927fd572c1ee66eec85de1bb139497614899f36e4e90474cb71f6ef9d0"
  /\ hashText [55296]%N
     = lit "83d544ccc223c057d2bf80d3f2a32982c32c3c0db8e2674820da5064783fb097"
  /\ hashText [65533]%N
     = lit "83d544ccc223c057d2bf80d3f2a32982c32c3c0db8e2674820da5064783fb097".
Proof.
  split; [now intros x y -> | ].
  split; [ | split; [ | repeat split; vm_compute; reflexivity]].
  - intros x Hx.
    split; [now apply utf8_encode_decode | ].
    split; [intros bytes; apply utf8_encode_unique | ].
    pose proof (digest_fips _ (utf8_encode_bytes x)) as Hd.
    split; [exact Hd | ].
    rewrite hashText_hex, <- Hd.
    destruct (digest_bound (utf8_encode x)) as [Hall Hlen].
    split; [reflexivity | ]. split; [exact Hlen | ].
    destruct (hex_bytes_shape _ Hall) as [H1 H2].
    rewrite H1, Hlen. split; [reflexivity | exact H2].
  - intros x y. rewrite !hashText_hex.
    rewrite <- !(digest_fips _ (utf8_encode_bytes _)).
    split; [ | now intros ->].
    apply hex_bytes_inj; apply digest_bound.
Qed.

Lemma fingerprint_deterministic_witness :
  hashText (lit "a" ++ lit "b") = hashText (lit "ab")
  /\ Utf8.decode (utf8_encode [233; 55357; 56832]%N) = Some [233; 128512]%N
  /\ hashText [233; 55357; 56832]%N
     = concat (List.map hex_byte
                 (Fips.sha256 [195; 169; 240; 159; 152; 128]%N)).
Proof.
  split.
  - apply (proj1 fingerprint_deterministic (lit "a" ++ lit "b") (lit "ab")).
    reflexivity.
  - destruct (proj1 (proj2 fingerprint_deterministic) [233; 55357; 56832]%N)
      as (H1 & _ & _ & H2 & _).
    + repeat constructor.
    + split; [exact H1 | exact H2].
Defined.

(** ** The handler, case by case *)

Lemma summarize_fresh_stored (h : host) (url text : jsstring) (m : storage)
    (base : list event) (s : SummaryRecord) (w' : world) :
  summarize_fresh h url text m base = (RespSummary s, w') ->
  getSummary url (w_storage w') = Some (Entry s (hashText text) (now h)).
Proof.
  intros H.
  destruct (summarize_fresh_answer h url text m base)
    as [(data & s0 & Hp & Hn & Hs) | [Hno _]].
  - rewrite (summarize_fresh_summary _ _ _ _ _ _ _ Hp Hn) in H.
    injection H as <- <-. cbn [w_storage]. unfold getSummary.
    cbn [read_summaries]. apply lookup_insert_eq.
  - rewrite H in Hno. now destruct (Hno s).
Qed.

(** After an answer with a summary, the storage holds that summary for
    the URL under the hash of the text. *)
Lemma handle_summarize_stored (h : host) (url : jsstring) (w w' : world)
    (s : SummaryRecord) :
  handle_summarize h url w = (RespSummary s, w') ->
  exists html e,
    fetch_policy h url = Some html
    /\ getSummary url (w_storage w') = Some e
    /\ e_summary e = s
    /\ e_hash e = hashText (policy_text h url html).
Proof.
  destruct w as [st tr]. rewrite handle_summarize_eq.
  destruct (fetch_policy h url) as [html | ]; [ | discriminate].
  cbv zeta. intros H. exists html.
  destruct (getSummary url st) as [e | ] eqn:He.
  - destruct (str_eqb (e_hash e) (hashText (policy_text h url html))) eqn:Heq.
    + injection H as <- <-. exists e. cbn [w_storage].
      apply str_eqb_eq in Heq. now repeat split.
    + eexists. split; [reflexivity | ].
      split; [exact (summarize_fresh_stored _ _ _ _ _ _ _ H) | now split].
  - eexists. split; [reflexivity | ].
    split; [exact (summarize_fresh_stored _ _ _ _ _ _ _ H) | now split].
Qed.

(** X1: once the handler has answered with a summary, asking again for
    the same URL while the policy text is the same is a cache hit: the
    same summary comes back, the provider is not called, and nothing is
    written. *)
Theorem resummarize_is_cache_hit (h : host) (url : jsstring) (w w' : world)
    (s : SummaryRecord) :
  handle_summarize h url w = (RespSummary s, w') ->
  handle_summarize h url w'
  = (RespSummary s,
     World (w_storage w')
       (Progress (lit "policy_fetched") :: Progress (lit "fetching_policy")
          :: w_trace w'))
  /\ provider_calls (w_trace (snd (handle_summarize h url w')))
     = provider_calls (w_trace w').
Proof.
  intros H. apply handle_summarize_stored in H as (html & e & Hf & He & Hs & Hh).
  destruct w' as [st' tr']. cbn [w_storage w_trace] in *.
  rewrite handle_summarize_eq, Hf. cbv zeta. rewrite He, Hh.
  rewrite (proj2 (str_eqb_eq _ _) eq_refl), Hs. split; reflexivity.
Qed.

(** X2: without a stored entry for the URL, what a fetched policy leads
    to depends on the provider alone. With no key stored nothing is sent,
    the answer is NO_API_KEY and the storage is as it was. Otherwise the
    text is sent to the provider exactly once; a reply that can be read
    as a record is answered with that record, which is stored under the
    URL with the hash of the text and the time of the call; any other
    outcome is answered with an error and leaves the storage as it was. *)
Theorem cache_miss (h : host) (url html : jsstring) (st : storage)
    (tr : list event) :
  fetch_policy h url = Some html ->
  getSummary url st = None ->
  let text := policy_text h url html in
  let resp := fst (handle_summarize h url (World st tr)) in
  let w' := snd (handle_summarize h url (World st tr)) in
  (provider h text (language h) = inl ApiKeyNotSet ->
   resp = RespNoApiKey /\ w_storage w' = st
   /\ provider_calls (w_trace w') = provider_calls tr)
  /\ (provider h text (language h) <> inl ApiKeyNotSet ->
      provider_calls (w_trace w') = S (provider_calls tr))
  /\ (forall data s,
         provider h text (language h) = inr data ->
         normalizeReply (number_to_string h) data = inr s ->
         resp = RespSummary s
         /\ w_storage w' = saveSummary url s (hashText text) (now h) st
         /\ getSummary url (w_storage w')
            = Some (Entry s (hashText text) (now h)))
  /\ ((forall data s,
          provider h text (language h) = inr data ->
          normalizeReply (number_to_string h) data <> inr s) ->
      (forall s, resp <> RespSummary s) /\ w_storage w' = st).
Proof.
  intros Hf Hn text resp w'. subst resp w'.
  rewrite handle_summarize_eq, Hf. cbv zeta. rewrite Hn. fold text.
  assert (Hc : provider_calls
                 (Progress (lit "policy_fetched")
                    :: Progress (lit "fetching_policy") :: tr)
               = provider_calls tr) by reflexivity.
  rewrite summarize_fresh_calls, Hc.
  split; [ | split; [ | split]].
  - intros Hk. rewrite (proj2 (no_key_iff _) Hk).
    unfold summarize_fresh. rewrite Hk. now repeat split.
  - intros Hk. destruct (no_key (provider h text (language h))) eqn:E;
      [ | reflexivity].
    apply no_key_iff in E. contradiction.
  - intros data s Hp Hr. rewrite (summarize_fresh_summary _ _ _ _ _ _ _ Hp Hr).
    cbn [fst snd w_storage]. split; [reflexivity | ].
    split; [reflexivity | ].
    unfold getSummary. cbn [read_summaries]. apply lookup_insert_eq.
  - intros Hno.
    destruct (summarize_fresh_answer h url text st
                (Progress (lit "policy_fetched")
                   :: Progress (lit "fetching_policy") :: tr))
      as [(data & s & Hp & Hr & _) | H]; [ | exact H].
    now destruct (Hno data s Hp).
Qed.

(** X3: when the stored entry is stale and the provider or the reading
    of its reply fails, the old summary is gone: the entry has been
    removed and nothing is stored in its place. *)
Theorem stale_entry_lost_on_failure (h : host) (url html : jsstring)
    (st : storage) (e : entry) (tr : list event) :
  fetch_policy h url = Some html ->
  getSummary url st = Some e ->
  e_hash e <> hashText (policy_text h url html) ->
  (forall s, fst (handle_summarize h url (World st tr)) <> RespSummary s) ->
  getSummary url (w_storage (snd (handle_summarize h url (World st tr)))) = None.
Proof.
  intros Hf He Hne. rewrite handle_summarize_eq, Hf. cbv zeta. rewrite He.
  rewrite (proj2 (str_eqb_neq _ _) Hne). intros H.
  destruct (summarize_fresh_answer h url (policy_text h url html)
              (Some (delete url (read_summaries st)))
              (StorageSet (delete url (read_summaries st))
                 :: Progress (lit "policy_fetched")
                 :: Progress (lit "fetching_policy") :: tr))
    as [(data & s & _ & _ & Hs) | [_ Hst]].
  - now destruct (H s).
  - rewrite Hst. unfold getSummary. cbn [read_summaries].
    apply lookup_delete_eq.
Qed.

Lemma summarize_fresh_frame (h : host) (url other text : jsstring)
    (m : storage) (base : list event) :
  other <> url ->
  getSummary other (w_storage (snd (summarize_fresh h url text m base)))
  = getSummary other m.
Proof.
  intros Hne.
  destruct (summarize_fresh_answer h url text m base)
    as [(data & s & Hp & Hn & _) | [_ Hst]].
  - rewrite (summarize_fresh_summary _ _ _ _ _ _ _ Hp Hn).
    cbn [snd w_storage]. unfold getSummary. cbn [read_summaries].
    now rewrite lookup_insert_ne.
  - now rewrite Hst.
Qed.

(** X4: whatever happens, the handler leaves the stored summaries of all
    other URLs as they were, and calls the provider at most once. *)
Theorem handle_summarize_frame (h : host) (url other : jsstring)
    (st : storage) (tr : list event) :
  other <> url ->
  let w' := snd (handle_summarize h url (World st tr)) in
  getSummary other (w_storage w') = getSummary other st
  /\ (provider_calls (w_trace w') <= S (provider_calls tr))%nat.
Proof.
  intros Hne w'. subst w'. rewrite handle_summarize_eq.
  destruct (fetch_policy h url) as [html | ];
    [ | cbn [snd w_storage w_trace]; split;
        [reflexivity | unfold provider_calls; cbn; lia]].
  cbv zeta.
  destruct (getSummary url st) as [e | ] eqn:He.
  - destruct (str_eqb (e_hash e) (hashText (policy_text h url html))).
    + cbn [snd w_storage w_trace]. split; [reflexivity | ].
      unfold provider_calls. cbn. lia.
    + rewrite summarize_fresh_frame by exact Hne.
      rewrite summarize_fresh_calls. split.
      * unfold getSummary. cbn [read_summaries]. now rewrite lookup_delete_ne.
      * destruct (no_key _); unfold provider_calls; cbn; lia.
  - rewrite summarize_fresh_frame by exact Hne.
    rewrite summarize_fresh_calls. split; [reflexivity | ].
    destruct (no_key _); unfold provider_calls; cbn; lia.
Qed.

Lemma resummarize_is_cache_hit_witness :
  handle_summarize demo_host demo_url demo_world_after
  = (RespSummary (mkSummary (num_of_Z 3) (lit "Minimal tracking") (lit "# OK")),
     World (w_storage demo_world_after)
       (Progress (lit "policy_fetched") :: Progress (lit "fetching_policy")
          :: w_trace demo_world_after)).
Proof.
  refine (proj1 (resummarize_is_cache_hit demo_host demo_url
                   (World demo_storage []) demo_world_after _ _)).
  vm_compute. reflexivity.
Defined.

Lemma cache_miss_witness :
  fst (handle_summarize demo_host demo_url (World None []))
  = RespSummary (mkSummary (num_of_Z 3) (lit "Minimal tracking") (lit "# OK"))
  /\ provider_calls
       (w_trace (snd (handle_summarize demo_host demo_url (World None []))))
     = S (provider_calls []).
Proof.
  destruct (cache_miss demo_host demo_url
              (lit "<html><body>Privacy policy</body></html>") None []
              eq_refl eq_refl) as (_ & Hcalls & Hgen & _).
  split.
  - exact (proj1 (Hgen (chat_reply (VStr fenced_reply))
                    (mkSummary (num_of_Z 3) (lit "Minimal tracking") (lit "# OK"))
                    eq_refl ltac:(vm_compute; reflexivity))).
  - apply Hcalls. discriminate.
Defined.

Lemma stale_entry_lost_on_failure_witness :
  getSummary demo_url
    (w_storage (snd (handle_summarize failing_host demo_url (World demo_storage []))))
  = None.
Proof.
  refine (stale_entry_lost_on_failure failing_host demo_url
            (lit "<html><body>Privacy policy</body></html>")
            demo_storage demo_entry [] _ _ _ _).
  - reflexivity.
  - vm_compute. reflexivity.
  - vm_compute. discriminate.
  - intros s. vm_compute. discriminate.
Defined.

Lemma handle_summarize_frame_witness :
  getSummary demo_url
    (w_storage (snd (handle_summarize demo_host (lit "https://b.example/terms")
                       (World demo_storage []))))
  = getSummary demo_url demo_storage.
Proof.
  refine (proj1 (handle_summarize_frame demo_host (lit "https://b.example/terms")
                   demo_url demo_storage [] _)).
  vm_compute. discriminate.
Defined.

(** ** The stored summaries, composed *)



(** ** The ignored domains *)

Lemma array_includes_app (l : list jsstring) (d x : jsstring) :
  array_includes (l ++ [d]) x = array_includes l x || str_eqb x d.
Proof.
  unfold array_includes. rewrite existsb_app. cbn. now rewrite orb_false_r.
Qed.

Lemma array_includes_In (l : list jsstring) (x : jsstring) :
  array_includes l x = true <-> In x l.
Proof.
  unfold array_includes. rewrite existsb_exists. split.
  - intros (y & Hy & He). apply str_eqb_eq in He. now subst.
  - intros H. exists x. split; [exact H | now apply str_eqb_eq].
Qed.

(** X6: after [addIgnoredDomain] the domain is ignored and every other
    domain is ignored exactly when it was before; adding a domain twice is
    adding it once; the list keeps its earlier entries in place and never
    holds a domain twice. *)
Theorem ignored_domains (domain : jsstring) (item : ignored_item) :
  isDomainIgnored domain (addIgnoredDomain domain item) = true
  /\ (forall other,
         other <> domain ->
         isDomainIgnored other (addIgnoredDomain domain item)
         = isDomainIgnored other item)
  /\ addIgnoredDomain domain (addIgnoredDomain domain item)
     = addIgnoredDomain domain item
  /\ (exists added,
         read_ignored (addIgnoredDomain domain item) = read_ignored item ++ added)
  /\ (NoDup (read_ignored item) ->
      NoDup (read_ignored (addIgnoredDomain domain item))).
Proof.
  unfold isDomainIgnored, addIgnoredDomain.
  destruct (array_includes (read_ignored item) domain) eqn:Hin; cbn [negb].
  - split; [exact Hin | ]. split; [reflexivity | ].
    split; [now rewrite Hin | ].
    split; [exists []; now rewrite app_nil_r | tauto].
  - cbn [read_ignored].
    split; [rewrite array_includes_app, (proj2 (str_eqb_eq _ _) eq_refl);
            apply orb_true_r | ].
    split.
    { intros other Hne. rewrite array_includes_app.
      rewrite (proj2 (str_eqb_neq _ _) Hne). apply orb_false_r. }
    split.
    { rewrite array_includes_app, (proj2 (str_eqb_eq _ _) eq_refl), orb_true_r.
      reflexivity. }
    split; [now exists [domain] | ].
    intros Hnd. apply NoDup_app. split; [exact Hnd | ]. split.
    + intros x Hx Hx'. apply list_elem_of_In in Hx, Hx'.
      destruct Hx' as [<- | []].
      apply array_includes_In in Hx. congruence.
    + apply NoDup_singleton.
Qed.

Lemma ignored_domains_witness :
  isDomainIgnored (lit "a.example")
    (addIgnoredDomain (lit "b.example") (Some [lit "a.example"]))
  = isDomainIgnored (lit "a.example") (Some [lit "a.example"]).
Proof.
  refine (proj1 (proj2 (ignored_domains (lit "b.example") (Some [lit "a.example"])))
            (lit "a.example") _).
  vm_compute. discriminate.
Defined.

(** ** Texts that are already distilled *)

Lemma blank_unit_ok (c : N) : is_blank c = true -> unit_ok c = true -> c = 32%N.
Proof.
  unfold unit_ok. intros Hb H. rewrite Hb in H. cbn in H. now apply N.eqb_eq.
Qed.

(** The first replacement changes nothing in a text that satisfies the
    invariant. *)
Lemma collapse_distilled (s : jsstring) (prev : option N) (in_run : bool) :
  distilled_from prev s = true ->
  (in_run = true -> prev = Some 32%N) ->
  collapse_from is_blank (lit " ") in_run s = s.
Proof.
  revert prev in_run. induction s as [ | c t IH]; intros prev in_run H Hrun;
    [reflexivity | ].
  cbn [distilled_from] in H. apply andb_true_iff in H as [H Ht].
  apply andb_true_iff in H as [Hp Hu].
  cbn [collapse_from]. destruct (is_blank c) eqn:Hc.
  - pose proof (blank_unit_ok c Hc Hu) as ->.
    destruct in_run.
    + rewrite (Hrun eq_refl) in Hp. discriminate Hp.
    + change (lit " " ++ collapse_from is_blank (lit " ") true t)
        with (32%N :: collapse_from is_blank (lit " ") true t).
      f_equal. now apply (IH (Some 32%N)).
  - f_equal. apply (IH (Some c)); [exact Ht | discriminate].
Qed.

Lemma distilled_no_lf_after_space (r b : jsstring) (x : N) :
  distilled_from (Some x) (r ++ b) = true -> is_space x = true ->
  forallb is_space r = true -> has_lf r = false.
Proof.
  revert x. induction r as [ | c t IH]; intros x H Hx Hr; [reflexivity | ].
  cbn [app distilled_from pair_ok forallb] in *.
  apply andb_true_iff in Hr as [Hc Hr].
  apply andb_true_iff in H as [H Ht]. apply andb_true_iff in H as [Hp _].
  apply andb_true_iff in Hp as [Hp _]. apply andb_true_iff in Hp as [_ Hp].
  rewrite Hx in Hp. cbn [andb] in Hp. apply negb_true_iff in Hp.
  unfold has_lf. cbn [existsb]. rewrite N.eqb_sym, Hp. cbn [orb].
  now apply (IH c).
Qed.

Lemma distilled_nothing_after_lf (r b : jsstring) :
  distilled_from (Some LF) (r ++ b) = true -> forallb is_space r = true -> r = [].
Proof.
  destruct r as [ | c t]; [reflexivity | ].
  cbn [app distilled_from pair_ok forallb]. intros H Hr.
  apply andb_true_iff in Hr as [Hc _]. rewrite Hc in H.
  change (LF =? LF)%N with true in H. cbn [andb negb] in H.
  rewrite andb_false_r in H. discriminate H.
Qed.

(** In a text that satisfies the invariant, a run of white space with a
    line feed is that line feed alone. *)
Lemma distilled_run (prev : option N) (run b : jsstring) :
  distilled_from prev (run ++ b) = true ->
  forallb is_space run = true -> has_lf run = true -> run = [LF].
Proof.
  destruct run as [ | c t]; [discriminate | ].
  cbn [app distilled_from forallb]. intros H Hr Hlf.
  apply andb_true_iff in Hr as [Hc Hr]. apply andb_true_iff in H as [_ Ht].
  unfold has_lf in Hlf. cbn [existsb] in Hlf.
  destruct (N.eqb_spec LF c) as [<- | Hne].
  - now rewrite (distilled_nothing_after_lf t b Ht Hr).
  - cbn [orb] in Hlf.
    pose proof (distilled_no_lf_after_space t b c Ht Hc Hr) as Hno.
    unfold has_lf in Hno. congruence.
Qed.

(** The second replacement changes nothing either. *)
Lemma line_breaks_fixed (fuel : nat) (pre rest : jsstring) (prev : option N) :
  (length rest < fuel)%nat ->
  distilled_from prev rest = true ->
  replace_all_from re_line_break [LF] fuel pre rest = rest.
Proof.
  revert pre rest prev.
  induction fuel as [ | f IH]; intros pre rest prev Hlen Hd; [lia | ].
  cbn [replace_all_from]. pose proof (search_line_break pre rest []) as Hs.
  destruct (search_from re_line_break pre rest []) as [m | ]; [ | reflexivity].
  destruct Hs as (a & run & b & pre' & Hrest & Hsk & He & Hne & Hsp & Hrun & _).
  rewrite Hsk, He. cbn [rev app m_rest m_pre].
  rewrite Hrest in Hd. rewrite distilled_from_app in Hd.
  apply andb_true_iff in Hd as [_ Hd].
  pose proof (distilled_run _ run b Hd Hsp Hrun) as ->.
  apply (f_equal (@length N)) in Hrest as Hl. rewrite !length_app in Hl.
  cbn [length] in Hl.
  rewrite (proj2 (Nat.eqb_neq _ _)) by lia.
  cbn [app distilled_from] in Hd. apply andb_true_iff in Hd as [_ Hd].
  rewrite (IH pre' b (Some LF)) by (lia || exact Hd).
  now rewrite Hrest.
Qed.

Lemma trim_fixed (s : jsstring) : no_outer_space s = true -> trim s = s.
Proof.
  unfold no_outer_space, trim, trimStart, trimEnd. intros H.
  apply andb_true_iff in H as [H1 H2].
  assert (Hs : drop_while is_space s = s).
  { destruct s as [ | c t]; [reflexivity | ].
    cbn [drop_while]. apply negb_true_iff in H1. now rewrite H1. }
  rewrite Hs.
  destruct (rev s) as [ | c t] eqn:Hr.
  - cbn. apply (f_equal (@rev N)) in Hr. now rewrite rev_involutive in Hr.
  - cbn [drop_while]. apply negb_true_iff in H2. rewrite H2, <- Hr.
    apply rev_involutive.
Qed.

(** X7: the texts [normalizeWhitespace] leaves unchanged are exactly the
    texts that satisfy the invariant of a distilled text; so normalizing
    twice is normalizing once, and the fingerprint of a normalized text
    does not change when it is normalized again. *)
Theorem normalizeWhitespace_fixed_points :
  (forall s, normalizeWhitespace s = s <-> distilled s = true)
  /\ (forall s, normalizeWhitespace (normalizeWhitespace s) = normalizeWhitespace s)
  /\ (forall s,
         hashText (normalizeWhitespace (normalizeWhitespace s))
         = hashText (normalizeWhitespace s)).
Proof.
  assert (Hfix : forall s, distilled s = true -> normalizeWhitespace s = s).
  { intros s H. unfold distilled in H. apply andb_true_iff in H as [Ho Hd].
    unfold normalizeWhitespace. rewrite replace_all_blanks.
    rewrite (collapse_distilled s None false Hd) by discriminate.
    unfold replace_all. rewrite (line_breaks_fixed _ _ s None) by (lia || exact Hd).
    now apply trim_fixed. }
  split; [ | split].
  - intros s. split; [ | apply Hfix].
    intros H. rewrite <- H. apply normalizeWhitespace_distilled.
  - intros s. apply Hfix, normalizeWhitespace_distilled.
  - intros s. now rewrite (Hfix _ (normalizeWhitespace_distilled s)).
Qed.

Lemma normalizeWhitespace_fixed_points_witness :
  normalizeWhitespace (lit "We collect data" ++ [LF] ++ lit "and share it")
  = lit "We collect data" ++ [LF] ++ lit "and share it".
Proof.
  apply (proj1 normalizeWhitespace_fixed_points).
  vm_compute. reflexivity.
Defined.

(** ** Scores, again *)

Lemma Qfloor_half (z : Z) : Qfloor (inject_Z z + (1 # 2)) = z.
Proof.
  unfold Qfloor, Qplus, inject_Z. cbn [Qnum Qden].
  rewrite Z.mul_1_l.
  change (Z.pos (1 * 2)) with 2. change (Z.pos 2) with 2.
  replace (z * 2 + 1) with (1 + z * 2) by lia.
  rewrite Z.div_add by lia. reflexivity.
Qed.

Lemma clampScore_integer (z : Z) :
  0 <= z <= 10 -> clampScore (num_of_Z z) = num_of_Z z.
Proof.
  intros H. unfold num_of_Z. rewrite clampScore_finite, Qfloor_half.
  unfold num_of_Z. do 2 f_equal. lia.
Qed.

(** X8: clamping a score twice is clamping it once (the free-text path
    clamps the score it reads, and the normalization clamps it again);
    the integers from 0 to 10 are left as they are; and a larger finite
    score never gets a smaller clamped one. *)
Theorem clampScore_idempotent :
  (forall n, clampScore (clampScore n) = clampScore n)
  /\ (forall z, 0 <= z <= 10 -> clampScore (num_of_Z z) = num_of_Z z)
  /\ (forall p q a b,
         Qle p q ->
         clampScore (Fin p) = num_of_Z a -> clampScore (Fin q) = num_of_Z b ->
         a <= b).
Proof.
  split; [ | split].
  - intros n. destruct (clampScore_range n) as (z & Hz & ->).
    now apply clampScore_integer.
  - exact clampScore_integer.
  - intros p q a b Hpq. rewrite !clampScore_finite.
    assert (Hf : Qfloor (p + (1 # 2)) <= Qfloor (q + (1 # 2))).
    { apply Qfloor_resp_le. apply Qplus_le_l. exact Hpq. }
    revert Hf. generalize (Qfloor (p + (1 # 2))) (Qfloor (q + (1 # 2))).
    intros x y Hf. unfold num_of_Z, inject_Z. intros [= <-] [= <-]. lia.
Qed.

Lemma clampScore_idempotent_witness :
  clampScore (num_of_Z 7) = num_of_Z 7.
Proof.
  apply (proj1 (proj2 clampScore_idempotent)). lia.
Defined.

Lemma num_le_integers (a b : Z) : num_le (num_of_Z a) (num_of_Z b) = (a <=? b).
Proof. unfold num_le, num_of_Z. apply Qle_bool_inject_Z. Qed.

(** X9: the colour the popup gives to the score of a record follows the
    bands of the rubric sent to the provider: green for 0 to 2, blue for 3
    and 4, yellow for 5 and 6, orange for 7 and 8, red for 9 and 10; and
    every record the normalization returns gets one of these. *)
Theorem score_colour_bands :
  (forall z,
      getScoreColor (num_of_Z z)
      = if z <=? 2 then lit "text-green-600 bg-green-100"
        else if z <=? 4 then lit "text-blue-600 bg-blue-100"
        else if z <=? 6 then lit "text-yellow-600 bg-yellow-100"
        else if z <=? 8 then lit "text-orange-600 bg-orange-100"
        else lit "text-red-600 bg-red-100")
  /\ (forall nts data r,
         normalizeReply nts data = inr r ->
         exists z, 0 <= z <= 10 /\ privacy_score r = num_of_Z z
                   /\ (getScoreColor (privacy_score r)
                       = lit "text-green-600 bg-green-100" <-> z <= 2)
                   /\ (getScoreColor (privacy_score r)
                       = lit "text-red-600 bg-red-100" <-> 9 <= z)).
Proof.
  assert (H1 : forall z,
             getScoreColor (num_of_Z z)
             = if z <=? 2 then lit "text-green-600 bg-green-100"
               else if z <=? 4 then lit "text-blue-600 bg-blue-100"
               else if z <=? 6 then lit "text-yellow-600 bg-yellow-100"
               else if z <=? 8 then lit "text-orange-600 bg-orange-100"
               else lit "text-red-600 bg-red-100").
  { intros z. unfold getScoreColor. now rewrite !num_le_integers. }
  split; [exact H1 | ].
  intros nts data r H.
  apply normalizeReply_inr in H as (parsed & _ & H).
  apply normalizeRecord_inr in H as (n & e & text & _ & _ & _ & ->).
  cbn [privacy_score]. destruct (clampScore_range n) as (z & Hz & ->).
  exists z. split; [exact Hz | ]. split; [reflexivity | ].
  rewrite H1.
  destruct (Z.leb_spec z 2), (Z.leb_spec z 4), (Z.leb_spec z 6), (Z.leb_spec z 8);
    split; split; intros; try lia; try reflexivity; try discriminate.
Qed.

Lemma score_colour_bands_witness :
  exists z, 0 <= z <= 10
    /\ privacy_score (mkSummary (num_of_Z 10) (lit "Too much") (lit "x")) = num_of_Z z
    /\ (getScoreColor (privacy_score (mkSummary (num_of_Z 10) (lit "Too much") (lit "x")))
        = lit "text-green-600 bg-green-100" <-> z <= 2)
    /\ (getScoreColor (privacy_score (mkSummary (num_of_Z 10) (lit "Too much") (lit "x")))
        = lit "text-red-600 bg-red-100" <-> 9 <= z).
Proof.
  apply (proj2 score_colour_bands (fun _ => [])
           (chat_reply (VStr (jsq
              "{'privacy_score':14,'score_explanation':'Too much.','summary':'x'}")))).
  vm_compute. reflexivity.
Defined.

(** ** The free-text fallback *)

Lemma score_of_line_clamped (ps : list regex) (line : jsstring) (n : number) :
  score_of_line ps line = Some n -> exists m, n = clampScore m.
Proof.
  induction ps as [ | re t IH]; [discriminate | ].
  cbn [score_of_line]. destruct (exec re line) as [m | ]; [ | exact IH].
  destruct (isNaN (parseInt10 (group1 m))); [exact IH | ].
  intros [= <-]. now eexists.
Qed.

Lemma detect_score_clamped (lines : list jsstring) (i : nat) (n : number) (k : nat) :
  detect_score lines i = Some (n, k) -> exists m, n = clampScore m.
Proof.
  revert i. induction lines as [ | l t IH]; intros i; [discriminate | ].
  cbn [detect_score].
  destruct (score_of_line scorePatterns l) as [n' | ] eqn:Hs; [ | apply IH].
  intros [= <- <-]. now apply score_of_line_clamped in Hs.
Qed.

(** X10: whatever the content, the free-text fallback builds a record
    whose score is an integer from 0 to 10 and whose explanation is not
    empty; its summary is empty exactly when the content, once trimmed and
    freed from its fence, is empty (which is the case of every content that
    is not a string). *)
Theorem extractFromUnstructured_record (content : value) :
  exists z e t,
    extractFromUnstructured content = mk_record (num_of_Z z) e t
    /\ 0 <= z <= 10
    /\ e <> []
    /\ (t = [] <-> stripCodeFences (text_of content) = []).
Proof.
  unfold extractFromUnstructured. cbv zeta.
  set (text := stripCodeFences (text_of content)).
  set (lines := lines_of text).
  assert (Hscore : exists z, 0 <= z <= 10
            /\ match detect_score lines 0 with
               | Some (n, _) => n
               | None => num_of_Z 5
               end = num_of_Z z).
  { destruct (detect_score lines 0) as [[n k] | ] eqn:Hd.
    - apply detect_score_clamped in Hd as [m ->]. apply clampScore_range.
    - exists 5. split; [lia | reflexivity]. }
  destruct Hscore as (z & Hz & ->).
  eexists z, _, _. split; [reflexivity | ]. split; [exact Hz | ]. split.
  - match goal with
    | |- match ?x with [] => _ | _ => _ end <> [] => destruct x eqn:Hx
    end; [ | discriminate].
    destruct (detect_score lines 0); discriminate.
  - split.
    + match goal with
      | |- match ?x with [] => _ | _ => _ end = [] -> _ => destruct x
      end; [ | discriminate].
      match goal with
      | |- match ?x with [] => _ | _ => _ end = [] -> _ => destruct x
      end; [tauto | discriminate].
    + intros Ht. subst lines. rewrite Ht. reflexivity.
Qed.

(** ** JSON inside prose *)

Lemma indexOf_from_skip (c : N) (a s : jsstring) (i : nat) :
  existsb (N.eqb c) a = false ->
  indexOf_from c (a ++ s) i = indexOf_from c s (i + length a).
Proof.
  revert i. induction a as [ | d t IH]; intros i H.
  - cbn. now rewrite Nat.add_0_r.
  - cbn [existsb] in H. apply orb_false_iff in H as [Hd Ht].
    cbn [app indexOf_from length]. rewrite Hd, IH by exact Ht.
    f_equal. lia.
Qed.

Lemma lastIndexOf_from_skip (c : N) (b : jsstring) (i : nat) (acc : option nat) :
  existsb (N.eqb c) b = false -> lastIndexOf_from c b i acc = acc.
Proof.
  revert i acc. induction b as [ | d t IH]; intros i acc H; [reflexivity | ].
  cbn [existsb] in H. apply orb_false_iff in H as [Hd Ht].
  cbn [lastIndexOf_from]. rewrite Hd. now apply IH.
Qed.

Lemma lastIndexOf_from_app (c : N) (a b : jsstring) (i : nat) (acc : option nat) :
  lastIndexOf_from c (a ++ b) i acc
  = lastIndexOf_from c b (i + length a) (lastIndexOf_from c a i acc).
Proof.
  revert i acc. induction a as [ | d t IH]; intros i acc.
  - cbn. now rewrite Nat.add_0_r.
  - cbn [app lastIndexOf_from length]. rewrite IH. f_equal. lia.
Qed.

Lemma lastIndexOf_from_last (c : N) (j : jsstring) (i : nat) (acc : option nat) :
  lastIndexOf_from c (j ++ [c]) i acc = Some (i + length j)%nat.
Proof.
  rewrite lastIndexOf_from_app. cbn [lastIndexOf_from]. now rewrite N.eqb_refl.
Qed.

Lemma slice_middle (a j b : jsstring) :
  slice (a ++ j ++ b) (length a) (length a + length j) = j.
Proof.
  unfold slice. rewrite List.skipn_app, List.skipn_all, Nat.sub_diag.
  change (skipn 0 (j ++ b)) with (j ++ b). cbn [app].
  replace (length a + length j - length a)%nat with (length j) by lia.
  rewrite List.firstn_app, List.firstn_all, Nat.sub_diag. cbn. apply app_nil_r.
Qed.

(** X11: when the content as a whole is not JSON but holds, between a
    text without opening brace and a text without closing brace, a part
    that starts with an opening brace and ends with a closing one, that
    part alone is parsed: the reply is the JSON object found inside the
    prose, or nothing when that part is not JSON either. *)
Theorem json_inside_prose (content a j b : jsstring) :
  stripCodeFences content = a ++ (123%N :: j ++ [125%N]) ++ b ->
  JSON_parse (stripCodeFences content) = None ->
  existsb (N.eqb 123) a = false ->
  existsb (N.eqb 125) b = false ->
  tryParseJsonString content
  = match JSON_parse (123%N :: j ++ [125%N]) with
    | Some v => v
    | None => VNull
    end.
Proof.
  intros Ht Hp Ha Hb. unfold tryParseJsonString. rewrite Hp, Ht.
  unfold indexOf, lastIndexOf.
  assert (Hi : indexOf_from 123 (a ++ (123%N :: j ++ [125%N]) ++ b) 0
               = Some (length a)).
  { rewrite indexOf_from_skip by exact Ha. reflexivity. }
  assert (Hl : lastIndexOf_from 125 (a ++ (123%N :: j ++ [125%N]) ++ b) 0 None
               = Some (length a + S (length j))%nat).
  { rewrite lastIndexOf_from_app.
    change ((123%N :: j ++ [125%N]) ++ b) with (((123%N :: j) ++ [125%N]) ++ b).
    rewrite lastIndexOf_from_app, lastIndexOf_from_last.
    rewrite lastIndexOf_from_skip by exact Hb. reflexivity. }
  rewrite Hi, Hl.
  rewrite (proj2 (Nat.ltb_lt _ _)) by lia.
  replace (length a + S (length j) + 1)%nat
    with (length a + length (123%N :: j ++ [125%N]))%nat
    by (cbn [length]; rewrite length_app; cbn; lia).
  now rewrite slice_middle.
Qed.

Lemma json_inside_prose_witness :
  tryParseJsonString
    (lit "Here it is: " ++ jsq "{'privacy_score':4,'summary':'ok'}" ++ lit " Hope it helps!")
  = match JSON_parse (jsq "{'privacy_score':4,'summary':'ok'}") with
    | Some v => v
    | None => VNull
    end.
Proof.
  apply (json_inside_prose
           (lit "Here it is: " ++ jsq "{'privacy_score':4,'summary':'ok'}"
              ++ lit " Hope it helps!")
           (lit "Here it is: ") (jsq "'privacy_score':4,'summary':'ok'")
           (lit " Hope it helps!")).
  - vm_compute. reflexivity.
  - vm_compute. reflexivity.
  - vm_compute. reflexivity.
  - vm_compute. reflexivity.
Defined.

(** ** Segmented and direct replies *)

(** What [findRecord] does with a chat completion that has no
    alternative content. *)
Lemma findRecord_chat nts (c : value) :
  findRecord nts (chat_reply c)
  = let parsed := tryParseJsonFromContent c in
    let parsed :=
      if negb (truthy parsed) then extractFromUnstructured c else parsed in
    let parsed :=
      if truthy parsed && is_object parsed
         && truthy (get parsed (lit "content"))
         && is_string (get parsed (lit "content"))
      then
        let inner := tryParseJsonFromContent (get parsed (lit "content")) in
        if truthy inner then inner else parsed
      else parsed in
    if isArray parsed then
      let again := tryParseJsonFromContent parsed in
      if truthy again then Some again
      else option_map (fun s => extractFromUnstructured (VStr s))
             (ToString nts parsed)
    else Some parsed.
Proof.
  unfold findRecord, chat_reply. cbv beta iota zeta.
  change (rawContentOf
            (VObj [(lit "choices",
                    VArr [VObj [(lit "message", VObj [(lit "content", c)])]])]))
    with c.
  change (altContentOf
            (VObj [(lit "choices",
                    VArr [VObj [(lit "message", VObj [(lit "content", c)])]])]))
    with VNull.
  cbn [truthy]. set (p := tryParseJsonFromContent c).
  destruct (truthy p) eqn:E;
    repeat (progress (cbn [negb]; cbv beta iota; rewrite ?E)); reflexivity.
Qed.

(** The same for every reply: the value found in the content, or else
    in the alternative fields, is settled. *)
Lemma findRecord_settle nts (data : value) :
  data <> VUndefined -> data <> VNull ->
  findRecord nts data
  = settle nts
      (let parsed := tryParseJsonFromContent (rawContentOf data) in
       if negb (truthy parsed) then
         if truthy (altContentOf data)
         then tryParseJsonFromContent (altContentOf data)
         else parsed
       else parsed)
      (rawContentOf data).
Proof. intros Hu Hn. destruct data; try contradiction; reflexivity. Qed.

Lemma findRecord_chat_settle nts (c : value) :
  findRecord nts (chat_reply c) = settle nts (tryParseJsonFromContent c) c.
Proof. rewrite findRecord_chat. reflexivity. Qed.

(** A value that was found is settled without another look at the
    content. *)
Lemma settle_found nts (parsed r1 r2 : value) :
  truthy parsed = true -> settle nts parsed r1 = settle nts parsed r2.
Proof. intros H. unfold settle. now rewrite H. Qed.

(** X12: a reply whose content is made of segments. When the text of the
    segments put together holds JSON that can be used, the result is the
    one of that text given as the content of a plain reply. When it does
    not, the text of the segments is not looked at again: if an
    alternative field of the message ([reasoning_content], [tool_content],
    [content_text]) holds JSON that can be used, the result is read from
    that field; if none does, the record is the neutral one, with an empty
    summary, whatever the segments say. *)
Theorem segmented_content nts (data : value) (segs : list value) :
  data <> VUndefined -> data <> VNull ->
  rawContentOf data = VArr segs ->
  let joined := concat (List.map segment_text segs) in
  (truthy (tryParseJsonString joined) = true ->
   normalizeReply nts data = normalizeReply nts (chat_reply (VStr joined)))
  /\ (truthy (tryParseJsonString joined) = false ->
      truthy (altContentOf data) = true ->
      truthy (tryParseJsonFromContent (altContentOf data)) = true ->
      normalizeReply nts data
      = normalizeReply nts (chat_reply (altContentOf data)))
  /\ (truthy (tryParseJsonString joined) = false ->
      (truthy (altContentOf data) = true ->
       truthy (tryParseJsonFromContent (altContentOf data)) = false) ->
      normalizeReply nts data
      = inr (mkSummary (num_of_Z 5)
               (lit "No explicit score provided; using neutral score") [])).
Proof.
  intros Hu Hn Hraw joined.
  assert (Hp : tryParseJsonFromContent (rawContentOf data)
               = tryParseJsonString joined) by now rewrite Hraw.
  split; [ | split].
  - intros H. unfold normalizeReply. f_equal.
    rewrite (findRecord_settle nts data Hu Hn), findRecord_chat_settle.
    cbv zeta. rewrite Hp, H. cbn [negb tryParseJsonFromContent].
    now apply settle_found.
  - intros H Ha Hj. unfold normalizeReply. f_equal.
    rewrite (findRecord_settle nts data Hu Hn), findRecord_chat_settle.
    cbv zeta. rewrite Hp, H, Ha. cbn [negb].
    now apply settle_found.
  - intros H Ha. unfold normalizeReply.
    rewrite (findRecord_fallback nts data (num_of_Z 5)
               (lit "No explicit score provided; using neutral score.") []
               Hu Hn); [ | now rewrite Hp | exact Ha | now rewrite Hraw].
    cbn [throwing]. rewrite normalizeRecord_mk_record.
    vm_compute. reflexivity.
Qed.

Lemma segmented_content_witness :
  normalizeReply (fun _ => [])
    (chat_reply (VArr [VStr (lit "Privacy score: 9/10"); VStr (lit " because.")]))
  = inr (mkSummary (num_of_Z 5)
           (lit "No explicit score provided; using neutral score") []).
Proof.
  refine (proj2 (proj2 (segmented_content (fun _ => [])
                          (chat_reply (VArr [VStr (lit "Privacy score: 9/10");
                                             VStr (lit " because.")]))
                          [VStr (lit "Privacy score: 9/10"); VStr (lit " because.")]
                          _ _ eq_refl)) _ _).
  - discriminate.
  - discriminate.
  - vm_compute. reflexivity.
  - vm_compute. discriminate.
Defined.

(** X13: a content that is already an object, with no text wrapped in its
    [content] or [text] field, is taken as the record itself. *)
Theorem direct_record nts (l : list (jsstring * value)) :
  (forall s, get (VObj l) (lit "content") = VStr s -> s = []) ->
  (is_string (get (VObj l) (lit "content")) = false ->
   forall s, get (VObj l) (lit "text") = VStr s -> s = []) ->
  findRecord nts (chat_reply (VObj l)) = Some (VObj l)
  /\ normalizeReply nts (chat_reply (VObj l)) = normalizeRecord nts (VObj l).
Proof.
  intros Hc Ht.
  assert (Hf : findRecord nts (chat_reply (VObj l)) = Some (VObj l)).
  { rewrite findRecord_chat. cbv zeta.
    assert (Hp : tryParseJsonFromContent (VObj l) = VObj l).
    { unfold tryParseJsonFromContent.
      destruct (get (VObj l) (lit "content")) as [ | | | | s | | ] eqn:E;
        try (destruct (get (VObj l) (lit "text")) as [ | | | | s' | | ] eqn:E';
             try reflexivity;
             rewrite (Ht eq_refl s' eq_refl); reflexivity).
      now rewrite (Hc s eq_refl). }
    rewrite Hp. cbn [truthy negb andb is_object typeof].
    destruct (get (VObj l) (lit "content")) as [ | | | | s | | ] eqn:E;
      cbn [is_string andb isArray]; rewrite ?andb_false_r; try reflexivity.
    now rewrite (Hc s eq_refl). }
  split; [exact Hf | ]. unfold normalizeReply. now rewrite Hf.
Qed.

Lemma direct_record_witness :
  normalizeReply (fun _ => [])
    (chat_reply (VObj [(lit "privacy_score", VNum (num_of_Z 2));
                       (lit "summary", VStr (lit "# Fine"))]))
  = normalizeRecord (fun _ => [])
      (VObj [(lit "privacy_score", VNum (num_of_Z 2));
             (lit "summary", VStr (lit "# Fine"))]).
Proof.
  refine (proj2 (direct_record (fun _ => [])
                   [(lit "privacy_score", VNum (num_of_Z 2));
                    (lit "summary", VStr (lit "# Fine"))] _ _)).
  - intros s. vm_compute. discriminate.
  - intros _ s. vm_compute. discriminate.
Defined.

(** ** Code fences *)

Lemma rmatch_seq (a b : regex) (st : mstate) :
  rmatch (RSeq a b) st = flat_map (rmatch b) (rmatch a st).
Proof. reflexivity. Qed.

Lemma rmatch_fence_open (x : jsstring) :
  exists pre tl,
    rmatch re_fence_open (MState [] (96 :: 96 :: 96 :: x)%N [])
    = MState pre (drop_newline (drop_while is_alpha x)) [] :: tl.
Proof.
  unfold re_fence_open, rseq. rewrite rmatch_seq.
  change (rmatch RBol (MState [] (96 :: 96 :: 96 :: x)%N []))
    with [MState [] (96 :: 96 :: 96 :: x)%N []].
  rewrite flat_map_single, rmatch_seq.
  change (rmatch (word "```") (MState [] (96 :: 96 :: 96 :: x)%N []))
    with [MState [96; 96; 96]%N x []].
  rewrite flat_map_single, rmatch_seq, rmatch_star_class.
  destruct (run_states_head is_alpha [96; 96; 96]%N x []) as [tl ->].
  cbn [flat_map]. unfold ropt at 1. cbn [rmatch m_rest m_pre m_caps chr].
  unfold drop_newline.
  destruct (drop_while is_alpha x) as [ | c t]; cbn [app].
  - eexists _, _. reflexivity.
  - destruct (LF =? c)%N; cbn [app]; eexists _, _; reflexivity.
Qed.

Lemma replace_fence_open (x : jsstring) :
  replace re_fence_open [] (96 :: 96 :: 96 :: x)%N
  = drop_newline (drop_while is_alpha x).
Proof.
  unfold replace, exec. cbn [search_from].
  destruct (rmatch_fence_open x) as (pre & tl & ->). reflexivity.
Qed.

Lemma drop_newline_fence (x : jsstring) :
  drop_newline (drop_while is_alpha (x ++ [96; 96; 96]%N))
  = drop_newline (drop_while is_alpha x) ++ [96; 96; 96]%N.
Proof.
  induction x as [ | c t IH]; [reflexivity | ].
  cbn [app drop_while]. destruct (is_alpha c); [exact IH | ].
  cbn [drop_newline]. now destruct (LF =? c)%N.
Qed.

Lemma rmatch_fence_close_long (pre rest : jsstring) :
  (3 < length rest)%nat -> rmatch re_fence_close (MState pre rest []) = [].
Proof.
  destruct rest as [ | a [ | b [ | c [ | d r]]]]; cbn [length]; try lia.
  intros _. unfold re_fence_close, rseq. rewrite rmatch_seq.
  change (word "```") with (RSeq (chr 96) (RSeq (chr 96) (chr 96))).
  rewrite !rmatch_seq. cbn [rmatch m_rest m_pre m_caps chr].
  destruct (96 =? a)%N; [ | reflexivity]. cbn [flat_map app m_rest m_pre m_caps].
  destruct (96 =? b)%N; [ | reflexivity]. cbn [flat_map app m_rest m_pre m_caps].
  destruct (96 =? c)%N; reflexivity.
Qed.

Lemma search_fence_close (y pre acc : jsstring) :
  search_from re_fence_close pre (y ++ [96; 96; 96]%N) acc
  = Some (MatchResult (rev acc ++ y)
            (MState (96 :: 96 :: 96 :: rev y ++ pre)%N [] [])).
Proof.
  revert pre acc. induction y as [ | c t IH]; intros pre acc.
  - cbn. now rewrite app_nil_r.
  - cbn [app search_from]. rewrite rmatch_fence_close_long
      by (cbn [length]; rewrite length_app; cbn; lia).
    rewrite IH. cbn [rev]. now rewrite <- !app_assoc.
Qed.

Lemma replace_fence_close (y : jsstring) :
  replace re_fence_close [] (y ++ [96; 96; 96]%N) = y.
Proof.
  unfold replace, exec. rewrite search_fence_close. cbn. apply app_nil_r.
Qed.

(** A text between two fences. *)
Lemma stripCodeFences_between (x : jsstring) :
  stripCodeFences (lit "```" ++ x ++ lit "```")
  = trim (drop_newline (drop_while is_alpha x)).
Proof.
  change (lit "```" ++ x ++ lit "```")
    with (96 :: 96 :: 96 :: x ++ [96; 96; 96])%N.
  assert (Hr : rev (96 :: 96 :: 96 :: x ++ [96; 96; 96])%N
               = (96 :: 96 :: 96 :: rev x ++ [96; 96; 96])%N).
  { change (96 :: 96 :: 96 :: x ++ [96; 96; 96])%N
      with ([96; 96; 96] ++ x ++ [96; 96; 96])%N.
    rewrite !rev_app_distr. cbn. rewrite <- ?app_assoc. reflexivity. }
  assert (Ht : trim (96 :: 96 :: 96 :: x ++ [96; 96; 96])%N
               = (96 :: 96 :: 96 :: x ++ [96; 96; 96])%N).
  { unfold trim, trimStart, trimEnd. cbn [drop_while].
    change (is_space 96) with false. cbv iota. rewrite Hr.
    cbn [drop_while]. change (is_space 96) with false. cbv iota.
    rewrite <- Hr. apply rev_involutive. }
  unfold stripCodeFences. rewrite Ht. unfold startsWith, endsWith. rewrite Hr.
  change (prefix_b (lit "```") (96 :: 96 :: 96 :: x ++ [96; 96; 96])%N) with true.
  change (prefix_b (rev (lit "```")) (96 :: 96 :: 96 :: rev x ++ [96; 96; 96])%N)
    with true.
  cbn [andb]. rewrite replace_fence_open, drop_newline_fence.
  now rewrite replace_fence_close.
Qed.

(** X14: what is left of a text between two fences of three backticks:
    the letters the text starts with (a language tag) and one line feed
    after them are dropped, and the rest is trimmed. *)
Theorem stripCodeFences_fenced (x : jsstring) :
  stripCodeFences (lit "```" ++ x ++ lit "```")
  = trim (drop_newline (drop_while is_alpha x)).
Proof. apply stripCodeFences_between. Qed.

(** ** A fence around the reply *)

Lemma drop_while_cons_app (p : N -> bool) (s b : jsstring) (c : N)
    (u : jsstring) :
  drop_while p s = c :: u -> drop_while p (s ++ b) = c :: u ++ b.
Proof.
  induction s as [ | d t IH]; [discriminate | ].
  cbn [drop_while app]. destruct (p d); [exact IH | ].
  now intros [= <- <-].
Qed.

Lemma trim_app_LF (s : jsstring) : trim (s ++ [LF]) = trim s.
Proof.
  unfold trim, trimStart.
  destruct (drop_while is_space s) as [ | c u] eqn:E.
  - assert (Ha : forallb is_space s = true).
    { clear -E. induction s as [ | d t IH]; [reflexivity | ].
      cbn [drop_while forallb] in *. destruct (is_space d); [now apply IH | ].
      discriminate. }
    now rewrite (drop_while_app _ _ _ Ha).
  - rewrite (drop_while_cons_app _ _ _ _ _ E).
    unfold trimEnd. change (c :: u ++ [LF]) with ((c :: u) ++ [LF]).
    rewrite rev_app_distr. reflexivity.
Qed.

(** The reading of a reply depends on its text through [stripCodeFences]
    alone. *)
Lemma same_stripped_text (s1 s2 : jsstring) :
  stripCodeFences s1 = stripCodeFences s2 ->
  tryParseJsonFromContent (VStr s1) = tryParseJsonFromContent (VStr s2)
  /\ extractFromUnstructured (VStr s1) = extractFromUnstructured (VStr s2).
Proof.
  intros H. split.
  - cbn [tryParseJsonFromContent]. unfold tryParseJsonString. now rewrite H.
  - unfold extractFromUnstructured. cbn [text_of]. now rewrite H.
Qed.

(** X27: a fence around a reply changes nothing. For every text that is
    not itself fenced and every language tag made of letters, the reply
    that wraps the text in a fence gives the result the text alone gives,
    whether that is a record, the free-text reading or an error. *)
Theorem fence_is_transparent (nts : number -> jsstring) (tag body : jsstring) :
  forallb is_alpha tag = true ->
  startsWith (trim body) (lit "```") && endsWith (trim body) (lit "```") = false ->
  normalizeReply nts
    (chat_reply (VStr (lit "```" ++ tag ++ [LF] ++ body ++ [LF] ++ lit "```")))
  = normalizeReply nts (chat_reply (VStr body)).
Proof.
  intros Htag Hbody.
  assert (H : stripCodeFences (lit "```" ++ tag ++ [LF] ++ body ++ [LF] ++ lit "```")
              = stripCodeFences body).
  { replace (lit "```" ++ tag ++ [LF] ++ body ++ [LF] ++ lit "```")
      with (lit "```" ++ (tag ++ LF :: body ++ [LF]) ++ lit "```")
      by (rewrite <- (app_assoc tag); cbn [app]; now rewrite <- app_assoc).
    rewrite stripCodeFences_between, (drop_while_app _ _ _ Htag).
    cbn [drop_while]. change (is_alpha LF) with false. cbv iota.
    unfold drop_newline. rewrite N.eqb_refl, trim_app_LF.
    unfold stripCodeFences. now rewrite Hbody. }
  destruct (same_stripped_text _ _ H) as [Hp He].
  unfold normalizeReply. rewrite !findRecord_chat. cbv zeta.
  now rewrite Hp, He.
Qed.

Lemma fence_is_transparent_witness :
  normalizeReply (fun _ => [])
    (chat_reply
       (VStr (lit "```" ++ lit "json" ++ [LF]
              ++ jsq "{'privacy_score':'7','summary':'s'}" ++ [LF] ++ lit "```")))
  = normalizeReply (fun _ => [])
      (chat_reply (VStr (jsq "{'privacy_score':'7','summary':'s'}"))).
Proof.
  apply (fence_is_transparent (fun _ => []) (lit "json")
           (jsq "{'privacy_score':'7','summary':'s'}")); reflexivity.
Defined.

(** ** The ToS;DR lookup *)

Lemma replace_www_prefix (d : jsstring) :
  replace re_www [] (lit "www." ++ d) = d.
Proof. reflexivity. Qed.

Lemma search_www_later (c : N) (pre rest acc : jsstring) :
  search_from re_www (c :: pre) rest acc = None.
Proof.
  revert c pre acc. induction rest as [ | d t IH]; intros c pre acc.
  - reflexivity.
  - cbn [search_from].
    change (rmatch re_www (MState (c :: pre) (d :: t) [])) with (@nil mstate).
    apply IH.
Qed.

Lemma rmatch_www_other (d : jsstring) :
  startsWith d (lit "www.") = false -> rmatch re_www (MState [] d []) = [].
Proof.
  unfold startsWith, re_www, rseq. rewrite rmatch_seq.
  change (rmatch RBol (MState [] d [])) with [MState [] d []].
  rewrite flat_map_single.
  change (word "www.")
    with (RSeq (chr 119) (RSeq (chr 119) (RSeq (chr 119) (chr 46)))).
  change (lit "www.") with [119; 119; 119; 46]%N.
  rewrite !rmatch_seq. cbn [rmatch m_rest m_pre m_caps chr prefix_b].
  destruct d as [ | a d]; [reflexivity | ].
  destruct (119 =? a)%N; [ | reflexivity].
  cbn [flat_map app m_rest m_pre m_caps andb].
  destruct d as [ | b d]; [reflexivity | ].
  destruct (119 =? b)%N; [ | reflexivity].
  cbn [flat_map app m_rest m_pre m_caps andb].
  destruct d as [ | c d]; [reflexivity | ].
  destruct (119 =? c)%N; [ | reflexivity].
  cbn [flat_map app m_rest m_pre m_caps andb].
  destruct d as [ | e d]; [reflexivity | ].
  destruct (46 =? e)%N; [discriminate | reflexivity].
Qed.

Lemma replace_www_other (d : jsstring) :
  startsWith d (lit "www.") = false -> replace re_www [] d = d.
Proof.
  intros H. unfold replace, exec.
  destruct d as [ | c t]; [reflexivity | ].
  cbn [search_from]. rewrite (rmatch_www_other _ H).
  now rewrite search_www_later.
Qed.

(** X15: the lookup removes one leading [www.] from the name, and only
    one. For a name that is not empty and does not itself start with
    [www.], the name and the same name after [www.] are looked up alike:
    same answer, same cache afterwards. And what is looked up for [www.]
    followed by any name is that name as it is, also when it starts with
    [www.] again. The empty name is answered with nothing and no request,
    while [www.] alone is looked up. *)
Theorem tosdr_www (fetch : jsstring -> fetch_result) (nts : number -> jsstring)
    (now : Z) (d : jsstring) (cache : tosdr_cache) :
  d <> [] ->
  startsWith d (lit "www.") = false ->
  lookupTosdr fetch nts now (lit "www." ++ d) cache
  = lookupTosdr fetch nts now d cache
  /\ (forall d',
         snd (lookupTosdr fetch nts now (lit "www." ++ d') ∅)
         = <[d' := (now, fst (lookupTosdr fetch nts now (lit "www." ++ d') ∅))]> ∅)
  /\ lookupTosdr fetch nts now [] cache = (VNull, cache).
Proof.
  intros Hd Hw. split; [ | split].
  - unfold lookupTosdr.
    rewrite replace_www_prefix, (replace_www_other _ Hw).
    destruct d; [contradiction | reflexivity].
  - intros d'. unfold lookupTosdr.
    change (lit "www." ++ d') with (119 :: 119 :: 119 :: 46 :: d')%N.
    change (replace re_www [] (119 :: 119 :: 119 :: 46 :: d')%N) with d'.
    rewrite lookup_empty. reflexivity.
  - reflexivity.
Qed.

Lemma tosdr_www_witness :
  lookupTosdr (fun _ => FetchNotOk) (fun _ => []) 0 (lit "www.example.com") ∅
  = lookupTosdr (fun _ => FetchNotOk) (fun _ => []) 0 (lit "example.com") ∅.
Proof.
  apply (tosdr_www (fun _ => FetchNotOk) (fun _ => []) 0 (lit "example.com") ∅).
  - discriminate.
  - reflexivity.
Defined.

(** X16: once a name has been looked up, the answer is kept for 24 hours,
    also when it is a failure: within that time no request is made, whatever
    the service would say now, and nothing changes in the cache. After that
    time the service is asked again. *)
Theorem tosdr_remembered (fetch fetch' : jsstring -> fetch_result)
    (nts : number -> jsstring) (t0 t : Z) (d : jsstring) (cache : tosdr_cache) :
  d <> [] ->
  (forall ts r, cache !! replace re_www [] d = Some (ts, r) ->
                CACHE_TTL_MS <= t0 - ts) ->
  (t - t0 < CACHE_TTL_MS ->
   lookupTosdr fetch' nts t d (snd (lookupTosdr fetch nts t0 d cache))
   = lookupTosdr fetch nts t0 d cache)
  /\ (CACHE_TTL_MS <= t - t0 ->
      fst (lookupTosdr fetch' nts t d (snd (lookupTosdr fetch nts t0 d cache)))
      = match tosdr_attempt fetch' nts (replace re_www [] d) with
        | Some r => r
        | None => VNull
        end).
Proof.
  intros Hd Hold. unfold lookupTosdr.
  destruct d as [ | c u]; [contradiction | ].
  set (k := replace re_www [] (c :: u)) in *.
  assert (Hmiss :
    match cache !! k with
    | Some (ts, result) =>
        if (t0 - ts <? CACHE_TTL_MS) then Some result else None
    | None => None
    end = None).
  { destruct (cache !! k) as [[ts r] | ] eqn:E; [ | reflexivity].
    specialize (Hold ts r eq_refl).
    now rewrite (proj2 (Z.ltb_ge _ _)) by lia. }
  rewrite Hmiss. cbn [snd fst]. rewrite lookup_insert_eq. split; intros Ht.
  - now rewrite (proj2 (Z.ltb_lt _ _)) by lia.
  - rewrite (proj2 (Z.ltb_ge _ _)) by lia. reflexivity.
Qed.

Lemma tosdr_remembered_witness :
  lookupTosdr (fun _ => FetchOk (Some VNull)) (fun _ => []) 1000
    (lit "example.com")
    (snd (lookupTosdr (fun _ => FetchRejected) (fun _ => []) 0
            (lit "example.com") ∅))
  = lookupTosdr (fun _ => FetchRejected) (fun _ => []) 0 (lit "example.com") ∅.
Proof.
  refine (proj1 (tosdr_remembered (fun _ => FetchRejected)
                   (fun _ => FetchOk (Some VNull)) (fun _ => []) 0 1000
                   (lit "example.com") ∅ _ _) _).
  - discriminate.
  - intros ts r H. rewrite lookup_empty in H. discriminate.
  - reflexivity.
Defined.

Lemma find_service_rated (l : list value) (s : value) :
  find_service l = Some s -> truthy s = true -> has_rating s = Some true.
Proof.
  induction l as [ | x t IH]; cbn [find_service].
  - intros [= <-]. discriminate.
  - destruct (has_rating x) as [[ | ] | ] eqn:E; [ | exact IH | discriminate].
    now intros [= <-].
Qed.

Lemma rated_service_rated (data s : value) :
  rated_service data = Some s -> truthy s = true -> has_rating s = Some true.
Proof.
  unfold rated_service.
  destruct data; try (intros [= <-]; discriminate);
    (destruct (get _ (lit "services")); try discriminate;
     try (intros [= <-]; discriminate); apply find_service_rated).
Qed.

Lemma tosdr_attempt_ok (fetch : jsstring -> fetch_result)
    (nts : number -> jsstring) (k : jsstring) (r : value) :
  tosdr_attempt fetch nts k = Some r -> tosdr_result_ok r = true.
Proof.
  unfold tosdr_attempt.
  destruct (encodeURIComponent k) as [q | ]; [ | discriminate].
  destruct (fetch _) as [ | | [data | ]]; try discriminate.
  - now intros [= <-].
  - destruct (rated_service data) as [s | ] eqn:Es; [ | discriminate].
    destruct (truthy s) eqn:Ts; [ | now intros [= <-]].
    pose proof (rated_service_rated _ _ Es Ts) as Hr.
    destruct (ToString nts (get s (lit "name"))) as [name | ]; [ | discriminate].
    destruct (ToString nts (get s (lit "rating"))) as [rating | ];
      [ | discriminate].
    intros [= <-]. unfold has_rating in Hr.
    assert (Hg : truthy (get s (lit "rating"))
                 && negb (is_str (get s (lit "rating")) (lit "N/A"))
                 && negb (is_str (get s (lit "rating")) []) = true).
    { destruct s; try discriminate; now injection Hr. }
    apply andb_true_iff in Hg as [Hg _]. apply andb_true_iff in Hg as [H1 H2].
    unfold tosdr_result_ok.
    change (get (VObj _) (lit "source")) with (VStr (lit "tosdr")).
    change (get (VObj _) (lit "rating")) with (get s (lit "rating")).
    change (get (VObj _) (lit "summary"))
      with (VStr (lit "ToS;DR rating for " ++ name ++ lit ": " ++ rating)).
    rewrite H1, H2. reflexivity.
Qed.

(** X17: the lookup gives nothing or a record of source [tosdr] whose
    rating is set and is not [N/A], and so does every entry it leaves in
    the cache, as long as the cache it started from was so. *)
Theorem tosdr_rated_only (fetch : jsstring -> fetch_result)
    (nts : number -> jsstring) (now : Z) (d : jsstring) (cache : tosdr_cache) :
  (forall k ts r, cache !! k = Some (ts, r) -> tosdr_result_ok r = true) ->
  tosdr_result_ok (fst (lookupTosdr fetch nts now d cache)) = true
  /\ forall k ts r,
       snd (lookupTosdr fetch nts now d cache) !! k = Some (ts, r) ->
       tosdr_result_ok r = true.
Proof.
  intros Hc. unfold lookupTosdr.
  destruct d as [ | c u]; [split; [reflexivity | exact Hc] | ].
  set (key := replace re_www [] (c :: u)).
  assert (Hres : tosdr_result_ok
                   match tosdr_attempt fetch nts key with
                   | Some r => r
                   | None => VNull
                   end = true).
  { destruct (tosdr_attempt fetch nts key) as [r | ] eqn:E; [ | reflexivity].
    exact (tosdr_attempt_ok _ _ _ _ E). }
  destruct (cache !! key) as [[ts0 r0] | ] eqn:E.
  - destruct (now - ts0 <? CACHE_TTL_MS).
    + cbn [fst snd]. split; [exact (Hc _ _ _ E) | exact Hc].
    + cbn [fst snd]. split; [exact Hres | ].
      intros k ts r H. apply lookup_insert_Some in H as [[_ [= <- <-]] | [_ H]].
      * exact Hres.
      * exact (Hc _ _ _ H).
  - cbn [fst snd]. split; [exact Hres | ].
    intros k ts r H. apply lookup_insert_Some in H as [[_ [= <- <-]] | [_ H]].
    + exact Hres.
    + exact (Hc _ _ _ H).
Qed.

Lemma tosdr_rated_only_witness :
  tosdr_result_ok
    (fst (lookupTosdr
            (fun _ => FetchOk (Some (VObj [(lit "services",
                        VArr [VObj [(lit "name", VStr (lit "A"));
                                    (lit "rating", VStr (lit "N/A"))];
                              VObj [(lit "name", VStr (lit "B"));
                                    (lit "rating", VStr (lit "C"))]])])))
            (fun _ => []) 0 (lit "example.com") ∅)) = true.
Proof.
  refine (proj1 (tosdr_rated_only _ (fun _ => []) 0 (lit "example.com") ∅ _)).
  intros k ts r H. rewrite lookup_empty in H. discriminate.
Defined.

Lemma hex_upper_safe (d : N) : (d < 16)%N -> uri_safe (hex_upper d) = true.
Proof.
  intros H. unfold uri_safe, uri_unreserved, hex_upper, is_alpha, is_upper,
    is_lower, is_digit.
  destruct (d <? 10)%N eqn:E.
  - apply N.ltb_lt in E.
    rewrite (proj2 (N.leb_le 48 (48 + d)%N)) by lia.
    rewrite (proj2 (N.leb_le (48 + d) 57)%N) by lia.
    cbn [andb]. now rewrite !orb_true_r.
  - apply N.ltb_ge in E.
    rewrite (proj2 (N.leb_le 65 (55 + d)%N)) by lia.
    rewrite (proj2 (N.leb_le (55 + d) 90)%N) by lia.
    reflexivity.
Qed.

Lemma percent_safe (b : N) : (b < 256)%N -> forallb uri_safe (percent b) = true.
Proof.
  intros H. unfold percent. cbn [forallb].
  change (uri_safe 37) with true.
  rewrite !hex_upper_safe; [reflexivity | | ].
  - apply N.mod_upper_bound. lia.
  - apply N.Div0.div_lt_upper_bound. lia.
Qed.

Lemma percent_bytes_safe (l : list N) :
  Forall (fun b => (b < 256)%N) l -> forallb uri_safe (flat_map percent l) = true.
Proof.
  induction 1 as [ | b t Hb _ IH]; [reflexivity | ].
  cbn [flat_map]. now rewrite forallb_app, percent_safe, IH.
Qed.

Lemma encodeURIComponent_safe (s q : jsstring) :
  encodeURIComponent s = Some q -> forallb uri_safe q = true.
Proof.
  remember (length s) as n eqn:Hn. revert s q Hn.
  induction n as [n IH] using lt_wf_ind. intros s q Hn.
  destruct s as [ | c t]; [now intros [= <-] | ].
  cbn [encodeURIComponent].
  destruct (is_high_surrogate c).
  - destruct t as [ | d u]; [discriminate | ].
    destruct (is_low_surrogate d); [ | discriminate].
    destruct (encodeURIComponent u) as [q' | ] eqn:E; [ | discriminate].
    intros [= <-]. rewrite forallb_app, percent_bytes_safe by apply utf8_bytes.
    apply (IH (length u)) with (s := u); [cbn in Hn; lia | reflexivity | exact E].
  - destruct (is_low_surrogate c); [discriminate | ].
    destruct (encodeURIComponent t) as [q' | ] eqn:E; [ | discriminate].
    intros [= <-]. rewrite forallb_app.
    rewrite (IH (length t)) with (s := t) (q := q');
      [ | cbn in Hn; lia | reflexivity | exact E].
    rewrite andb_true_r.
    destruct (uri_unreserved c) eqn:Hc.
    + cbn [forallb]. unfold uri_safe. now rewrite Hc.
    + apply percent_bytes_safe, utf8_bytes.
Qed.

(** X26: the only addresses the lookup asks for are the address of the
    search followed by a query made of unreserved characters and percent
    escapes: nothing in a domain name can add a parameter, a fragment or a
    path to the request. Two services that agree on those addresses cannot
    be told apart. *)
Theorem tosdr_requests_escaped (fetch fetch' : jsstring -> fetch_result)
    (nts : number -> jsstring) (now : Z) (d : jsstring) (cache : tosdr_cache) :
  (forall q, forallb uri_safe q = true ->
             fetch (lit "https://api.tosdr.org/search/v5/?query=" ++ q)
             = fetch' (lit "https://api.tosdr.org/search/v5/?query=" ++ q)) ->
  lookupTosdr fetch nts now d cache = lookupTosdr fetch' nts now d cache.
Proof.
  intros H. unfold lookupTosdr. destruct d as [ | c u]; [reflexivity | ].
  assert (Ha : forall k, tosdr_attempt fetch nts k = tosdr_attempt fetch' nts k).
  { intros k. unfold tosdr_attempt.
    destruct (encodeURIComponent k) as [q | ] eqn:E; [ | reflexivity].
    now rewrite (H q (encodeURIComponent_safe _ _ E)). }
  now rewrite Ha.
Qed.

Lemma tosdr_requests_escaped_witness :
  lookupTosdr
    (fun u => if includes u (lit "&") then FetchRejected else FetchNotOk)
    (fun _ => []) 0 (lit "a.com&x=1") ∅
  = lookupTosdr (fun _ => FetchNotOk) (fun _ => []) 0 (lit "a.com&x=1") ∅.
Proof.
  apply (tosdr_requests_escaped
           (fun u => if includes u (lit "&") then FetchRejected else FetchNotOk)
           (fun _ => FetchNotOk) (fun _ => []) 0 (lit "a.com&x=1") ∅).
  intros q Hq.
  assert (Hi : includes (lit "https://api.tosdr.org/search/v5/?query=" ++ q)
                 (lit "&") = false).
  { change (lit "&") with [38%N].
    assert (Hs : forall s, forallb (fun c => negb (c =? 38)%N) s = true ->
                           includes s [38%N] = false).
    { induction s as [ | c t IH]; [reflexivity | ].
      cbn [forallb includes prefix_b]. intros Hc.
      apply andb_true_iff in Hc as [Hc Ht]. rewrite (IH Ht).
      rewrite N.eqb_sym. apply negb_true_iff in Hc. now rewrite Hc. }
    apply Hs. rewrite forallb_app. apply andb_true_iff. split; [reflexivity | ].
    clear Hs. induction q as [ | c t IH]; [reflexivity | ].
    cbn [forallb] in *. apply andb_true_iff in Hq as [Hc Ht].
    rewrite (IH Ht), andb_true_r.
    destruct (c =? 38)%N eqn:E; [ | reflexivity].
    apply N.eqb_eq in E. subst c. discriminate. }
  now rewrite Hi.
Defined.

(** ** The request *)

Lemma assoc_obj_set (k k' : jsstring) (v : value) (l : list (jsstring * value)) :
  assoc k (obj_set k' v l) = if str_eqb k k' then Some v else assoc k l.
Proof.
  induction l as [ | [k0 v0] t IH]; cbn [obj_set assoc].
  - reflexivity.
  - destruct (str_eqb k' k0) eqn:E0; cbn [assoc].
    + apply str_eqb_eq in E0 as <-. now destruct (str_eqb k k').
    + rewrite IH. destruct (str_eqb k k0) eqn:E1; [ | reflexivity].
      apply str_eqb_eq in E1 as <-.
      destruct (str_eqb k k') eqn:E2; [ | reflexivity].
      apply str_eqb_eq in E2 as <-.
      rewrite (proj2 (str_eqb_eq k k) eq_refl) in E0. discriminate.
Qed.

(** Of two properties of the same name the later one of [src] counts. *)
Lemma assoc_spread (k : jsstring) (src target : list (jsstring * value)) :
  assoc k (spread target src)
  = match assoc k (rev src) with
    | Some v => Some v
    | None => assoc k target
    end.
Proof.
  unfold spread. revert target.
  induction src as [ | [k0 v0] s IH] using rev_ind; intros target.
  - reflexivity.
  - rewrite fold_left_app, rev_app_distr. cbn [fold_left rev app assoc fst snd].
    rewrite assoc_obj_set. destruct (str_eqb k k0); [reflexivity | apply IH].
Qed.

Lemma assoc_filter (p : jsstring -> bool) (k : jsstring)
    (l : list (jsstring * value)) :
  p k = true ->
  assoc k (List.filter (fun kv => p (fst kv)) l) = assoc k l.
Proof.
  intros Hk. induction l as [ | [k0 v0] t IH]; [reflexivity | ].
  cbn [List.filter fst assoc]. destruct (str_eqb k k0) eqn:E.
  - apply str_eqb_eq in E as <-. rewrite Hk. cbn [assoc].
    now rewrite (proj2 (str_eqb_eq k k) eq_refl).
  - destruct (p k0); [cbn [assoc]; now rewrite E | exact IH].
Qed.

(** The names of the properties of an object, in order. *)
Lemma keys_obj_set (k : jsstring) (v : value) (l : list (jsstring * value)) :
  List.map fst (obj_set k v l)
  = if array_includes (List.map fst l) k then List.map fst l
    else List.map fst l ++ [k].
Proof.
  unfold array_includes.
  induction l as [ | [k0 v0] t IH]; [reflexivity | ].
  cbn [obj_set List.map fst existsb]. destruct (str_eqb k k0) eqn:E.
  - apply str_eqb_eq in E as <-. reflexivity.
  - cbn [List.map fst orb]. rewrite IH.
    now destruct (existsb (str_eqb k) (List.map fst t)).
Qed.

Lemma NoDup_keys_obj_set (k : jsstring) (v : value) (l : list (jsstring * value)) :
  List.NoDup (List.map fst l) -> List.NoDup (List.map fst (obj_set k v l)).
Proof.
  intros H. rewrite keys_obj_set.
  destruct (array_includes (List.map fst l) k) eqn:E; [exact H | ].
  apply List.NoDup_app.
  - exact H.
  - constructor; [easy | constructor].
  - intros x Hx [<- | []].
    assert (array_includes (List.map fst l) k = true); [ | congruence].
    apply existsb_exists. exists k. split; [exact Hx | now apply str_eqb_eq].
Qed.

Lemma NoDup_keys_spread (src target : list (jsstring * value)) :
  List.NoDup (List.map fst target) ->
  List.NoDup (List.map fst (spread target src)).
Proof.
  unfold spread. revert target.
  induction src as [ | [k v] s IH]; intros target H; [exact H | ].
  cbn [fold_left fst snd]. apply IH. now apply NoDup_keys_obj_set.
Qed.

Lemma assoc_In (k : jsstring) (v : value) (l : list (jsstring * value)) :
  List.NoDup (List.map fst l) -> (assoc k l = Some v <-> List.In (k, v) l).
Proof.
  induction l as [ | [k0 v0] t IH]; intros Hn.
  - split; [discriminate | intros []].
  - cbn [List.map fst] in Hn. inversion Hn as [ | ? ? Hnot Hn']; subst.
    cbn [assoc]. destruct (str_eqb k k0) eqn:E.
    + apply str_eqb_eq in E as <-. split.
      * intros [= <-]. now left.
      * intros [[= <-] | Hin]; [reflexivity | ].
        exfalso. apply Hnot. change k with (fst (k, v)). now apply List.in_map.
    + apply str_eqb_neq in E. rewrite (IH Hn'). split.
      * intros Hin. now right.
      * intros [[= <- <-] | Hin]; [contradiction | exact Hin].
Qed.

Lemma assoc_rev (k : jsstring) (l : list (jsstring * value)) :
  List.NoDup (List.map fst l) -> assoc k (rev l) = assoc k l.
Proof.
  intros Hn.
  assert (Hn' : List.NoDup (List.map fst (rev l))).
  { rewrite List.map_rev. now apply List.NoDup_rev. }
  destruct (assoc k l) as [v | ] eqn:E.
  - apply (assoc_In _ _ _ Hn) in E. apply (assoc_In _ _ _ Hn').
    now apply -> List.in_rev.
  - destruct (assoc k (rev l)) as [v | ] eqn:E'; [ | reflexivity].
    apply (assoc_In _ _ _ Hn') in E'. apply List.in_rev in E'.
    apply (assoc_In _ _ _ Hn) in E'. congruence.
Qed.

Lemma NoDup_keys_filter (p : jsstring * value -> bool)
    (l : list (jsstring * value)) :
  List.NoDup (List.map fst l) -> List.NoDup (List.map fst (List.filter p l)).
Proof.
  induction l as [ | x t IH]; intros Hn; [constructor | ].
  cbn [List.map] in Hn. inversion Hn as [ | ? ? Hnot Hn']; subst.
  cbn [List.filter]. destruct (p x); [ | now apply IH].
  cbn [List.map]. constructor; [ | now apply IH].
  intros Hin. apply Hnot. apply List.in_map_iff in Hin as (y & Hy & Hin).
  apply List.filter_In in Hin as [Hin _]. rewrite <- Hy. now apply List.in_map.
Qed.

(** The messages and the headers of a request for given arguments. *)
Lemma buildProviderRequest_shape nts provider apiKey model temperature
    maxTokens rest lang text sourceDomain msgs :
  messages nts lang text sourceDomain = Some msgs ->
  exists r,
    buildProviderRequest nts provider apiKey model temperature maxTokens rest
      lang text sourceDomain = Some r
    /\ req_body r
       = VObj (obj_set (lit "messages") msgs
                 (spread
                    [(lit "model", model); (lit "temperature", temperature);
                     (lit "max_tokens", maxTokens);
                     (lit "response_format",
                      VObj [(lit "type", VStr (lit "json_object"))])]
                    rest))
    /\ req_headers r
       = [(lit "Content-Type", lit "application/json");
          (lit "Accept", lit "application/json");
          (lit "Authorization", lit "Bearer " ++ apiKey)]
    /\ req_url r
       = if is_str provider (lit "openai")
         then lit "https://api.openai.com/v1/chat/completions"
         else lit "https://api.x.ai/v1/chat/completions".
Proof.
  intros Hm. unfold buildProviderRequest. rewrite Hm.
  destruct (is_str provider (lit "openai")); eexists; repeat split.
Qed.

(** X18: no option, stored or passed, changes what is asked or who asks:
    whenever a key is stored and the messages can be built, a request is
    sent, its messages are the two the code builds from the language, the
    text and the source domain, its key is the stored one, and it goes to
    OpenAI when the provider is exactly [openai] and to xAI for any other. *)
Theorem request_messages_fixed (nts : number -> jsstring) (apiKey : jsstring)
    (stored options : list (jsstring * value)) (text lang : jsstring)
    (msgs : value) :
  apiKey <> [] ->
  messages nts lang text (get (VObj options) (lit "sourceDomain")) = Some msgs ->
  exists timeout r,
    provider_request nts apiKey stored options text lang = Sends timeout r
    /\ get (req_body r) (lit "messages") = msgs
    /\ req_headers r
       = [(lit "Content-Type", lit "application/json");
          (lit "Accept", lit "application/json");
          (lit "Authorization", lit "Bearer " ++ apiKey)]
    /\ req_url r
       = if is_str (with_default (spread (spread [] stored) options)
                      (lit "provider") (VStr (lit "xai")))
                   (lit "openai")
         then lit "https://api.openai.com/v1/chat/completions"
         else lit "https://api.x.ai/v1/chat/completions".
Proof.
  intros Hk Hm. unfold provider_request.
  rewrite (proj2 (str_eqb_neq apiKey []) Hk). cbv zeta.
  destruct (buildProviderRequest_shape nts
              (with_default (spread (spread [] stored) options)
                 (lit "provider") (VStr (lit "xai")))
              apiKey
              (with_default (spread (spread [] stored) options)
                 (lit "model") (VStr (lit "grok-3-mini")))
              (with_default (spread (spread [] stored) options)
                 (lit "temperature") (VNum (to_binary64 (2 # 10))))
              (with_default (spread (spread [] stored) options)
                 (lit "maxTokens") (VNum (num_of_Z 1024)))
              (rest_of (spread (spread [] stored) options))
              lang text _ msgs Hm) as (r & -> & Hb & Hh & Hu).
  eexists _, r. split; [reflexivity | ]. split; [ | split; assumption].
  rewrite Hb. cbn [get]. rewrite assoc_obj_set.
  now rewrite (proj2 (str_eqb_eq _ _) eq_refl).
Qed.

Lemma request_messages_fixed_witness :
  exists timeout r,
    provider_request (fun _ => []) (lit "sk-1")
      [(lit "messages", VArr []); (lit "provider", VStr (lit "OpenAI"))]
      [(lit "sourceDomain", VStr (lit "example.com"))]
      (lit "We collect data.") (lit "en") = Sends timeout r
    /\ get (req_body r) (lit "messages")
       = VArr
           [VObj [(lit "role", VStr (lit "system"));
                  (lit "content", VStr (system_prompt (lit "en")))];
            VObj [(lit "role", VStr (lit "user"));
                  (lit "content",
                   VStr (lit "Source domain: example.com" ++ [LF; LF]
                         ++ lit "Policy text:" ++ [LF; LF]
                         ++ lit "We collect data."))]]
    /\ req_url r = lit "https://api.x.ai/v1/chat/completions".
Proof.
  destruct (request_messages_fixed (fun _ => []) (lit "sk-1")
              [(lit "messages", VArr []); (lit "provider", VStr (lit "OpenAI"))]
              [(lit "sourceDomain", VStr (lit "example.com"))]
              (lit "We collect data.") (lit "en") _
              ltac:(discriminate) eq_refl)
    as (timeout & r & H & Hm & _ & Hu).
  exists timeout, r. split; [exact H | ]. split; [exact Hm | exact Hu].
Defined.

(** X19: an option that is not one of the five the code takes out by name
    goes into the body of the request as it is, over what the code had put
    there under that name; [messages] alone is out of its reach. The source
    domain the handler passes is such an option: it is sent along as a
    field of the body. *)
Theorem extra_options_sent (nts : number -> jsstring) (apiKey : jsstring)
    (stored options : list (jsstring * value)) (text lang : jsstring)
    (msgs : value) (k : jsstring) (v : value) :
  apiKey <> [] ->
  messages nts lang text (get (VObj options) (lit "sourceDomain")) = Some msgs ->
  array_includes named_options k = false ->
  k <> lit "messages" ->
  assoc k (rev options) = Some v ->
  exists timeout r,
    provider_request nts apiKey stored options text lang = Sends timeout r
    /\ get (req_body r) k = v.
Proof.
  intros Hkey Hm Hk Hmsg Hv. unfold provider_request.
  rewrite (proj2 (str_eqb_neq apiKey []) Hkey). cbv zeta.
  set (merged := spread (spread [] stored) options).
  destruct (buildProviderRequest_shape nts
              (with_default merged (lit "provider") (VStr (lit "xai")))
              apiKey
              (with_default merged (lit "model") (VStr (lit "grok-3-mini")))
              (with_default merged (lit "temperature")
                 (VNum (to_binary64 (2 # 10))))
              (with_default merged (lit "maxTokens") (VNum (num_of_Z 1024)))
              (rest_of merged) lang text _ msgs Hm) as (r & -> & Hb & _).
  eexists _, r. split; [reflexivity | ]. rewrite Hb. cbn [get].
  rewrite assoc_obj_set, (proj2 (str_eqb_neq _ _) Hmsg), assoc_spread.
  assert (Hn : List.NoDup (List.map fst merged)).
  { unfold merged. apply NoDup_keys_spread, NoDup_keys_spread. constructor. }
  rewrite assoc_rev by (unfold rest_of; now apply NoDup_keys_filter).
  unfold rest_of.
  rewrite (assoc_filter (fun x => negb (array_includes named_options x)))
    by now rewrite Hk.
  unfold merged. rewrite assoc_spread, Hv. reflexivity.
Qed.

Lemma extra_options_sent_witness :
  exists timeout r,
    provider_request (fun _ => []) (lit "sk-1") []
      [(lit "sourceDomain", VStr (lit "example.com"))]
      (lit "We collect data.") (lit "en") = Sends timeout r
    /\ get (req_body r) (lit "sourceDomain") = VStr (lit "example.com").
Proof.
  apply (extra_options_sent (fun _ => []) (lit "sk-1") []
           [(lit "sourceDomain", VStr (lit "example.com"))]
           (lit "We collect data.") (lit "en") _ (lit "sourceDomain")
           (VStr (lit "example.com")) ltac:(discriminate) eq_refl eq_refl
           ltac:(discriminate) eq_refl).
Defined.

(** ** The settings *)

Lemma str_or_nonempty (a b : jsstring) : b <> [] -> str_or a b <> [].
Proof. unfold str_or. destruct a; cbn [truthy]; [trivial | discriminate]. Qed.

Lemma num_or_truthy (a b : number) :
  truthy (VNum b) = true -> truthy (VNum (num_or a b)) = true.
Proof. unfold num_or. now destruct (truthy (VNum a)) eqn:E. Qed.

(** A number that is not zero and is neither below [lo] nor above [hi]
    lies between them. *)
Lemma num_between (lo hi : Z) (t : number) :
  num_lt t (num_of_Z lo) = false ->
  num_lt (num_of_Z hi) t = false ->
  truthy (VNum t) = true ->
  num_le (num_of_Z lo) t = true /\ num_le t (num_of_Z hi) = true.
Proof.
  unfold num_of_Z. destruct t as [ | | | q]; cbn [num_lt num_le truthy];
    try discriminate.
  intros H1 H2 _. apply negb_false_iff in H1, H2. now split.
Qed.

Lemma num_positive (t : number) :
  num_le (num_of_Z 0) t = true -> truthy (VNum t) = true ->
  num_lt (num_of_Z 0) t = true.
Proof.
  unfold num_of_Z. destruct t as [ | | | q]; cbn [num_lt num_le truthy];
    try discriminate; try reflexivity.
  intros H1 H2. apply negb_true_iff in H2. apply negb_true_iff.
  destruct (Qle_bool q (inject_Z 0)) eqn:E; [ | reflexivity].
  apply Qle_bool_iff in H1, E.
  assert (Hq : (q == 0)%Q) by (apply Qle_antisym; assumption).
  apply Qeq_bool_iff in Hq. congruence.
Qed.

(** What a successful save stores. *)
Lemma saved_options_shape (f : form) (ns : list notice) (s : saved) :
  save_click f = (ns, Some s) ->
  exists provider model t m,
    saved_options s
    = [(lit "provider", VStr provider); (lit "model", VStr model);
       (lit "temperature", VNum t); (lit "maxTokens", VNum m)]
    /\ provider <> [] /\ model <> []
    /\ num_lt (num_of_Z 0) t = true /\ num_le t (num_of_Z 2) = true
    /\ num_le (num_of_Z 100) m = true /\ num_le m (num_of_Z 4000) = true
    /\ (truthy (VNum (parseFloat (f_temperature f))) = false ->
        t = to_binary64 (7 # 10))
    /\ saved_key s = trim (f_apiKey f).
Proof.
  unfold save_click.
  set (provider := str_or (f_provider f) (lit "xai")).
  set (model := str_or (f_model f) _).
  set (t := num_or (parseFloat (f_temperature f)) (to_binary64 (7 # 10))).
  set (m := num_or (parseInt10 (f_maxTokens f)) (num_of_Z 1024)).
  destruct (num_lt t (num_of_Z 0) || num_lt (num_of_Z 2) t) eqn:Et;
    [discriminate | ].
  destruct (num_lt m (num_of_Z 100) || num_lt (num_of_Z 4000) m) eqn:Em;
    [discriminate | ].
  intros [= _ <-]. exists provider, model, t, m.
  apply orb_false_iff in Et as [Et1 Et2]. apply orb_false_iff in Em as [Em1 Em2].
  assert (Tt : truthy (VNum t) = true) by (now apply num_or_truthy).
  assert (Tm : truthy (VNum m) = true) by (now apply num_or_truthy).
  destruct (num_between 0 2 t Et1 Et2 Tt) as [Ht1 Ht2].
  destruct (num_between 100 4000 m Em1 Em2 Tm) as [Hm1 Hm2].
  split; [reflexivity | ].
  split; [now apply str_or_nonempty | ].
  split.
  { apply str_or_nonempty.
    destruct (str_eqb provider (lit "xai")); discriminate. }
  split; [now apply num_positive | ].
  split; [exact Ht2 | ]. split; [exact Hm1 | ]. split; [exact Hm2 | ].
  split; [ | reflexivity].
  intros H. unfold t, num_or. now rewrite H.
Qed.

(** X20: what the options page saves for the model is always usable: a
    provider and a model that are not empty, a temperature above 0 and at
    most 2, a number of tokens from 100 to 4000. A temperature of 0 cannot
    be saved: a field that reads as 0, or does not read as a number, gives
    0.7. *)
Theorem saved_options_valid (f : form) (ns : list notice) (s : saved) :
  save_click f = (ns, Some s) ->
  exists provider model t m,
    saved_options s
    = [(lit "provider", VStr provider); (lit "model", VStr model);
       (lit "temperature", VNum t); (lit "maxTokens", VNum m)]
    /\ provider <> [] /\ model <> []
    /\ num_lt (num_of_Z 0) t = true /\ num_le t (num_of_Z 2) = true
    /\ num_le (num_of_Z 100) m = true /\ num_le m (num_of_Z 4000) = true
    /\ (truthy (VNum (parseFloat (f_temperature f))) = false ->
        t = to_binary64 (7 # 10))
    /\ saved_key s = trim (f_apiKey f).
Proof. apply saved_options_shape. Qed.

Lemma saved_options_valid_witness :
  exists provider model t m,
    [(lit "provider", VStr (lit "xai")); (lit "model", VStr (lit "grok-3-mini"));
     (lit "temperature", VNum (to_binary64 (7 # 10)));
     (lit "maxTokens", VNum (num_of_Z 1024))]
    = [(lit "provider", VStr provider); (lit "model", VStr model);
       (lit "temperature", VNum t); (lit "maxTokens", VNum m)]
    /\ num_lt (num_of_Z 0) t = true.
Proof.
  destruct (saved_options_valid
              (Form (lit " sk-1 ") (lit "en") [] [] (lit "0") [])
              [Notice (lit "alerts.settingsSaved") (lit "success")]
              (Saved (lit "sk-1") (lit "en")
                 [(lit "provider", VStr (lit "xai"));
                  (lit "model", VStr (lit "grok-3-mini"));
                  (lit "temperature", VNum (to_binary64 (7 # 10)));
                  (lit "maxTokens", VNum (num_of_Z 1024))])
              ltac:(vm_compute; reflexivity))
    as (provider & model & t & m & H & _ & _ & Ht & _).
  exists provider, model, t, m. split; [exact H | exact Ht].
Defined.

(** X21: from the options page to the request. Whatever was typed in the
    form, once it is saved with a key, the request the handler causes for
    a policy carries that key, the saved model, a temperature above 0 and
    at most 2, from 100 to 4000 tokens, and goes to OpenAI exactly when the
    provider saved is [openai]. *)
Theorem saved_settings_request (nts : number -> jsstring) (f : form)
    (ns : list notice) (s : saved) (text lang domain : jsstring) :
  save_click f = (ns, Some s) ->
  saved_key s <> [] ->
  exists r provider model t m,
    provider_request nts (saved_key s) (saved_options s)
      [(lit "sourceDomain", VStr domain)] text lang
    = Sends (VNum (num_of_Z 30000)) r
    /\ assoc (lit "Authorization") (List.map (fun h => (fst h, VStr (snd h)))
                                      (req_headers r))
       = Some (VStr (lit "Bearer " ++ saved_key s))
    /\ assoc (lit "provider") (saved_options s) = Some (VStr provider)
    /\ req_url r
       = (if str_eqb provider (lit "openai")
          then lit "https://api.openai.com/v1/chat/completions"
          else lit "https://api.x.ai/v1/chat/completions")
    /\ assoc (lit "model") (saved_options s) = Some (VStr model)
    /\ model <> []
    /\ get (req_body r) (lit "model") = VStr model
    /\ get (req_body r) (lit "temperature") = VNum t
    /\ num_lt (num_of_Z 0) t = true /\ num_le t (num_of_Z 2) = true
    /\ get (req_body r) (lit "max_tokens") = VNum m
    /\ num_le (num_of_Z 100) m = true /\ num_le m (num_of_Z 4000) = true.
Proof.
  intros Hs Hk.
  destruct (saved_options_shape f ns s Hs)
    as (provider & model & t & m & Ho & Hp & Hm & Ht1 & Ht2 & Hm1 & Hm2 & _).
  unfold provider_request. rewrite (proj2 (str_eqb_neq _ _) Hk), Ho. cbv zeta.
  change (spread
            (spread []
               [(lit "provider", VStr provider); (lit "model", VStr model);
                (lit "temperature", VNum t); (lit "maxTokens", VNum m)])
            [(lit "sourceDomain", VStr domain)])
    with [(lit "provider", VStr provider); (lit "model", VStr model);
          (lit "temperature", VNum t); (lit "maxTokens", VNum m);
          (lit "sourceDomain", VStr domain)].
  change (rest_of
            [(lit "provider", VStr provider); (lit "model", VStr model);
             (lit "temperature", VNum t); (lit "maxTokens", VNum m);
             (lit "sourceDomain", VStr domain)])
    with [(lit "sourceDomain", VStr domain)].
  change (with_default _ (lit "provider") _) with (VStr provider).
  change (with_default _ (lit "model") _) with (VStr model).
  change (with_default _ (lit "temperature") _) with (VNum t).
  change (with_default _ (lit "maxTokens") _) with (VNum m).
  change (with_default _ (lit "timeout") _) with (VNum (num_of_Z 30000)).
  change (get (VObj [(lit "sourceDomain", VStr domain)]) (lit "sourceDomain"))
    with (VStr domain).
  assert (Hmsg : exists msgs,
            messages nts lang text (VStr domain) = Some msgs).
  { unfold messages, or_else. destruct (truthy (VStr domain)); cbn [ToString];
      eexists; reflexivity. }
  destruct Hmsg as [msgs Hmsg].
  destruct (buildProviderRequest_shape nts (VStr provider) (saved_key s)
              (VStr model) (VNum t) (VNum m)
              [(lit "sourceDomain", VStr domain)] lang text (VStr domain)
              msgs Hmsg) as (r & -> & Hb & Hh & Hu).
  exists r, provider, model, t, m.
  split; [reflexivity | ]. split; [now rewrite Hh | ].
  split; [reflexivity | ]. split; [exact Hu | ].
  split; [reflexivity | ]. split; [exact Hm | ].
  rewrite Hb.
  split; [reflexivity | ]. split; [reflexivity | ].
  split; [exact Ht1 | ]. split; [exact Ht2 | ].
  split; [reflexivity | ]. split; assumption.
Qed.

Lemma saved_settings_request_witness :
  exists r,
    provider_request (fun _ => []) (lit "sk-1")
      [(lit "provider", VStr (lit "xai")); (lit "model", VStr (lit "grok-3-mini"));
       (lit "temperature", VNum (to_binary64 (7 # 10)));
       (lit "maxTokens", VNum (num_of_Z 1024))]
      [(lit "sourceDomain", VStr (lit "example.com"))]
      (lit "We collect data.") (lit "en")
    = Sends (VNum (num_of_Z 30000)) r
    /\ get (req_body r) (lit "model") = VStr (lit "grok-3-mini").
Proof.
  destruct (saved_settings_request (fun _ => [])
              (Form (lit " sk-1 ") (lit "en") [] [] (lit "0") [])
              [Notice (lit "alerts.settingsSaved") (lit "success")]
              (Saved (lit "sk-1") (lit "en")
                 [(lit "provider", VStr (lit "xai"));
                  (lit "model", VStr (lit "grok-3-mini"));
                  (lit "temperature", VNum (to_binary64 (7 # 10)));
                  (lit "maxTokens", VNum (num_of_Z 1024))])
              (lit "We collect data.") (lit "en") (lit "example.com")
              ltac:(vm_compute; reflexivity) ltac:(discriminate))
    as (r & provider & model & t & m & H & _ & _ & _ & Hm & _ & Hb & _).
  exists r. split; [exact H | ].
  injection Hm as <-. exact Hb.
Defined.

(** ** The tabs *)

Lemma isDomainIgnored_kept (d x : jsstring) (item : ignored_item) :
  isDomainIgnored d item = true ->
  isDomainIgnored d (addIgnoredDomain x item) = true.
Proof.
  unfold isDomainIgnored, addIgnoredDomain. intros H.
  destruct (negb (array_includes (read_ignored item) x)); [ | exact H].
  cbn [read_ignored]. rewrite array_includes_app, H. reflexivity.
Qed.

Lemma isDomainIgnored_added (d : jsstring) (item : ignored_item) :
  isDomainIgnored d (addIgnoredDomain d item) = true.
Proof.
  unfold isDomainIgnored, addIgnoredDomain.
  destruct (array_includes (read_ignored item) d) eqn:E; cbn [negb];
    [exact E | ].
  cbn [read_ignored]. rewrite array_includes_app.
  rewrite (proj2 (str_eqb_eq d d) eq_refl). apply orb_true_r.
Qed.

Lemma isDomainIgnored_ignore_all (d : jsstring) (more : list jsstring)
    (item : ignored_item) :
  isDomainIgnored d item = true ->
  isDomainIgnored d (ignore_all more item) = true.
Proof.
  unfold ignore_all. revert item.
  induction more as [ | x t IH]; intros item H; [exact H | ].
  cbn [fold_left]. apply IH. now apply isDomainIgnored_kept.
Qed.

Lemma note_policy_ignored (hostname : jsstring -> option jsstring)
    (ignored : ignored_item) (tabId : option Z) (url d : jsstring) (st : tabs) :
  hostname url = Some d ->
  isDomainIgnored d ignored = true ->
  note_policy hostname ignored tabId url st = (st, []).
Proof. intros Hh Hi. unfold note_policy. now rewrite Hh, Hi. Qed.

(** X22: what is tested against the ignored domains is the host of the
    policy address itself. Once a domain has been ignored, and whatever is
    ignored after it, an address on that domain never raises the alert:
    neither a tab reaching it nor the content script reporting it as the
    first link found change what is kept for the tab or touch the icon.
    The page on which a link was found plays no part: a first link whose
    own host is not ignored is kept for the tab of the sender, and the
    icon alerts. *)
Theorem ignored_domain_silent (hostname : jsstring -> option jsstring)
    (toLowerCase : jsstring -> jsstring) (d : jsstring)
    (more : list jsstring) (item : ignored_item) (url : jsstring) (st : tabs) :
  hostname url = Some d ->
  let ignored := ignore_all more (addIgnoredDomain d item) in
  (forall tabId status,
      tab_step hostname toLowerCase ignored (TabUpdated tabId status (Some url)) st
      = (st, [], None))
  /\ (forall sender links,
         tab_step hostname toLowerCase ignored
           (PrivacyLinksFound sender (url :: links)) st
         = (st, [], None))
  /\ (forall t link d' links,
         t <> 0%Z ->
         hostname link = Some d' ->
         isDomainIgnored d' ignored = false ->
         tab_step hostname toLowerCase ignored
           (PrivacyLinksFound (Some t) (link :: links)) st
         = (Tabs (<[t := link]> (policyLinks st)) (pageLangs st),
            setIconState (lit "alert") t, None)).
Proof.
  intros Hh ignored.
  assert (Hi : isDomainIgnored d ignored = true).
  { apply isDomainIgnored_ignore_all, isDomainIgnored_added. }
  split; [ | split].
  - intros tabId status. cbn [tab_step].
    destruct status as [s | ]; [ | reflexivity].
    destruct url as [ | c u]; [reflexivity | ].
    destruct (str_eqb s (lit "complete")); [ | reflexivity].
    destruct (existsb _ KEYWORDS); [ | reflexivity].
    now rewrite (note_policy_ignored _ _ _ _ _ _ Hh Hi).
  - intros sender links. cbn [tab_step].
    now rewrite (note_policy_ignored _ _ _ _ _ _ Hh Hi).
  - intros t link d' links Ht Hl Hd. cbn [tab_step sender_tab].
    rewrite (proj2 (Z.eqb_neq t 0) Ht). unfold note_policy.
    now rewrite Hl, Hd.
Qed.

Lemma ignored_domain_silent_witness :
  tab_step (fun _ => Some (lit "example.com")) (fun s => s)
    (ignore_all [lit "other.org"] (addIgnoredDomain (lit "example.com") None))
    (TabUpdated 7 (Some (lit "complete"))
       (Some (lit "https://example.com/privacy")))
    (Tabs ∅ ∅)
  = (Tabs ∅ ∅, [], None).
Proof.
  apply (proj1 (ignored_domain_silent (fun _ => Some (lit "example.com"))
                  (fun s => s) (lit "example.com") [lit "other.org"] None
                  (lit "https://example.com/privacy") (Tabs ∅ ∅) eq_refl)).
Defined.

Lemma note_policy_other (hostname : jsstring -> option jsstring)
    (ignored : ignored_item) (tabId : option Z) (url : jsstring) (st : tabs)
    (t : Z) :
  match tabId with Some id => (id =? t)%Z | None => false end = false ->
  policyLinks (fst (note_policy hostname ignored tabId url st)) !! t
  = policyLinks st !! t.
Proof.
  intros Ht. unfold note_policy.
  destruct (hostname url) as [d | ]; [ | reflexivity].
  destruct (isDomainIgnored d ignored); [reflexivity | ].
  destruct tabId as [id | ]; [ | reflexivity].
  cbn [fst policyLinks]. apply Z.eqb_neq in Ht.
  now rewrite lookup_insert_ne.
Qed.

Lemma tab_step_other (hostname : jsstring -> option jsstring)
    (toLowerCase : jsstring -> jsstring) (ignored : ignored_item)
    (e : tab_event) (st : tabs) (t : Z) :
  concerns t e = false ->
  policyLinks (fst (fst (tab_step hostname toLowerCase ignored e st))) !! t
  = policyLinks st !! t.
Proof.
  destruct e as [id status url | id | a r | sender lang | sender links | id];
    cbn [concerns tab_step]; intros Hc.
  - destruct status as [s | ]; [ | reflexivity].
    destruct url as [[ | c u] | ]; try reflexivity.
    destruct (str_eqb s (lit "complete")); [ | reflexivity].
    destruct (existsb _ KEYWORDS); [ | reflexivity].
    cbn [fst]. now apply note_policy_other.
  - cbn [fst policyLinks]. apply Z.eqb_neq in Hc. now rewrite lookup_delete_ne.
  - cbn [fst policyLinks]. apply orb_false_iff in Hc as [Ha Hr].
    apply Z.eqb_neq in Ha, Hr. now rewrite !lookup_delete_ne.
  - destruct (sender_tab sender); reflexivity.
  - destruct links as [ | url links]; [reflexivity | ].
    cbn [fst]. now apply note_policy_other.
  - reflexivity.
Qed.

Lemma tab_run_other (hostname : jsstring -> option jsstring)
    (toLowerCase : jsstring -> jsstring)
    (es : list (ignored_item * tab_event)) (st : tabs) (t : Z) :
  forallb (fun e => negb (concerns t (snd e))) es = true ->
  policyLinks (tab_run hostname toLowerCase es st) !! t = policyLinks st !! t.
Proof.
  unfold tab_run. revert st.
  induction es as [ | [ig e] es IH]; intros st H; [reflexivity | ].
  cbn [forallb snd] in H. apply andb_true_iff in H as [He Hes].
  cbn [fold_left fst snd]. rewrite (IH _ Hes).
  apply tab_step_other. now apply negb_true_iff.
Qed.

(** X23: the link kept for a tab is that tab's business alone. The
    events of other tabs, however many, leave the answer to a request for
    it as it was; and once the tab is closed or replaced the answer is
    empty until something is found for the tab again. *)
Theorem policy_link_of_a_tab (hostname : jsstring -> option jsstring)
    (toLowerCase : jsstring -> jsstring)
    (es : list (ignored_item * tab_event)) (st : tabs) (t : Z)
    (ig ig' : ignored_item) :
  forallb (fun e => negb (concerns t (snd e))) es = true ->
  snd (tab_step hostname toLowerCase ig (GetPolicyLink t)
         (tab_run hostname toLowerCase es st))
  = snd (tab_step hostname toLowerCase ig (GetPolicyLink t) st)
  /\ (forall other,
         snd (tab_step hostname toLowerCase ig (GetPolicyLink t)
                (tab_run hostname toLowerCase
                   ((ig', TabRemoved t) :: es) st)) = Some []
         /\ snd (tab_step hostname toLowerCase ig (GetPolicyLink t)
                   (tab_run hostname toLowerCase
                      ((ig', TabReplaced t other) :: es) st)) = Some []
         /\ snd (tab_step hostname toLowerCase ig (GetPolicyLink t)
                   (tab_run hostname toLowerCase
                      ((ig', TabReplaced other t) :: es) st)) = Some []).
Proof.
  intros H. cbn [tab_step snd]. split.
  - now rewrite (tab_run_other _ _ _ _ _ H).
  - intros other.
    change (tab_run hostname toLowerCase ((ig', TabRemoved t) :: es) st)
      with (tab_run hostname toLowerCase es
              (Tabs (delete t (policyLinks st)) (delete t (pageLangs st)))).
    change (tab_run hostname toLowerCase ((ig', TabReplaced t other) :: es) st)
      with (tab_run hostname toLowerCase es
              (Tabs (delete t (delete other (policyLinks st)))
                    (delete t (delete other (pageLangs st))))).
    change (tab_run hostname toLowerCase ((ig', TabReplaced other t) :: es) st)
      with (tab_run hostname toLowerCase es
              (Tabs (delete other (delete t (policyLinks st)))
                    (delete other (delete t (pageLangs st))))).
    rewrite !(tab_run_other _ _ _ _ _ H). cbn [policyLinks].
    rewrite !lookup_delete_eq.
    destruct (decide (other = t)) as [-> | Hne].
    + now rewrite !lookup_delete_eq.
    + rewrite lookup_delete_ne by exact Hne. now rewrite lookup_delete_eq.
Qed.

Lemma policy_link_of_a_tab_witness :
  snd (tab_step (fun _ => Some (lit "example.com")) (fun s => s) None
         (GetPolicyLink 7)
         (tab_run (fun _ => Some (lit "example.com")) (fun s => s)
            [(None, TabUpdated 8 (Some (lit "complete"))
                      (Some (lit "https://example.com/privacy")));
             (None, TabRemoved 9)]
            (Tabs (<[7%Z := lit "https://a.example/legal"]> ∅) ∅)))
  = snd (tab_step (fun _ => Some (lit "example.com")) (fun s => s) None
           (GetPolicyLink 7)
           (Tabs (<[7%Z := lit "https://a.example/legal"]> ∅) ∅)).
Proof.
  apply (proj1 (policy_link_of_a_tab (fun _ => Some (lit "example.com"))
                  (fun s => s)
                  [(None, TabUpdated 8 (Some (lit "complete"))
                            (Some (lit "https://example.com/privacy")));
                   (None, TabRemoved 9)]
                  (Tabs (<[7%Z := lit "https://a.example/legal"]> ∅) ∅)
                  7 None None eq_refl)).
Defined.

(** ** What the matcher matches *)

(** The matcher is sound for [den]: a position it reaches lies further in
    the text, and the text in between is one the pattern can match. *)
Lemma star_loop_sound (step : mstate -> list mstate) (P : jsstring -> Prop) :
  (forall st st', In st' (step st) ->
     exists w, m_rest st = w ++ m_rest st'
               /\ m_pre st' = rev w ++ m_pre st /\ P w) ->
  forall fuel st st', In st' (star_loop step fuel st) ->
    exists w, m_rest st = w ++ m_rest st'
              /\ m_pre st' = rev w ++ m_pre st /\ star P w.
Proof.
  intros Hstep. induction fuel as [ | f IH]; intros st st' Hin.
  - destruct Hin as [<- | []]. exists []. repeat split. constructor.
  - cbn [star_loop] in Hin. apply in_app_or in Hin as [Hin | [<- | []]].
    + apply in_flat_map in Hin as (st1 & H1 & Hin).
      destruct (length (m_rest st1) <? length (m_rest st))%nat; [ | destruct Hin].
      destruct (Hstep _ _ H1) as (u & Hu1 & Hu2 & Pu).
      destruct (IH _ _ Hin) as (v & Hv1 & Hv2 & Pv).
      exists (u ++ v). split; [ | split].
      * rewrite Hu1, Hv1. now rewrite <- app_assoc.
      * rewrite Hv2, Hu2, rev_app_distr. now rewrite <- app_assoc.
      * now constructor.
    + exists []. repeat split. constructor.
Qed.

Lemma rmatch_sound (r : regex) :
  forall st st', In st' (rmatch r st) ->
    exists w, m_rest st = w ++ m_rest st'
              /\ m_pre st' = rev w ++ m_pre st /\ den r w.
Proof.
  induction r as [ | p | a IHa b IHb | a IHa b IHb | a IHa | n a IHa | | | ];
    intros st st' Hin; cbn [rmatch] in Hin.
  - destruct Hin as [<- | []]. now exists [].
  - destruct (m_rest st) as [ | c t] eqn:E; [destruct Hin | ].
    destruct (p c) eqn:Hp; [ | destruct Hin].
    destruct Hin as [<- | []]. exists [c]. cbn. repeat split.
    now exists c.
  - apply in_flat_map in Hin as (st1 & H1 & Hin).
    destruct (IHa _ _ H1) as (u & Hu1 & Hu2 & Pu).
    destruct (IHb _ _ Hin) as (v & Hv1 & Hv2 & Pv).
    exists (u ++ v). split; [ | split].
    + rewrite Hu1, Hv1. now rewrite <- app_assoc.
    + rewrite Hv2, Hu2, rev_app_distr. now rewrite <- app_assoc.
    + now exists u, v.
  - apply in_app_or in Hin as [Hin | Hin].
    + destruct (IHa _ _ Hin) as (w & H1 & H2 & Pw). exists w. cbn. tauto.
    + destruct (IHb _ _ Hin) as (w & H1 & H2 & Pw). exists w. cbn. tauto.
  - exact (star_loop_sound _ _ IHa _ _ _ Hin).
  - apply in_map_iff in Hin as (st1 & <- & Hin).
    destruct (IHa _ _ Hin) as (w & H1 & H2 & Pw). exists w. cbn. tauto.
  - destruct (m_pre st) eqn:E; [ | destruct Hin]. destruct Hin as [<- | []].
    now exists [].
  - destruct (m_rest st) eqn:E; [ | destruct Hin]. destruct Hin as [<- | []].
    now exists [].
  - destruct (xorb _ _); [ | destruct Hin]. destruct Hin as [<- | []].
    now exists [].
Qed.

(** The text a group has captured is one its pattern can match. *)
Lemma rmatch_group_sound (n : nat) (a : regex) (st st' : mstate) :
  In st' (rmatch (RGroup n a) st) ->
  exists w, cap_lookup n (m_caps st') = Some w /\ den a w.
Proof.
  cbn [rmatch]. intros Hin. apply in_map_iff in Hin as (st1 & <- & Hin).
  destruct (rmatch_sound a _ _ Hin) as (w & H1 & _ & Pw).
  exists w. split; [ | exact Pw]. cbn [m_caps cap_lookup].
  rewrite Nat.eqb_refl, H1, length_app.
  replace (length w + length (m_rest st1) - length (m_rest st1))%nat
    with (length w) by lia.
  f_equal. rewrite List.firstn_app, Nat.sub_diag, List.firstn_all. cbn.
  apply app_nil_r.
Qed.

Lemma search_from_sound (r : regex) (rest pre acc : jsstring)
    (m : rmatch_result) :
  search_from r pre rest acc = Some m ->
  exists st, In (mr_end m) (rmatch r st).
Proof.
  revert pre acc. induction rest as [ | c t IH]; intros pre acc;
    cbn [search_from].
  - destruct (rmatch r (MState pre [] [])) as [ | st' l] eqn:E; [discriminate | ].
    intros [= <-]. exists (MState pre [] []). rewrite E. now left.
  - destruct (rmatch r (MState pre (c :: t) [])) as [ | st' l] eqn:E.
    + apply IH.
    + intros [= <-]. exists (MState pre (c :: t) []). rewrite E. now left.
Qed.

Lemma exec_all_sound (r : regex) (fuel : nat) (pre rest : jsstring)
    (m : rmatch_result) :
  In m (exec_all r fuel pre rest) -> exists st, In (mr_end m) (rmatch r st).
Proof.
  revert pre rest. induction fuel as [ | f IH]; intros pre rest; [intros [] | ].
  cbn [exec_all]. destruct (search_from r pre rest []) as [m0 | ] eqn:E;
    [ | intros []].
  intros [<- | Hin]; [exact (search_from_sound _ _ _ _ _ E) | exact (IH _ _ Hin)].
Qed.

(** The texts of a literal word. *)
Lemma den_chars (l : jsstring) (w : jsstring) :
  den (rseq (List.map chr l)) w -> w = l.
Proof.
  revert w. induction l as [ | c t IH]; intros w; [easy | ].
  destruct t as [ | d t'].
  - cbn. intros (x & -> & Hx). apply N.eqb_eq in Hx. now subst.
  - change (rseq (List.map chr (c :: d :: t')))
      with (RSeq (chr c) (rseq (List.map chr (d :: t')))).
    cbn [den]. intros (u & v & -> & (x & -> & Hx) & Hv).
    apply N.eqb_eq in Hx. subst x. now rewrite (IH _ Hv).
Qed.

Lemma den_word (s : string) (w : jsstring) : den (word s) w -> w = lit s.
Proof. apply den_chars. Qed.

Lemma star_class (p : N -> bool) (w : jsstring) :
  star (den (RClass p)) w -> forallb p w = true.
Proof.
  induction 1 as [ | u v (c & -> & Hc) _ IH]; [reflexivity | ].
  cbn. now rewrite Hc.
Qed.

(** ** The detector *)

Lemma set_add_NoDup (l : list jsstring) (x : jsstring) :
  List.NoDup l -> List.NoDup (set_add l x).
Proof.
  intros H. unfold set_add. destruct (array_includes l x) eqn:E; [exact H | ].
  apply List.NoDup_app; [exact H | constructor; [easy | constructor] | ].
  intros y Hy [<- | []].
  apply array_includes_In in Hy. congruence.
Qed.

Lemma set_add_In (l : list jsstring) (x y : jsstring) :
  In y (set_add l x) -> In y l \/ y = x.
Proof.
  unfold set_add. destruct (array_includes l x); [now left | ].
  intros H. apply in_app_or in H as [H | [<- | []]]; [now left | now right].
Qed.

Lemma set_add_head (l : list jsstring) (x h : jsstring) :
  hd_error l = Some h -> hd_error (set_add l x) = Some h.
Proof.
  unfold set_add. destruct (array_includes l x); [trivial | ].
  destruct l; [discriminate | trivial].
Qed.

(** Adding to a set the [g x] of the elements [x] that pass [c]. *)
Section FoldSet.

Context {A : Type} (c : A -> bool) (g : A -> jsstring).

Lemma fold_set_NoDup (l : list A) (results : list jsstring) :
  List.NoDup results ->
  List.NoDup
    (fold_left (fun res x => if c x then set_add res (g x) else res) l results).
Proof.
  revert results. induction l as [ | a t IH]; intros results H; [exact H | ].
  cbn [fold_left]. apply IH. destruct (c a); [now apply set_add_NoDup | exact H].
Qed.

Lemma fold_set_In (l : list A) (results : list jsstring) (u : jsstring) :
  In u (fold_left (fun res x => if c x then set_add res (g x) else res) l results) ->
  In u results \/ exists a, In a l /\ c a = true /\ u = g a.
Proof.
  revert results. induction l as [ | a t IH]; intros results; [now left | ].
  cbn [fold_left]. intros Hin. apply IH in Hin as [Hin | (b & Hb & Hc & ->)].
  - destruct (c a) eqn:Ha; [ | now left].
    apply set_add_In in Hin as [Hin | ->]; [now left | ].
    right. exists a. repeat split; [now left | exact Ha].
  - right. exists b. repeat split; [now right | exact Hc].
Qed.

Lemma fold_set_head (l : list A) (results : list jsstring) (h : jsstring) :
  hd_error results = Some h ->
  hd_error
    (fold_left (fun res x => if c x then set_add res (g x) else res) l results)
  = Some h.
Proof.
  revert results. induction l as [ | a t IH]; intros results H; [exact H | ].
  cbn [fold_left]. apply IH. destruct (c a); [now apply set_add_head | exact H].
Qed.

Lemma fold_set_first (l : list A) (a : A) (rest : list A) :
  List.filter c l = a :: rest ->
  hd_error
    (fold_left (fun res x => if c x then set_add res (g x) else res) l [])
  = Some (g a).
Proof.
  induction l as [ | x t IH]; [discriminate | ].
  cbn [List.filter fold_left]. destruct (c x) eqn:Hx; [ | exact IH].
  intros [= -> _]. now apply fold_set_head.
Qed.

End FoldSet.

Lemma filter_filter {A : Type} (p q : A -> bool) (l : list A) :
  List.filter q (List.filter p l) = List.filter (fun x => p x && q x) l.
Proof.
  induction l as [ | x t IH]; [reflexivity | ].
  cbn [List.filter]. destruct (p x); cbn [andb List.filter]; [ | exact IH].
  destruct (q x); now rewrite IH.
Qed.

(** The addresses the pattern of the text scan can match. *)
Lemma den_url_text (w : jsstring) :
  den re_url w ->
  startsWith w (lit "http://") || startsWith w (lit "https://") = true
  /\ forallb (fun c => negb (is_space c)) w = true.
Proof.
  change (den re_url w)
    with (den (RSeq (word "http")
                 (RSeq (ropt (chr 115))
                    (RSeq (word "://")
                       (RSeq (RClass (fun c => negb (is_space c)))
                          (RStar (RClass (fun c => negb (is_space c))))))))
            w).
  cbn [den].
  intros (u1 & v1 & -> & H1 & u2 & v2 & -> & H2 & u3 & v3 & -> & H3
          & u4 & v4 & -> & (c & -> & Hc4) & H5).
  apply den_word in H1, H3. subst u1 u3. apply star_class in H5.
  unfold ropt in H2. cbn [den] in H2.
  destruct H2 as [(x & -> & Hx) | ->].
  - apply N.eqb_eq in Hx. subst x. split; [reflexivity | ].
    rewrite !forallb_app. cbn [forallb]. rewrite Hc4, H5. reflexivity.
  - split; [reflexivity | ].
    rewrite !forallb_app. cbn [forallb]. rewrite Hc4, H5. reflexivity.
Qed.

Lemma den_re_url (st st' : mstate) :
  In st' (rmatch re_url st) ->
  exists w,
    cap_lookup 1 (m_caps st') = Some w
    /\ startsWith w (lit "http://") || startsWith w (lit "https://") = true
    /\ forallb (fun c => negb (is_space c)) w = true.
Proof.
  intros Hin. apply rmatch_group_sound in Hin as (w & Hc & Hw).
  exists w. split; [exact Hc | ]. now apply den_url_text.
Qed.

(** A match of that pattern takes at least one unit, so the loop over the
    matches ends and the fuel of [scan_text] is enough: more of it finds
    nothing more. *)
Lemma search_from_shorter (r : regex) (rest pre acc : jsstring)
    (m : rmatch_result) :
  (forall st st', In st' (rmatch r st) ->
                  (length (m_rest st') < length (m_rest st))%nat) ->
  search_from r pre rest acc = Some m ->
  (length (m_rest (mr_end m)) < length rest)%nat.
Proof.
  intros Hr. revert pre acc. induction rest as [ | c t IH]; intros pre acc;
    cbn [search_from].
  - destruct (rmatch r (MState pre [] [])) as [ | st' l] eqn:E; [discriminate | ].
    intros [= <-]. cbn [mr_end].
    apply (Hr (MState pre [] []) st'). rewrite E. now left.
  - destruct (rmatch r (MState pre (c :: t) [])) as [ | st' l] eqn:E.
    + intros H. apply IH in H. cbn [length]. lia.
    + intros [= <-]. cbn [mr_end].
      apply (Hr (MState pre (c :: t) []) st'). rewrite E. now left.
Qed.

Lemma exec_all_fuel (r : regex) :
  (forall st st', In st' (rmatch r st) ->
                  (length (m_rest st') < length (m_rest st))%nat) ->
  forall fuel fuel' pre rest,
    (length rest < fuel)%nat -> (length rest < fuel')%nat ->
    exec_all r fuel pre rest = exec_all r fuel' pre rest.
Proof.
  intros Hr. induction fuel as [ | f IH]; intros fuel' pre rest H H'; [lia | ].
  destruct fuel' as [ | f']; [lia | ]. cbn [exec_all].
  destruct (search_from r pre rest []) as [m | ] eqn:E; [ | reflexivity].
  pose proof (search_from_shorter r _ _ _ _ Hr E).
  f_equal. apply IH; lia.
Qed.

Lemma rmatch_re_url_shorter (st st' : mstate) :
  In st' (rmatch re_url st) -> (length (m_rest st') < length (m_rest st))%nat.
Proof.
  intros Hin. destruct (rmatch_sound re_url _ _ Hin) as (w & Hw & _ & Hd).
  apply den_url_text in Hd as [Hs _]. rewrite Hw, length_app.
  destruct w; [discriminate | cbn [length]; lia].
Qed.

Lemma exec_all_re_url_fuel (fuel : nat) (text : jsstring) :
  (length text < fuel)%nat ->
  exec_all re_url fuel [] text = exec_all re_url (S (length text)) [] text.
Proof.
  intros H. apply exec_all_fuel; [exact rmatch_re_url_shorter | exact H | lia].
Qed.

Section DetectorFacts.

Variable toLowerCase : jsstring -> jsstring.

Lemma scan_anchors_nonempty (results : list jsstring) (sel : jsstring)
    (doc : document) (h : jsstring) :
  hd_error results = Some h ->
  hd_error (scan_anchors toLowerCase results sel doc) = Some h.
Proof. apply fold_set_head. Qed.

Lemma scan_selectors_head (sels : list jsstring) (results : list jsstring)
    (doc : document) (h : jsstring) :
  hd_error results = Some h ->
  hd_error
    (fold_left (fun results sel => scan_anchors toLowerCase results sel doc)
       sels results) = Some h.
Proof.
  revert results. induction sels as [ | s t IH]; intros results H; [exact H | ].
  cbn [fold_left]. apply IH. now apply scan_anchors_nonempty.
Qed.

Lemma scan_selectors_NoDup (sels : list jsstring) (results : list jsstring)
    (doc : document) :
  List.NoDup results ->
  List.NoDup
    (fold_left (fun results sel => scan_anchors toLowerCase results sel doc)
       sels results).
Proof.
  revert results. induction sels as [ | s t IH]; intros results H; [exact H | ].
  cbn [fold_left]. apply IH. now apply fold_set_NoDup.
Qed.

Lemma scan_selectors_In (sels : list jsstring) (results : list jsstring)
    (doc : document) (u : jsstring) :
  In u (fold_left (fun results sel => scan_anchors toLowerCase results sel doc)
          sels results) ->
  In u results
  \/ exists a sel, In a (anchors doc) /\ In sel sels
                   /\ qualifies toLowerCase sel a = true /\ u = href a.
Proof.
  revert results. induction sels as [ | s t IH]; intros results; [now left | ].
  cbn [fold_left]. intros Hin.
  apply IH in Hin as [Hin | (a & sel & Ha & Hs & Hq & ->)].
  - apply fold_set_In in Hin as [Hin | (a & Ha & Hc & ->)]; [now left | ].
    apply List.filter_In in Ha as [Ha Hi].
    right. exists a, s. repeat split; [exact Ha | now left | ].
    unfold qualifies. now rewrite Hi, Hc.
  - right. exists a, sel. repeat split; [exact Ha | now right | exact Hq].
Qed.

(** An anchor that qualifies leaves a result. *)
Lemma scan_anchors_found (results : list jsstring) (sel : jsstring)
    (doc : document) (a : anchor) :
  In a (anchors doc) -> qualifies toLowerCase sel a = true ->
  scan_anchors toLowerCase results sel doc <> [].
Proof.
  intros Ha Hq. destruct results as [ | h t].
  - assert (Hf : exists x rest,
              List.filter
                (fun a => test re_link_text (toLowerCase (textContent a)))
                (List.filter (fun a => includes (href_attr a) sel)
                   (anchors doc)) = x :: rest).
    { rewrite filter_filter.
      destruct (List.filter _ (anchors doc)) as [ | x rest] eqn:E;
        [ | now exists x, rest].
      assert (Hin : In a []); [ | destruct Hin].
      rewrite <- E. apply List.filter_In. split; [exact Ha | exact Hq]. }
    destruct Hf as (x & rest & Hf).
    pose proof (fold_set_first _ href _ _ _ Hf) as Hh.
    change (hd_error (scan_anchors toLowerCase [] sel doc) = Some (href x)) in Hh.
    intros E. rewrite E in Hh. discriminate.
  - intros E.
    pose proof (scan_anchors_nonempty (h :: t) sel doc h eq_refl) as Hh.
    rewrite E in Hh. discriminate.
Qed.

Lemma scan_selectors_found (sels : list jsstring) (results : list jsstring)
    (doc : document) (a : anchor) (sel : jsstring) :
  In a (anchors doc) -> In sel sels -> qualifies toLowerCase sel a = true ->
  fold_left (fun results sel => scan_anchors toLowerCase results sel doc)
    sels results <> [].
Proof.
  intros Ha Hs Hq. revert results.
  induction sels as [ | s t IH]; intros results; [destruct Hs | ].
  cbn [fold_left]. destruct Hs as [-> | Hs]; [ | now apply IH].
  pose proof (scan_anchors_found results sel doc a Ha Hq) as Hne.
  destruct (scan_anchors toLowerCase results sel doc) as [ | h r] eqn:E;
    [contradiction | ].
  intros E'.
  pose proof (scan_selectors_head t (h :: r) doc h eq_refl) as Hh.
  rewrite E' in Hh. discriminate.
Qed.

Lemma scan_text_facts (doc : document) :
  List.NoDup (scan_text doc)
  /\ forall u, In u (scan_text doc) ->
       startsWith u (lit "http://") || startsWith u (lit "https://") = true
       /\ forallb (fun c => negb (is_space c)) u = true
       /\ test re_url_keyword u = true.
Proof.
  unfold scan_text. cbv zeta. split.
  - apply fold_set_NoDup. constructor.
  - intros u Hin.
    apply (fold_set_In (fun m => test re_url_keyword (group1 m)) group1)
      in Hin as [[] | (m & Hm & Hk & ->)].
    apply exec_all_sound in Hm as (st & Hm).
    apply den_re_url in Hm as (w & Hc & Hs & Hn).
    assert (Hg : group1 m = w) by (unfold group1, group; now rewrite Hc).
    rewrite Hg in *. now repeat split.
Qed.

(** X24: what the detector returns. No address comes twice. Each is the
    address of an anchor whose [href] attribute holds one of the eight
    words and whose text, in lower case, holds one of the words of the
    test; or, when the page has no such anchor and only then, an address
    written in the text of the page: it starts with http:// or https://,
    holds no white space, and holds one of the six keywords in any case. *)
Theorem findPrivacyLinks_sound (doc : document) :
  List.NoDup (findPrivacyLinks toLowerCase doc)
  /\ forall u, In u (findPrivacyLinks toLowerCase doc) ->
       (exists a sel,
           In a (anchors doc) /\ In sel link_selectors
           /\ qualifies toLowerCase sel a = true /\ u = href a)
       \/ ((forall a sel, In a (anchors doc) -> In sel link_selectors ->
                          qualifies toLowerCase sel a = false)
           /\ startsWith u (lit "http://") || startsWith u (lit "https://") = true
           /\ forallb (fun c => negb (is_space c)) u = true
           /\ test re_url_keyword u = true).
Proof.
  unfold findPrivacyLinks. cbv zeta.
  destruct (fold_left (fun results sel => scan_anchors toLowerCase results sel doc)
              link_selectors []) as [ | h t] eqn:E.
  - destruct (scan_text_facts doc) as [Hn Hu]. split; [exact Hn | ].
    intros u Hin. right. split; [ | now apply Hu].
    intros a sel Ha Hs. destruct (qualifies toLowerCase sel a) eqn:Hq;
      [ | reflexivity].
    exfalso. exact (scan_selectors_found link_selectors [] doc a sel Ha Hs Hq E).
  - split.
    + rewrite <- E. apply scan_selectors_NoDup. constructor.
    + intros u Hin. left. rewrite <- E in Hin.
      apply scan_selectors_In in Hin as [[] | H]. exact H.
Qed.

End DetectorFacts.

Lemma findPrivacyLinks_sound_witness :
  (exists a sel,
      In a [] /\ In sel link_selectors
      /\ qualifies (fun s => s) sel a = true
      /\ lit "https://example.com/Privacy" = href a)
  \/ ((forall a sel, In a [] -> In sel link_selectors ->
                     qualifies (fun s => s) sel a = false)
      /\ startsWith (lit "https://example.com/Privacy") (lit "http://")
         || startsWith (lit "https://example.com/Privacy") (lit "https://")
         = true
      /\ forallb (fun c => negb (is_space c)) (lit "https://example.com/Privacy")
         = true
      /\ test re_url_keyword (lit "https://example.com/Privacy") = true).
Proof.
  apply (proj2 (findPrivacyLinks_sound (fun s => s)
                  (Document []
                     (Some (lit "Read https://example.com/Privacy first"))))
           (lit "https://example.com/Privacy")).
  vm_compute. now left.
Defined.

(** X25: from the page to the background script. When an anchor of the
    page qualifies under the first selector, [privacy], the link kept for
    the tab is the address of the first such anchor of the document,
    whatever other anchors come before it, unless its domain is ignored. *)
Theorem first_privacy_anchor_kept (hostname : jsstring -> option jsstring)
    (toLowerCase toLowerCase' : jsstring -> jsstring) (doc : document)
    (a : anchor) (rest : list anchor) (d : jsstring) (ignored : ignored_item)
    (t : Z) (st : tabs) :
  List.filter (qualifies toLowerCase (lit "privacy")) (anchors doc) = a :: rest ->
  hostname (href a) = Some d ->
  isDomainIgnored d ignored = false ->
  t <> 0%Z ->
  exists e,
    checkLinks toLowerCase (Some t) doc = Some e
    /\ snd (tab_step hostname toLowerCase' ignored (GetPolicyLink t)
              (fst (fst (tab_step hostname toLowerCase' ignored e st))))
       = Some (href a).
Proof.
  intros Hf Hh Hi Ht.
  assert (Hhd : hd_error (findPrivacyLinks toLowerCase doc) = Some (href a)).
  { assert (H1 : hd_error (scan_anchors toLowerCase [] (lit "privacy") doc)
                 = Some (href a)).
    { unfold scan_anchors. cbv zeta.
      apply (fold_set_first _ href _ a rest).
      rewrite filter_filter. exact Hf. }
    assert (H2 : hd_error
                   (fold_left
                      (fun results sel => scan_anchors toLowerCase results sel doc)
                      link_selectors []) = Some (href a)).
    { exact (scan_selectors_head toLowerCase
               [lit "policy"; lit "legal"; lit "terms"; lit "confidentialite";
                lit "vie-privee"; lit "politique"; lit "datenschutz"]
               _ doc _ H1). }
    unfold findPrivacyLinks. cbv zeta.
    destruct (fold_left _ link_selectors []); [discriminate | exact H2]. }
  unfold checkLinks.
  destruct (findPrivacyLinks toLowerCase doc) as [ | u links]; [discriminate | ].
  injection Hhd as ->. eexists. split; [reflexivity | ].
  cbn [tab_step sender_tab]. rewrite (proj2 (Z.eqb_neq t 0) Ht).
  unfold note_policy. rewrite Hh, Hi. cbn [fst snd policyLinks].
  rewrite lookup_insert_eq. unfold str_or. now destruct (href a).
Qed.

Lemma first_privacy_anchor_kept_witness :
  exists e,
    checkLinks (List.map (fun c => if is_upper c then (c + 32)%N else c))
      (Some 7%Z)
      (Document
         [Anchor (lit "/terms") (lit "Terms") (lit "https://example.com/terms");
          Anchor (lit "/privacy") (lit "Privacy Policy")
            (lit "https://example.com/privacy")]
         None) = Some e
    /\ snd (tab_step (fun _ => Some (lit "example.com")) (fun s => s) None
              (GetPolicyLink 7)
              (fst (fst (tab_step (fun _ => Some (lit "example.com"))
                           (fun s => s) None e (Tabs ∅ ∅)))))
       = Some (lit "https://example.com/privacy").
Proof.
  apply (first_privacy_anchor_kept (fun _ => Some (lit "example.com"))
           (List.map (fun c => if is_upper c then (c + 32)%N else c))
           (fun s => s)
           (Document
              [Anchor (lit "/terms") (lit "Terms")
                 (lit "https://example.com/terms");
               Anchor (lit "/privacy") (lit "Privacy Policy")
                 (lit "https://example.com/privacy")]
              None)
           (Anchor (lit "/privacy") (lit "Privacy Policy")
              (lit "https://example.com/privacy"))
           [] (lit "example.com") None 7 (Tabs ∅ ∅)).
  - vm_compute. reflexivity.
  - reflexivity.
  - reflexivity.
  - discriminate.
Defined.
